(** * Joshua audio worklets: capture chunker and adaptive playout buffer

    A shallow embedding of the two AudioWorklet processors of the frontend,
    [JoshuaAudioProcessor] (playout, jitter buffer) and [JoshuaMicProcessor]
    (capture, resampler and chunker), and of the PCM16 conversions of the
    audio client between them and the socket, followed by the properties
    of their queueing, buffering, chunking and conversion logic.

    Conventions of the embedding:
    - JavaScript numbers that hold sample counts, offsets and indices are
      integers far below 2^53; they are modelled as [Z] (they can go negative,
      e.g. [remainingPartialBufferSamples]).
    - Samples and the time metrics are IEEE binary64 values, modelled by the
      primitive floats of Rocq; a store into a [Float32Array] rounds to
      binary32 ([fround]).
    - [this] is an explicit record threaded through every method; a method
      that can throw returns a [result].
    - [while] loops run on fuel; the fuel handed to each loop is proved
      sufficient on every state, so [OutOfFuel] is never the outcome
      ([process_fuel], [onmessage_fuel], [chunk_loop_spec]).
    - The sample rate of the audio context is an integral number of Hz. *)

From Stdlib Require Import ZArith List Lia Bool Arith.
From Stdlib Require Import Floats.
Import ListNotations.

#[local] Open Scope Z_scope.

(* ================================================================== *)
(** ** JavaScript runtime: errors, numbers, arrays *)

Module JS.

Inductive error : Set := RangeError | TypeError | OutOfFuel.

Inductive result (A : Type) : Type :=
| Ok (a : A)
| Err (e : error).
Arguments Ok {A} a.
Arguments Err {A} e.

Definition bind {A B : Type} (c : result A) (k : A -> result B) : result B :=
  match c with
  | Ok a => k a
  | Err e => Err e
  end.

Definition is_ok {A : Type} (c : result A) : bool :=
  match c with Ok _ => true | Err _ => false end.

(** [while (cond) body], at most [fuel] executions of the body. *)
Fixpoint while {S : Type} (fuel : nat) (cond : S -> bool)
         (body : S -> result S) (s : S) : result S :=
  if cond s then
    match fuel with
    | O => Err OutOfFuel
    | Datatypes.S k =>
        match body s with
        | Ok s' => while k cond body s'
        | Err e => Err e
        end
    end
  else Ok s.

(** [a.length] *)
Definition len {A : Type} (a : list A) : Z := Z.of_nat (length a).

(** The Number with the value of an integer (round to nearest even beyond
    2^53). *)
Definition of_Z (z : Z) : float := SF2Prim (binary_normalize 53 1024 z 0 false).

(** [Math.fround]: the binary32 value nearest to [x], as stored by a
    [Float32Array]. *)
Definition fround (x : float) : float :=
  match Prim2SF x with
  | S754_finite s m e => SF2Prim (binary_round 24 128 s m e)
  | _ => x
  end.

(** [Math.floor] of a finite number, as an integer. *)
Definition floor (x : float) : option Z :=
  match Prim2SF x with
  | S754_zero _ => Some 0
  | S754_finite s m e =>
      let v := if s then Z.neg m else Z.pos m in
      Some (if 0 <=? e then v * 2 ^ e else v / 2 ^ (- e))
  | _ => None
  end.

Definition Math_max (x y : float) : float :=
  if is_nan x || is_nan y then nan
  else if (x <? y)%float then y
  else if (y <? x)%float then x
  else if get_sign x then y else x.

Definition Math_min (x y : float) : float :=
  if is_nan x || is_nan y then nan
  else if (x <? y)%float then x
  else if (y <? x)%float then y
  else if get_sign x then x else y.

(** [x || 0] on a Number: [0], [-0] and [NaN] are falsy. *)
Definition falsy (x : float) : bool := is_zero x || is_nan x.
Definition or_zero (x : float) : float := if falsy x then 0%float else x.

(** Relative index of [TypedArray.prototype.subarray] and [slice]. *)
Definition rel_index (n i : Z) : Z :=
  if i <? 0 then Z.max (n + i) 0 else Z.min i n.

(** [a.subarray(b, e)] *)
Definition subarray {A : Type} (a : list A) (b e : Z) : list A :=
  let bi := rel_index (len a) b in
  let ei := rel_index (len a) e in
  firstn (Z.to_nat (Z.max (ei - bi) 0)) (skipn (Z.to_nat bi) a).

(** [target.set(src, at)]: throws unless the source fits. *)
Definition typed_set {A : Type} (target src : list A) (at_ : Z) : result (list A) :=
  if (at_ <? 0) || (len target <? len src + at_) then Err RangeError
  else Ok (firstn (Z.to_nat at_) target ++ src
             ++ skipn (Z.to_nat at_ + length src) target).

(** [for (i = from; ...) a[i] = f(i, a[i])] over the whole array. *)
Fixpoint mapi_from {A : Type} (from : Z) (f : Z -> A -> A) (a : list A) : list A :=
  match a with
  | [] => []
  | x :: r => f from x :: mapi_from (from + 1) f r
  end.

End JS.

Export JS.

Declare Scope js_scope.
Notation "x <- c ;; k" := (bind c (fun x => k))
  (at level 61, c at next level, right associativity) : js_scope.
#[local] Open Scope js_scope.

(* ================================================================== *)
(** ** Adaptive playout buffer: [JoshuaAudioProcessor] *)

Module Playout.

Definition frame := list float.

(** The object posted on the port by [processFrame]. *)
Record telemetry : Set := {
  t_totalAudioPlayed : float;
  t_actualAudioPlayed : float;
  t_delay : float;
  t_minDelay : float;
  t_maxDelay : float;
}.

(** The mutable fields of [this]; [port] is the log of the objects posted
    so far, oldest first. *)
Record processor : Type := {
  frames : list frame;
  offsetInFirstBuffer : Z;
  firstOut : bool;
  remainingPartialBufferSamples : Z;
  timeInStream : float;
  started : bool;
  totalAudioPlayed : float;
  actualAudioPlayed : float;
  maxDelay : float;
  minDelay : float;
  pidx : Z;
  partialBufferSamples : Z;
  maxBufferSamples : Z;
  port : list telemetry;
}.

Definition set_frames v p :=
  {| frames := v; offsetInFirstBuffer := offsetInFirstBuffer p;
     firstOut := firstOut p;
     remainingPartialBufferSamples := remainingPartialBufferSamples p;
     timeInStream := timeInStream p; started := started p;
     totalAudioPlayed := totalAudioPlayed p;
     actualAudioPlayed := actualAudioPlayed p;
     maxDelay := maxDelay p; minDelay := minDelay p; pidx := pidx p;
     partialBufferSamples := partialBufferSamples p;
     maxBufferSamples := maxBufferSamples p; port := port p |}.

Definition set_offsetInFirstBuffer v p :=
  {| frames := frames p; offsetInFirstBuffer := v;
     firstOut := firstOut p;
     remainingPartialBufferSamples := remainingPartialBufferSamples p;
     timeInStream := timeInStream p; started := started p;
     totalAudioPlayed := totalAudioPlayed p;
     actualAudioPlayed := actualAudioPlayed p;
     maxDelay := maxDelay p; minDelay := minDelay p; pidx := pidx p;
     partialBufferSamples := partialBufferSamples p;
     maxBufferSamples := maxBufferSamples p; port := port p |}.

Definition set_firstOut v p :=
  {| frames := frames p; offsetInFirstBuffer := offsetInFirstBuffer p;
     firstOut := v;
     remainingPartialBufferSamples := remainingPartialBufferSamples p;
     timeInStream := timeInStream p; started := started p;
     totalAudioPlayed := totalAudioPlayed p;
     actualAudioPlayed := actualAudioPlayed p;
     maxDelay := maxDelay p; minDelay := minDelay p; pidx := pidx p;
     partialBufferSamples := partialBufferSamples p;
     maxBufferSamples := maxBufferSamples p; port := port p |}.

Definition set_remainingPartialBufferSamples v p :=
  {| frames := frames p; offsetInFirstBuffer := offsetInFirstBuffer p;
     firstOut := firstOut p;
     remainingPartialBufferSamples := v;
     timeInStream := timeInStream p; started := started p;
     totalAudioPlayed := totalAudioPlayed p;
     actualAudioPlayed := actualAudioPlayed p;
     maxDelay := maxDelay p; minDelay := minDelay p; pidx := pidx p;
     partialBufferSamples := partialBufferSamples p;
     maxBufferSamples := maxBufferSamples p; port := port p |}.

Definition set_timeInStream v p :=
  {| frames := frames p; offsetInFirstBuffer := offsetInFirstBuffer p;
     firstOut := firstOut p;
     remainingPartialBufferSamples := remainingPartialBufferSamples p;
     timeInStream := v; started := started p;
     totalAudioPlayed := totalAudioPlayed p;
     actualAudioPlayed := actualAudioPlayed p;
     maxDelay := maxDelay p; minDelay := minDelay p; pidx := pidx p;
     partialBufferSamples := partialBufferSamples p;
     maxBufferSamples := maxBufferSamples p; port := port p |}.

Definition set_started v p :=
  {| frames := frames p; offsetInFirstBuffer := offsetInFirstBuffer p;
     firstOut := firstOut p;
     remainingPartialBufferSamples := remainingPartialBufferSamples p;
     timeInStream := timeInStream p; started := v;
     totalAudioPlayed := totalAudioPlayed p;
     actualAudioPlayed := actualAudioPlayed p;
     maxDelay := maxDelay p; minDelay := minDelay p; pidx := pidx p;
     partialBufferSamples := partialBufferSamples p;
     maxBufferSamples := maxBufferSamples p; port := port p |}.

Definition set_totalAudioPlayed v p :=
  {| frames := frames p; offsetInFirstBuffer := offsetInFirstBuffer p;
     firstOut := firstOut p;
     remainingPartialBufferSamples := remainingPartialBufferSamples p;
     timeInStream := timeInStream p; started := started p;
     totalAudioPlayed := v;
     actualAudioPlayed := actualAudioPlayed p;
     maxDelay := maxDelay p; minDelay := minDelay p; pidx := pidx p;
     partialBufferSamples := partialBufferSamples p;
     maxBufferSamples := maxBufferSamples p; port := port p |}.

Definition set_actualAudioPlayed v p :=
  {| frames := frames p; offsetInFirstBuffer := offsetInFirstBuffer p;
     firstOut := firstOut p;
     remainingPartialBufferSamples := remainingPartialBufferSamples p;
     timeInStream := timeInStream p; started := started p;
     totalAudioPlayed := totalAudioPlayed p;
     actualAudioPlayed := v;
     maxDelay := maxDelay p; minDelay := minDelay p; pidx := pidx p;
     partialBufferSamples := partialBufferSamples p;
     maxBufferSamples := maxBufferSamples p; port := port p |}.

Definition set_maxDelay v p :=
  {| frames := frames p; offsetInFirstBuffer := offsetInFirstBuffer p;
     firstOut := firstOut p;
     remainingPartialBufferSamples := remainingPartialBufferSamples p;
     timeInStream := timeInStream p; started := started p;
     totalAudioPlayed := totalAudioPlayed p;
     actualAudioPlayed := actualAudioPlayed p;
     maxDelay := v; minDelay := minDelay p; pidx := pidx p;
     partialBufferSamples := partialBufferSamples p;
     maxBufferSamples := maxBufferSamples p; port := port p |}.

Definition set_minDelay v p :=
  {| frames := frames p; offsetInFirstBuffer := offsetInFirstBuffer p;
     firstOut := firstOut p;
     remainingPartialBufferSamples := remainingPartialBufferSamples p;
     timeInStream := timeInStream p; started := started p;
     totalAudioPlayed := totalAudioPlayed p;
     actualAudioPlayed := actualAudioPlayed p;
     maxDelay := maxDelay p; minDelay := v; pidx := pidx p;
     partialBufferSamples := partialBufferSamples p;
     maxBufferSamples := maxBufferSamples p; port := port p |}.

Definition set_pidx v p :=
  {| frames := frames p; offsetInFirstBuffer := offsetInFirstBuffer p;
     firstOut := firstOut p;
     remainingPartialBufferSamples := remainingPartialBufferSamples p;
     timeInStream := timeInStream p; started := started p;
     totalAudioPlayed := totalAudioPlayed p;
     actualAudioPlayed := actualAudioPlayed p;
     maxDelay := maxDelay p; minDelay := minDelay p; pidx := v;
     partialBufferSamples := partialBufferSamples p;
     maxBufferSamples := maxBufferSamples p; port := port p |}.

Definition set_partialBufferSamples v p :=
  {| frames := frames p; offsetInFirstBuffer := offsetInFirstBuffer p;
     firstOut := firstOut p;
     remainingPartialBufferSamples := remainingPartialBufferSamples p;
     timeInStream := timeInStream p; started := started p;
     totalAudioPlayed := totalAudioPlayed p;
     actualAudioPlayed := actualAudioPlayed p;
     maxDelay := maxDelay p; minDelay := minDelay p; pidx := pidx p;
     partialBufferSamples := v;
     maxBufferSamples := maxBufferSamples p; port := port p |}.

Definition set_maxBufferSamples v p :=
  {| frames := frames p; offsetInFirstBuffer := offsetInFirstBuffer p;
     firstOut := firstOut p;
     remainingPartialBufferSamples := remainingPartialBufferSamples p;
     timeInStream := timeInStream p; started := started p;
     totalAudioPlayed := totalAudioPlayed p;
     actualAudioPlayed := actualAudioPlayed p;
     maxDelay := maxDelay p; minDelay := minDelay p; pidx := pidx p;
     partialBufferSamples := partialBufferSamples p;
     maxBufferSamples := v; port := port p |}.

(** [this.port.postMessage(m)] *)
Definition postMessage m p :=
  {| frames := frames p; offsetInFirstBuffer := offsetInFirstBuffer p;
     firstOut := firstOut p;
     remainingPartialBufferSamples := remainingPartialBufferSamples p;
     timeInStream := timeInStream p; started := started p;
     totalAudioPlayed := totalAudioPlayed p;
     actualAudioPlayed := actualAudioPlayed p;
     maxDelay := maxDelay p; minDelay := minDelay p; pidx := pidx p;
     partialBufferSamples := partialBufferSamples p;
     maxBufferSamples := maxBufferSamples p; port := port p ++ [m] |}.

(** The local variables of the copy loop of [process]. *)
Record locals : Type := {
  output : list float;
  out_idx : Z;
  anyAudio : bool;
}.

(** Total length of the queued frames: the [for] loop of [currentSamples]. *)
Fixpoint total_length (fs : list frame) : Z :=
  match fs with
  | [] => 0
  | f :: r => len f + total_length r
  end.

(** [x > 1e-4 || x < -1e-4]; the literal is the binary64 nearest to 1e-4. *)
Definition audible (x : float) : bool :=
  ((0x1.a36e2eb1c432dp-14 <? x) || (x <? - 0x1.a36e2eb1c432dp-14))%float.

Section WithSampleRate.

(** [sampleRate], the global of the AudioWorkletGlobalScope (an integral
    number of Hz). *)
Variable sampleRate : Z.

(** [Math.round((mili * sampleRate) / 1000)]: round half up. *)
Definition asSamples (mili : Z) : Z := (mili * sampleRate + 500) / 1000.

(** [n / sampleRate], in seconds. *)
Definition secs (n : Z) : float := (of_Z n / of_Z sampleRate)%float.

Definition DEFAULT_MAX_BUFFER_MS : Z := 5 * 60 * 1000.

(** Fields set once by the constructor. *)
Definition frameSize : Z := asSamples 80.
Definition initialBufferSamples : Z := 1 * frameSize.
Definition partialBufferIncrement : Z := asSamples 500.
Definition maxPartialWithIncrements : Z := asSamples 6000.
Definition maxBufferSamplesIncrement : Z := asSamples 500.
Definition maxMaxBufferWithIncrements : Z := asSamples 6000.

Definition resetStart (p : processor) : processor := set_started false p.

Definition initState (p : processor) : processor :=
  {| frames := [];
     offsetInFirstBuffer := 0;
     firstOut := false;
     remainingPartialBufferSamples := 0;
     timeInStream := 0%float;
     started := false;
     totalAudioPlayed := 0%float;
     actualAudioPlayed := 0%float;
     maxDelay := 0%float;
     minDelay := 2000%float;
     pidx := 0;
     partialBufferSamples := asSamples 10;
     maxBufferSamples := asSamples DEFAULT_MAX_BUFFER_MS;
     port := port p |}.

(** The processor as the constructor leaves it: nothing posted yet. *)
Definition constructor : processor :=
  initState
    {| frames := []; offsetInFirstBuffer := 0; firstOut := false;
       remainingPartialBufferSamples := 0; timeInStream := 0%float;
       started := false; totalAudioPlayed := 0%float;
       actualAudioPlayed := 0%float; maxDelay := 0%float;
       minDelay := 0%float; pidx := 0;
       partialBufferSamples := asSamples 10;
       maxBufferSamples := asSamples DEFAULT_MAX_BUFFER_MS; port := [] |}.

Definition totalMaxBufferSamples (p : processor) : Z :=
  maxBufferSamples p + partialBufferSamples p + initialBufferSamples.

Definition currentSamples (p : processor) : Z :=
  total_length (frames p) - offsetInFirstBuffer p.

Definition start (p : processor) : processor :=
  set_firstOut true
    (set_remainingPartialBufferSamples (partialBufferSamples p)
       (set_started true p)).

Definition canPlay (p : processor) : bool :=
  started p && (0 <? len (frames p)) && (remainingPartialBufferSamples p <=? 0).

(** *** [processFrame] *)

(** One turn of the drop-oldest loop. *)
Definition trim_body (target : Z) (p : processor) : result processor :=
  match frames p with
  | [] => Err TypeError
  | first :: rest =>
      let to_remove := currentSamples p - target in
      let to_remove := Z.min (len first - offsetInFirstBuffer p) to_remove in
      let p := set_offsetInFirstBuffer (offsetInFirstBuffer p + to_remove) p in
      let p := set_timeInStream (timeInStream p + secs to_remove)%float p in
      if offsetInFirstBuffer p =? len first
      then Ok (set_offsetInFirstBuffer 0 (set_frames rest p))
      else Ok p
  end.

Definition trim_cond (p : processor) : bool :=
  initialBufferSamples + partialBufferSamples p <? currentSamples p.

Definition trim (p : processor) : result processor :=
  let target := initialBufferSamples + partialBufferSamples p in
  while (S (length (frames p))) trim_cond (trim_body target) p.

Definition overflowing (p : processor) : bool :=
  totalMaxBufferSamples p <=? currentSamples p.

Definition report (p : processor) : telemetry :=
  {| t_totalAudioPlayed := totalAudioPlayed p;
     t_actualAudioPlayed := actualAudioPlayed p;
     t_delay := secs (currentSamples p);
     t_minDelay := minDelay p;
     t_maxDelay := maxDelay p |}.

(** The first statement of [processFrame]: the start-threshold check. *)
Definition start_check (p : processor) : processor :=
  if (initialBufferSamples <=? currentSamples p) && negb (started p)
  then start p else p.

(** The [debug] call is a no-op, but its argument [this.pidx++] is
    evaluated. *)
Definition count_packet (p : processor) : processor :=
  if pidx p <? 20 then set_pidx (pidx p + 1) p else p.

Definition processFrame (p : processor) (frame : frame) : result processor :=
  let p := start_check p in
  let p := count_packet p in
  p <- (if overflowing p then
          p <- trim p ;;
          let p := set_maxBufferSamples
                     (maxBufferSamples p + maxBufferSamplesIncrement) p in
          Ok (set_maxBufferSamples
                (Z.min maxMaxBufferWithIncrements (maxBufferSamples p)) p)
        else Ok p) ;;
  Ok (postMessage (report p) p).

(** *** [port.onmessage] *)

Inductive message : Type :=
| MsgReset
| MsgAudio (frame : frame)
| MsgOther.

Definition onmessage (p : processor) (m : message) : result processor :=
  match m with
  | MsgReset => Ok (initState p)
  | MsgAudio frame =>
      let p := set_frames (frames p ++ [frame]) p in
      processFrame p frame
  | MsgOther => Ok p
  end.

(** *** [process] *)

Definition copy_cond (s : processor * locals) : bool :=
  (out_idx (snd s) <? len (output (snd s))) && (0 <? len (frames (fst s))).

(** One turn of the copy loop. *)
Definition copy_body (s : processor * locals) : result (processor * locals) :=
  let (p, l) := s in
  match frames p with
  | [] => Err TypeError
  | first :: rest =>
      let to_copy := Z.min (len first - offsetInFirstBuffer p)
                           (len (output l) - out_idx l) in
      let subArray := subarray first (offsetInFirstBuffer p)
                               (offsetInFirstBuffer p + to_copy) in
      out <- typed_set (output l) subArray (out_idx l) ;;
      let any := anyAudio l || existsb audible out in
      let p := set_offsetInFirstBuffer (offsetInFirstBuffer p + to_copy) p in
      let l := {| output := out; out_idx := out_idx l + to_copy;
                  anyAudio := any |} in
      if offsetInFirstBuffer p =? len first
      then Ok (set_frames rest (set_offsetInFirstBuffer 0 p), l)
      else Ok (p, l)
  end.

Definition copy_loop (p : processor) (out : list float)
  : result (processor * locals) :=
  while (length (frames p)) copy_cond copy_body
        (p, {| output := out; out_idx := 0; anyAudio := false |}).

(** [for (i = 0; i < n; i++) output[i] *= i / n] *)
Definition fade_in (n : Z) (out : list float) : list float :=
  mapi_from 0
    (fun i x => if i <? n then fround (x * (of_Z i / of_Z n))%float else x)
    out.

(** [for (i = 0; i < n; i++) output[i] *= (n - i) / n] *)
Definition fade_out (n : Z) (out : list float) : list float :=
  mapi_from 0
    (fun i x => if i <? n then fround (x * (of_Z (n - i) / of_Z n))%float else x)
    out.

Definition note_delay (p : processor) : processor :=
  let delay := secs (currentSamples p) in
  if canPlay p
  then set_minDelay (Math_min (minDelay p) delay)
         (set_maxDelay (Math_max (maxDelay p) delay) p)
  else p.

(** The branch of [process] taken when [canPlay()] is false. *)
Definition idle (p : processor) (out : list float) : processor :=
  let p := if (0 <? actualAudioPlayed p)%float
           then set_totalAudioPlayed
                  (totalAudioPlayed p + secs (len out))%float p
           else p in
  set_remainingPartialBufferSamples
    (remainingPartialBufferSamples p - len out) p.

(** What follows the copy loop. *)
Definition finish (s : processor * locals) : processor * list float :=
  let (p, l) := s in
  let n := out_idx l in
  let (p, out) :=
    if firstOut p then (set_firstOut false p, fade_in n (output l))
    else (p, output l) in
  let (p, out) :=
    if (n <? len out) && negb (anyAudio l)
    then (resetStart
            (set_partialBufferSamples
               (Z.min (partialBufferSamples p + partialBufferIncrement)
                      maxPartialWithIncrements) p),
          fade_out n out)
    else (p, out) in
  let p := set_totalAudioPlayed (totalAudioPlayed p + secs (len out))%float p in
  let p := set_actualAudioPlayed (actualAudioPlayed p + secs n)%float p in
  let p := set_timeInStream (timeInStream p + secs n)%float p in
  (p, out).

(** [process(inputs, outputs)], with [out] the block [outputs[0][0]] as the
    host hands it over; the result carries the block as the method leaves
    it. *)
Definition process (p : processor) (out : list float)
  : result (processor * list float) :=
  let p := note_delay p in
  if negb (canPlay p) then Ok (idle p out, out)
  else
    s <- copy_loop p out ;;
    Ok (finish s).

(** *** Sequences of host events *)

Inductive event : Type :=
| Message (m : message)
| Render (out : list float).

Definition step (p : processor) (e : event) : result processor :=
  match e with
  | Message m => onmessage p m
  | Render out => r <- process p out ;; Ok (fst r)
  end.

Fixpoint run (p : processor) (es : list event) : result processor :=
  match es with
  | [] => Ok p
  | e :: r => p' <- step p e ;; run p' r
  end.

Definition reachable (p : processor) : Prop :=
  exists es, run constructor es = Ok p.

End WithSampleRate.

(** *** Observers used in the statements *)

(** The samples still to be played, oldest first. *)
Definition queued (p : processor) : list float :=
  skipn (Z.to_nat (offsetInFirstBuffer p)) (concat (frames p)).

(** The frame-queue invariant: the offset points inside the head frame; a
    zero-length head frame has offset 0. *)
Definition queue_ok (p : processor) : Prop :=
  match frames p with
  | [] => offsetInFirstBuffer p = 0
  | first :: _ =>
      0 <= offsetInFirstBuffer p /\
      (offsetInFirstBuffer p < len first \/
       (len first = 0 /\ offsetInFirstBuffer p = 0))
  end.

(** The adaptive parameters stay within their bounds. *)
Definition params_ok (sampleRate : Z) (p : processor) : Prop :=
  asSamples sampleRate 10 <= partialBufferSamples p
    <= maxPartialWithIncrements sampleRate /\
  0 <= maxBufferSamples p.

Definition well_formed (sampleRate : Z) (p : processor) : Prop :=
  queue_ok p /\ params_ok sampleRate p.

(** The processor just after [frames.push(frame)]. *)
Definition enqueue (frame : frame) (p : processor) : processor :=
  set_frames (frames p ++ [frame]) p.

(** The samples a render tick takes from the queue, before any fade. *)
Definition taken (sampleRate : Z) (p : processor) (out : list float)
  : list float :=
  if canPlay p then
    match copy_loop (note_delay sampleRate p) out with
    | Ok (_, l) => firstn (Z.to_nat (out_idx l)) (output l)
    | Err _ => []
    end
  else [].

(** The samples pushed by a sequence of events, in order. *)
Fixpoint pushed_samples (es : list event) : list float :=
  match es with
  | [] => []
  | Message (MsgAudio f) :: r => f ++ pushed_samples r
  | _ :: r => pushed_samples r
  end.

(** The number of frames pushed, and of render ticks. *)
Fixpoint pushes (es : list event) : nat :=
  match es with
  | [] => 0
  | Message (MsgAudio _) :: r => S (pushes r)
  | _ :: r => pushes r
  end.

Fixpoint ticks (es : list event) : nat :=
  match es with
  | [] => 0
  | Render _ :: r => S (ticks r)
  | _ :: r => ticks r
  end.

(** The samples played along a sequence of events that starts in [p]. *)
Fixpoint played (sampleRate : Z) (p : processor) (es : list event)
  : list float :=
  match es with
  | [] => []
  | e :: r =>
      (match e with Render out => taken sampleRate p out | Message _ => [] end)
      ++ match step sampleRate p e with
         | Ok p' => played sampleRate p' r
         | Err _ => []
         end
  end.

(** No push of the sequence triggers the overflow policy. *)
Fixpoint overflow_free (sampleRate : Z) (p : processor) (es : list event)
  : Prop :=
  match es with
  | [] => True
  | e :: r =>
      match e with
      | Message (MsgAudio f) => overflowing sampleRate (enqueue f p) = false
      | _ => True
      end /\
      match step sampleRate p e with
      | Ok p' => overflow_free sampleRate p' r
      | Err _ => True
      end
  end.

Definition is_reset (e : event) : bool :=
  match e with Message MsgReset => true | _ => false end.

(** The processor after the events [es], from construction. *)
Definition state_after (sampleRate : Z) (es : list event) : processor :=
  match run sampleRate (constructor sampleRate) es with
  | Ok p => p
  | Err _ => constructor sampleRate
  end.

(** A frame of [n] zero samples. *)
Definition silence (n : Z) : frame := repeat 0%float (Z.to_nat n).

(** A frame of [n] samples of amplitude [x]. *)
Definition tone (x : float) (n : Z) : frame := repeat x (Z.to_nat n).

(** *** Invariants of the loops and views of a step *)

(** What the copy loop keeps true, from the processor [p0] and the block
    [out0] it starts on. *)
Record copy_inv (p0 : processor) (out0 : list float)
       (s : processor * locals) : Prop := {
  ci_shape : exists fs o, fst s = set_frames fs (set_offsetInFirstBuffer o p0);
  ci_queue : queue_ok (fst s);
  ci_idx : 0 <= out_idx (snd s) <= len out0;
  ci_len : length (output (snd s)) = length out0;
  ci_data : firstn (Z.to_nat (out_idx (snd s))) (output (snd s)) ++ queued (fst s)
            = queued p0;
  ci_tail : skipn (Z.to_nat (out_idx (snd s))) (output (snd s))
            = skipn (Z.to_nat (out_idx (snd s))) out0;
  ci_any : existsb audible out0 = false ->
           anyAudio (snd s)
           = existsb audible (firstn (Z.to_nat (out_idx (snd s))) (output (snd s)));
}.

(** The underrun test of [finish], read on the state after the loop. *)
Definition underrun (l : locals) : bool :=
  (out_idx l <? len (output l)) && negb (anyAudio l).

Section WithSampleRate.

Variable sampleRate : Z.

(** What the drop-oldest loop keeps true, from the processor [p0] it starts
    in. *)
Record trim_inv (p0 p : processor) : Prop := {
  ti_shape : exists fs o t,
      p = set_timeInStream t (set_offsetInFirstBuffer o (set_frames fs p0));
  ti_queue : queue_ok p;
  ti_floor : initialBufferSamples sampleRate + partialBufferSamples p0
             <= currentSamples p;
  ti_data : exists dropped, queued p0 = dropped ++ queued p;
}.

(** The checks that precede the overflow policy leave the queue and the
    adaptive parameters alone. *)
Definition prepared (q : processor) : processor :=
  count_packet (start_check sampleRate q).

(** The processor after the overflow policy: the queue as the trim loop
    leaves it, and the raised [maxBufferSamples]. *)
Definition trimmed (q : processor) (fs : list frame) (o : Z) (t : float)
  : processor :=
  let q := set_timeInStream t
             (set_offsetInFirstBuffer o (set_frames fs (prepared q))) in
  let q := set_maxBufferSamples
             (Z.min (maxMaxBufferWithIncrements sampleRate)
                    (maxBufferSamples q + maxBufferSamplesIncrement sampleRate)) q in
  postMessage (report sampleRate q) q.

(** What the copy loop leaves, for a tick that can play. *)
Record tick_view (p : processor) (out : list float)
       (s : processor * locals) : Prop := {
  tv_loop : copy_loop (note_delay sampleRate p) out = Ok s;
  tv_process : process sampleRate p out = Ok (finish sampleRate s);
  tv_shape : exists fs o,
      fst s = set_frames fs (set_offsetInFirstBuffer o (note_delay sampleRate p));
  tv_queue : queue_ok (fst s);
  tv_taken : taken sampleRate p out
             = firstn (Z.to_nat (out_idx (snd s))) (output (snd s));
  tv_idx : out_idx (snd s) = len (taken sampleRate p out);
  tv_len : len (output (snd s)) = len out;
  tv_output : output (snd s)
              = taken sampleRate p out
                  ++ skipn (Z.to_nat (out_idx (snd s))) out;
  tv_data : queued p = taken sampleRate p out ++ queued (fst s);
  tv_any : existsb audible out = false ->
           anyAudio (snd s) = existsb audible (taken sampleRate p out);
  tv_end : out_idx (snd s) < len out -> frames (fst s) = [];
}.

(** The buffer below its start threshold and not started. *)
Definition Empty (p : processor) : Prop :=
  started p = false /\ currentSamples p < initialBufferSamples sampleRate.

End WithSampleRate.

(** One frame of 1923 samples of amplitude [x], then [k] render ticks on
    128-sample blocks. *)
Definition burst_then_ticks (x : float) (k : nat) : list event :=
  Message (MsgAudio (tone x 1923)) :: repeat (Render (silence 128)) k.

(** The processor after a burst of 1923 audible samples and 17 ticks:
    playing, three samples left. *)
Definition loud_stall : processor :=
  state_after 24000 (burst_then_ticks 0.5 17).

(** The same after a burst of 1923 samples of amplitude 2^-15, below the
    audibility threshold of the processor. *)
Definition quiet_stall : processor :=
  state_after 24000 (burst_then_ticks 0x1p-15 17).

(** Zero-length frames pushed among the others, then the two ticks of the
    partial-buffer countdown: the processor can play and the head of its
    queue is a zero-length frame. *)
Definition gappy_events : list event :=
  [Message (MsgAudio []); Message (MsgAudio (tone 0.5 1920));
   Message (MsgAudio []); Message (MsgAudio (tone 0.5 3));
   Render (silence 128); Render (silence 128)].

Definition gappy : processor := state_after 24000 gappy_events.

Definition fresh_locals : locals :=
  {| output := silence 128; out_idx := 0; anyAudio := false |}.

End Playout.

(* ================================================================== *)
(** ** Capture chunker: [JoshuaMicProcessor] *)

Module Mic.
(** The object posted on the port for each chunk. *)
Record audioChunk : Type := {
  data : list float;
  c_sampleRate : Z;
  duration : float;
  samples : Z;
}.

(** The mutable fields of [this]; [port] is the log of the chunks posted so
    far, oldest first. *)
Record processor : Type := {
  pcmBuffer : list float;
  isRecording : bool;
  port : list audioChunk;
}.

Definition TARGET_SAMPLE_RATE : Z := 24000.

(** The literal [0.08] is the binary64 nearest to 8/100. *)
Definition CHUNK_DURATION : float := 0x1.47ae147ae147bp-4%float.

(** [this.TARGET_SAMPLE_RATE * this.CHUNK_DURATION], a Number. *)
Definition SAMPLES_PER_CHUNK_number : float :=
  (of_Z TARGET_SAMPLE_RATE * CHUNK_DURATION)%float.

(** The same as an integer: the product is exactly 1920 (see
    [samples_per_chunk_exact]), so the comparison with [pcmBuffer.length]
    and the count given to [splice] are those of the integer. *)
Definition SAMPLES_PER_CHUNK : Z :=
  match floor SAMPLES_PER_CHUNK_number with
  | Some n => n
  | None => 0
  end.

Definition constructor : processor :=
  {| pcmBuffer := []; isRecording := false; port := [] |}.

Inductive command : Set := Start | Stop | Other.

Definition onmessage (p : processor) (c : command) : processor :=
  match c with
  | Start => {| pcmBuffer := []; isRecording := true; port := port p |}
  | Stop => {| pcmBuffer := pcmBuffer p; isRecording := false; port := port p |}
  | Other => p
  end.

(** [inputData[i] || 0]; a read past the end gives [undefined]. *)
Definition read_or_zero (inputData : list float) (i : Z) : float :=
  if i <? 0 then 0%float
  else match nth_error inputData (Z.to_nat i) with
       | Some x => or_zero x
       | None => 0%float
       end.

(** The same on the result of [Math.floor]: an index that is NaN or
    infinite names no element. *)
Definition read_at (inputData : list float) (srcIndex : option Z) : float :=
  match srcIndex with
  | Some i => read_or_zero inputData i
  | None => 0%float
  end.

(** The integers [from, from + n). *)
Fixpoint indices (from : Z) (n : nat) : list Z :=
  match n with
  | O => []
  | S k => from :: indices (from + 1) k
  end.

(** [sourceSampleRate / this.TARGET_SAMPLE_RATE], a binary64 quotient. *)
Definition ratio_binary64 (sourceSampleRate : Z) : float :=
  (of_Z sourceSampleRate / of_Z TARGET_SAMPLE_RATE)%float.

(** [Math.floor(i * ratio)] *)
Definition srcIndex_of (ratio : float) (i : Z) : option Z :=
  floor (of_Z i * ratio)%float.

(** [Math.floor(inputData.length / ratio)] *)
Definition outputLength_of (ratio : float) (n : Z) : option Z :=
  floor (of_Z n / ratio)%float.

(** The source index and the output length the code computes at a rate. *)
Definition srcIndex_binary64 (sourceSampleRate i : Z) : option Z :=
  srcIndex_of (ratio_binary64 sourceSampleRate) i.

Definition outputLength_binary64 (sourceSampleRate n : Z) : option Z :=
  outputLength_of (ratio_binary64 sourceSampleRate) n.

(** [resampleTo24kHz(inputData, sourceSampleRate)].  The rate is an
    integral number of Hz; the ratio, the output length and the source
    indices are binary64 values, computed as the code computes them.
    [new Array(outputLength)] throws a RangeError unless [outputLength] is
    an integer from 0 to 2^32 - 1. *)
Definition resampleTo24kHz (inputData : list float) (sourceSampleRate : Z)
  : result (list float) :=
  if sourceSampleRate =? TARGET_SAMPLE_RATE then Ok inputData
  else
    let ratio := ratio_binary64 sourceSampleRate in
    match outputLength_of ratio (len inputData) with
    | Some outputLength =>
        if (0 <=? outputLength) && (outputLength <? 2 ^ 32)
        then Ok (map (fun i => read_at inputData (srcIndex_of ratio i))
                     (indices 0 (Z.to_nat outputLength)))
        else Err RangeError
    | None => Err RangeError
    end.

(** [this.pcmBuffer.splice(0, n)]: the removed elements and what is left. *)
Definition splice0 (a : list float) (n : Z) : list float * list float :=
  (firstn (Z.to_nat n) a, skipn (Z.to_nat n) a).

Definition chunk_cond (p : processor) : bool :=
  SAMPLES_PER_CHUNK <=? len (pcmBuffer p).

(** One turn of the chunk loop. *)
Definition chunk_body (p : processor) : result processor :=
  let (chunk, rest) := splice0 (pcmBuffer p) SAMPLES_PER_CHUNK in
  Ok {| pcmBuffer := rest;
        isRecording := isRecording p;
        port := port p ++ [{| data := chunk;
                              c_sampleRate := TARGET_SAMPLE_RATE;
                              duration := CHUNK_DURATION;
                              samples := len chunk |}] |}.

Section WithSampleRate.

(** [sampleRate], the global of the AudioWorkletGlobalScope. *)
Variable sampleRate : Z.

(** What a call of [process] appends to [pcmBuffer]: nothing without a
    first input or a first channel, or on an empty channel. *)
Definition resampled (inputs : list (list (list float))) : result (list float) :=
  match inputs with
  | [] => Ok []
  | input :: _ =>
      match input with
      | [] => Ok []
      | inputChannel :: _ =>
          if len inputChannel =? 0 then Ok []
          else resampleTo24kHz inputChannel sampleRate
      end
  end.

(** [process(inputs, outputs, parameters)] *)
Definition process (p : processor) (inputs : list (list (list float)))
  : result processor :=
  if negb (isRecording p) then Ok p
  else
    match inputs with
    | [] => Ok p
    | input :: _ =>
        match input with
        | [] => Ok p
        | inputChannel :: _ =>
            if len inputChannel =? 0 then Ok p
            else
              resampledData <- resampleTo24kHz inputChannel sampleRate ;;
              let p := {| pcmBuffer := pcmBuffer p ++ resampledData;
                          isRecording := isRecording p;
                          port := port p |} in
              while (length (pcmBuffer p)) chunk_cond chunk_body p
        end
    end.

(** A sequence of render callbacks. *)
Fixpoint run (p : processor) (calls : list (list (list (list float))))
  : result processor :=
  match calls with
  | [] => Ok p
  | inputs :: r => p' <- process p inputs ;; run p' r
  end.

(** All that the calls append to [pcmBuffer], in order. *)
Fixpoint resampled_all (calls : list (list (list (list float))))
  : result (list float) :=
  match calls with
  | [] => Ok []
  | inputs :: r =>
      a <- resampled inputs ;;
      b <- resampled_all r ;;
      Ok (a ++ b)
  end.

End WithSampleRate.

(** The rates at which the binary64 arithmetic of the resampler is checked
    against the exact one: the usual device rates, and the multiples of
    the target rate up to 384 kHz. *)
Definition checked_rates : list Z :=
  [8000; 11025; 12000; 16000; 22050; 32000; 44100; 88200; 176400]
  ++ map (fun m => m * TARGET_SAMPLE_RATE) (indices 2 15).

(** The longest block of the check, eight render quanta. *)
Definition CHECKED_BLOCK : Z := 1024.

(** At the rate [rate], the output length of every block of up to
    [CHECKED_BLOCK] samples and the source index of every output index of
    such a block are the exact quotients. *)
Definition agrees_at (rate : Z) : bool :=
  let ratio := ratio_binary64 rate in
  (0 <? rate) && negb (rate =? TARGET_SAMPLE_RATE)
  && forallb (fun n => match outputLength_of ratio n with
                       | Some l => l =? n * TARGET_SAMPLE_RATE / rate
                       | None => false
                       end)
             (indices 0 (Z.to_nat (CHECKED_BLOCK + 1)))
  && forallb (fun i => match srcIndex_of ratio i with
                       | Some k => k =? i * rate / TARGET_SAMPLE_RATE
                       | None => false
                       end)
             (indices 0 (Z.to_nat (CHECKED_BLOCK * TARGET_SAMPLE_RATE / rate))).

(** The block [0, 1, ..., n - 1]. *)
Definition ramp (n : nat) : list float := map of_Z (indices 0 n).

(** A chunk as the loop posts it. *)
Definition chunk_ok (c : audioChunk) : Prop :=
  len (data c) = SAMPLES_PER_CHUNK /\
  samples c = SAMPLES_PER_CHUNK /\
  c_sampleRate c = TARGET_SAMPLE_RATE /\
  duration c = CHUNK_DURATION.

(** What the chunk loop keeps true, from the processor [p0] it starts in. *)
Definition chunk_inv (p0 p : processor) : Prop :=
  isRecording p = isRecording p0 /\
  exists chunks,
    port p = port p0 ++ chunks /\
    Forall chunk_ok chunks /\
    concat (map data chunks) ++ pcmBuffer p = pcmBuffer p0.

End Mic.

(* ================================================================== *)
(** ** Observations on sequences of events *)

Module PlayoutTrace.

Import Playout.

(** The blocks the host hands to the render ticks of a sequence, in
    order. *)
Fixpoint host_blocks (es : list event) : list (list float) :=
  match es with
  | [] => []
  | Render out :: r => out :: host_blocks r
  | Message _ :: r => host_blocks r
  end.

(** The same blocks as the render ticks leave them, from the processor
    [p]. *)
Fixpoint rendered (sampleRate : Z) (p : processor) (es : list event)
  : list (list float) :=
  match es with
  | [] => []
  | Render out :: r =>
      match process sampleRate p out with
      | Ok (p', out') => out' :: rendered sampleRate p' r
      | Err _ => []
      end
  | Message m :: r =>
      match onmessage sampleRate p m with
      | Ok p' => rendered sampleRate p' r
      | Err _ => []
      end
  end.

(** The processor [p] with [l] as the log of its port. *)
Definition relog (l : list telemetry) (p : processor) : processor :=
  {| frames := frames p; offsetInFirstBuffer := offsetInFirstBuffer p;
     firstOut := firstOut p;
     remainingPartialBufferSamples := remainingPartialBufferSamples p;
     timeInStream := timeInStream p; started := started p;
     totalAudioPlayed := totalAudioPlayed p;
     actualAudioPlayed := actualAudioPlayed p;
     maxDelay := maxDelay p; minDelay := minDelay p; pidx := pidx p;
     partialBufferSamples := partialBufferSamples p;
     maxBufferSamples := maxBufferSamples p; port := l |}.

(** The processor [p] with the messages [l] ahead of its own in the log
    of its port. *)
Definition prefix_log (l : list telemetry) (p : processor) : processor :=
  relog (l ++ port p) p.

(** The same on the state of the copy loop and on the result of a
    render tick. *)
Definition prefix_locals (l : list telemetry) (s : processor * locals)
  : processor * locals :=
  (prefix_log l (fst s), snd s).

Definition prefix_block (l : list telemetry) (r : processor * list float)
  : processor * list float :=
  (prefix_log l (fst r), snd r).

(** A result carried through a function. *)
Definition lift {A B : Type} (g : A -> B) (r : result A) : result B :=
  match r with
  | Ok a => Ok (g a)
  | Err e => Err e
  end.

End PlayoutTrace.

Module MicTrace.

Import Mic.

(** [inputs[0][0]], the channel a call of [process] reads; empty when the
    call has no first input or no first channel. *)
Definition first_channel (inputs : list (list (list float))) : list float :=
  match inputs with
  | (inputChannel :: _) :: _ => inputChannel
  | _ => []
  end.

(** The exact number of samples of a block of [n] samples brought from
    the rate [rate] to the target rate, rounded down; the resampler
    returns as many at the checked rates. *)
Definition resampled_length (rate n : Z) : Z :=
  if rate =? TARGET_SAMPLE_RATE then n else n * TARGET_SAMPLE_RATE / rate.

(** The sum of a list of integers. *)
Definition total (l : list Z) : Z := fold_right Z.add 0 l.

(** The [i]-th chunk cut from the samples [all]. *)
Definition nth_chunk (all : list float) (i : nat) : audioChunk :=
  let d := firstn (Z.to_nat SAMPLES_PER_CHUNK)
                  (skipn (Z.to_nat SAMPLES_PER_CHUNK * i) all) in
  {| data := d; c_sampleRate := TARGET_SAMPLE_RATE;
     duration := CHUNK_DURATION; samples := SAMPLES_PER_CHUNK |}.

End MicTrace.


(* ================================================================== *)
(** ** The audio client: PCM16 on the wire (src/unnamed/part_002)

    [handleAudioChunk] turns a chunk of the microphone processor into
    16-bit samples and sends their bytes; [handleAudioResponse] turns the
    bytes of a response into the Float32Array frame it posts to the
    playout processor.  The base64 text between the two is left out: a
    message is modelled by the bytes handed to [btoa], a response by the
    bytes [atob] returns.  Typed arrays use the byte order of the
    platform, little-endian here. *)

Module Client.

(** The integer part of a Number, towards zero: the magnitude
    [m * 2^e] shifted down to an integer; 0 for NaN and the infinities. *)
Definition trunc (x : float) : Z :=
  match Prim2SF x with
  | S754_finite s m e =>
      let a := Z.shiftl (Z.pos m) e in
      if s then - a else a
  | _ => 0
  end.

(** [ToInt16], the conversion of a store into an Int16Array. *)
Definition ToInt16 (x : float) : Z :=
  let k := trunc x mod 65536 in
  if 32768 <=? k then k - 65536 else k.

(** [pcmInt16[i] = Math.max(-32768, Math.min(32767, x * 32767))] *)
Definition pcm16_of_float (x : float) : Z :=
  ToInt16 (Math_max (-32768) (Math_min 32767 (x * 32767)))%float.

(** [float32Array[i] = int16Array[i] / 32767.0] *)
Definition float_of_pcm16 (s : Z) : float :=
  fround (of_Z s / 32767)%float.

(** [new Uint8Array(pcmInt16.buffer)]: the two bytes of each sample, low
    byte first. *)
Definition Uint8Array_of_buffer (a : list Z) : list Z :=
  flat_map (fun s => [s mod 256; (s / 256) mod 256]) a.

(** The 16-bit sample read from two bytes. *)
Definition int16_of_bytes (lo hi : Z) : Z :=
  let v := lo + 256 * hi in
  if 32768 <=? v then v - 65536 else v.

Fixpoint int16_pairs (bytes : list Z) : list Z :=
  match bytes with
  | lo :: hi :: r => int16_of_bytes lo hi :: int16_pairs r
  | _ => []
  end.

(** [new Int16Array(bytes.buffer)]: a RangeError on a buffer of odd
    length. *)
Definition Int16Array_of_buffer (bytes : list Z) : result (list Z) :=
  if Z.even (len bytes) then Ok (int16_pairs bytes) else Err RangeError.

(** The message [handleAudioChunk] sends, before [btoa] and
    [JSON.stringify]. *)
Record audioMessage : Type := {
  m_data : list Z;
  m_sample_rate : Z;
  m_duration : float;
  m_samples : Z;
}.

(** [handleAudioChunk(chunkData)]: nothing is sent without a connected
    socket. *)
Definition handleAudioChunk (connected : bool) (chunkData : Mic.audioChunk)
  : option audioMessage :=
  if negb connected then None
  else
    let pcmInt16 := map pcm16_of_float (Mic.data chunkData) in
    Some {| m_data := Uint8Array_of_buffer pcmInt16;
            m_sample_rate := Mic.c_sampleRate chunkData;
            m_duration := Mic.duration chunkData;
            m_samples := Mic.samples chunkData |}.

(** [handleAudioResponse(audioData)], on the bytes of the response: the
    frame posted to the playout processor, or nothing when the output is
    not initialised or the [try] block throws. *)
Definition handleAudioResponse (ready : bool) (bytes : list Z)
  : option Playout.message :=
  if negb ready then None
  else
    match Int16Array_of_buffer bytes with
    | Ok int16Array => Some (Playout.MsgAudio (map float_of_pcm16 int16Array))
    | Err _ => None
    end.

(** The 16-bit sample values. *)
Definition int16 (s : Z) : Prop := -32768 <= s <= 32767.

Definition all_int16 : list Z := Mic.indices (-32768) (Z.to_nat 65536).

(** What is checked on each 16-bit sample [s], with [x] the float it is
    decoded to and [r] the sample [x] is encoded to. *)
Definition level_ok (s : Z) : bool :=
  let x := float_of_pcm16 s in
  let r := pcm16_of_float x in
  Bool.eqb (Playout.audible x) (3 <? Z.abs s)
  && (Z.abs r <=? Z.abs s) && (Z.abs s - 1 <=? Z.abs r)
  && ((0 <=? r) || (s <? 0)) && ((r <=? 0) || (0 <? s))
  && (if s =? -32768 then (x <? -1)%float
      else ((-1 <=? x) && (x <=? 1))%float).

End Client.


(* ================================================================== *)
(** ** Properties of the runtime model *)

Module JSFacts.

Lemma len_nonneg {A : Type} (a : list A) : 0 <= len a.
Proof. unfold len. lia. Qed.

Lemma len_nil {A : Type} : len (@nil A) = 0.
Proof. reflexivity. Qed.

Lemma len_cons {A : Type} (x : A) (a : list A) : len (x :: a) = 1 + len a.
Proof. unfold len. simpl length. lia. Qed.

Lemma len_app {A : Type} (a b : list A) : len (a ++ b) = len a + len b.
Proof. unfold len. rewrite length_app. lia. Qed.

Lemma len_zero_nil {A : Type} (a : list A) : len a = 0 -> a = [].
Proof.
  destruct a as [|x a]; [reflexivity|].
  rewrite len_cons. pose proof (len_nonneg a). lia.
Qed.

Lemma while_done {S : Type} fuel (cond : S -> bool) body s :
  cond s = false -> while fuel cond body s = Ok s.
Proof. intros C. destruct fuel; simpl; rewrite C; reflexivity. Qed.

(** Invariant rule for [while]: an invariant kept by the body, and a
    measure that bounds the turns that remain, give a result on enough
    fuel. *)
Lemma while_rule {S : Type} (I : S -> Prop) (m : S -> nat) cond body :
  (forall s, I s -> cond s = true ->
     (0 < m s)%nat /\
     exists s', body s = Ok s' /\ I s' /\ (cond s' = true -> (m s' < m s)%nat)) ->
  forall fuel s, I s -> (m s <= fuel)%nat ->
  exists s', while fuel cond body s = Ok s' /\ I s' /\ cond s' = false.
Proof.
  intros Hstep. induction fuel as [|k IH]; intros s Is Hm.
  - destruct (cond s) eqn:C.
    + destruct (Hstep s Is C) as [Hpos _]. lia.
    + exists s. rewrite while_done by assumption. auto.
  - destruct (cond s) eqn:C.
    + destruct (Hstep s Is C) as [Hpos (s' & Hb & Is' & Hdec)].
      simpl. rewrite C, Hb.
      destruct (cond s') eqn:C'.
      * apply IH; [assumption|]. specialize (Hdec eq_refl). lia.
      * exists s'. rewrite while_done by assumption. auto.
    + exists s. rewrite while_done by assumption. auto.
Qed.

(** Fuel rule for [while], whatever the body does: with a measure that
    bounds the turns that remain, the fuel never runs out. *)
Lemma while_fuel {S : Type} (m : S -> nat) (cond : S -> bool) body :
  (forall s, body s <> Err OutOfFuel) ->
  (forall s, cond s = true ->
     (0 < m s)%nat /\
     forall s', body s = Ok s' -> cond s' = true -> (m s' < m s)%nat) ->
  forall fuel s, (m s <= fuel)%nat -> while fuel cond body s <> Err OutOfFuel.
Proof.
  intros Hbody Hstep. induction fuel as [|k IH]; intros s Hm.
  - destruct (cond s) eqn:C.
    + destruct (Hstep s C) as [Hpos _]. lia.
    + rewrite while_done by assumption. discriminate.
  - destruct (cond s) eqn:C.
    + destruct (Hstep s C) as [Hpos Hdec].
      simpl. rewrite C. destruct (body s) as [s'|e] eqn:Hb.
      * destruct (cond s') eqn:C'.
        -- apply IH. specialize (Hdec s' eq_refl C'). lia.
        -- rewrite while_done by assumption. discriminate.
      * intros H. injection H as ->. exact (Hbody s Hb).
    + rewrite while_done by assumption. discriminate.
Qed.

Lemma subarray_inside {A : Type} (a : list A) (b n : Z) :
  0 <= b -> 0 <= n -> b + n <= len a ->
  subarray a b (b + n) = firstn (Z.to_nat n) (skipn (Z.to_nat b) a).
Proof.
  intros Hb Hn Hle. unfold subarray, rel_index.
  destruct (Z.ltb_spec b 0); [lia|]. destruct (Z.ltb_spec (b + n) 0); [lia|].
  rewrite !Z.min_l by lia. f_equal. lia.
Qed.

Lemma length_firstn_skipn {A : Type} (a : list A) (b n : nat) :
  (b + n <= length a)%nat -> length (firstn n (skipn b a)) = n.
Proof. intros H. rewrite length_firstn, length_skipn. lia. Qed.

Lemma skipn_split {A : Type} (a : list A) (b n : nat) :
  skipn b a = firstn n (skipn b a) ++ skipn (b + n) a.
Proof.
  rewrite <- (firstn_skipn n (skipn b a)) at 1. f_equal.
  rewrite skipn_skipn. f_equal. lia.
Qed.

Section Splice.
Context {A : Type} (out src : list A) (i : nat).
Hypothesis Hfit : (i + length src <= length out)%nat.
Let out' := firstn i out ++ src ++ skipn (i + length src) out.

Lemma splice_length : length out' = length out.
Proof.
  unfold out'. rewrite !length_app, length_firstn, length_skipn. lia.
Qed.

Lemma splice_firstn : firstn (i + length src) out' = firstn i out ++ src.
Proof.
  unfold out'. rewrite app_assoc.
  rewrite firstn_app.
  replace (i + length src - length (firstn i out ++ src))%nat with 0%nat
    by (rewrite length_app, length_firstn; lia).
  rewrite firstn_O, app_nil_r. apply firstn_all2.
  rewrite length_app, length_firstn. lia.
Qed.

Lemma splice_skipn : skipn (i + length src) out' = skipn (i + length src) out.
Proof.
  unfold out'. rewrite app_assoc. rewrite skipn_app.
  replace (i + length src - length (firstn i out ++ src))%nat with 0%nat
    by (rewrite length_app, length_firstn; lia).
  rewrite skipn_all2 by (rewrite length_app, length_firstn; lia).
  reflexivity.
Qed.
End Splice.

Lemma typed_set_ok {A : Type} (target src : list A) (i : Z) :
  0 <= i -> len src + i <= len target ->
  typed_set target src i
  = Ok (firstn (Z.to_nat i) target ++ src ++ skipn (Z.to_nat i + length src) target).
Proof.
  intros Hi Hfit. unfold typed_set.
  destruct (Z.ltb_spec i 0); [lia|].
  destruct (Z.ltb_spec (len target) (len src + i)); [lia|].
  reflexivity.
Qed.

Lemma typed_set_length {A : Type} (target src r : list A) (i : Z) :
  typed_set target src i = Ok r -> length r = length target.
Proof.
  unfold typed_set. 
  destruct (Z.ltb_spec i 0); [discriminate|].
  destruct (Z.ltb_spec (len target) (len src + i)); [discriminate|].
  simpl. intros [= <-]. apply splice_length. unfold len in *. lia.
Qed.

Lemma existsb_skipn {A : Type} (f : A -> bool) (l : list A) (n : nat) :
  existsb f l = false -> existsb f (skipn n l) = false.
Proof.
  revert n; induction l as [|x l IH]; intros [|n] H; simpl in *; auto.
  apply orb_false_iff in H. apply IH, H.
Qed.

End JSFacts.

(* ================================================================== *)
(** ** The playout buffer: queue, loops and invariants *)

Module PlayoutFacts.

Import Playout JSFacts.

Lemma skipn_add {A : Type} (l : list A) (a b : nat) :
  skipn (a + b) l = skipn b (skipn a l).
Proof. rewrite skipn_skipn. f_equal. lia. Qed.

Lemma total_length_nonneg fs : 0 <= total_length fs.
Proof. induction fs as [|f r IH]; simpl; [lia|]. pose proof (len_nonneg f). lia. Qed.

Lemma total_length_app fs gs :
  total_length (fs ++ gs) = total_length fs + total_length gs.
Proof. induction fs as [|f r IH]; simpl; lia. Qed.

Lemma total_length_concat fs : total_length fs = len (concat fs).
Proof. induction fs as [|f r IH]; simpl; [reflexivity|]. rewrite len_app. lia. Qed.

(** The queue of a processor whose head frame is [first]. *)
Lemma queued_cons p first rest :
  frames p = first :: rest -> 0 <= offsetInFirstBuffer p <= len first ->
  queued p = skipn (Z.to_nat (offsetInFirstBuffer p)) first ++ concat rest.
Proof.
  intros Hf Ho. unfold queued. rewrite Hf. simpl concat.
  rewrite skipn_app.
  replace (Z.to_nat (offsetInFirstBuffer p) - length first)%nat with 0%nat
    by (unfold len in Ho; lia).
  reflexivity.
Qed.

Lemma queue_ok_range p first rest :
  queue_ok p -> frames p = first :: rest ->
  0 <= offsetInFirstBuffer p <= len first.
Proof. unfold queue_ok. intros H Hf. rewrite Hf in H. lia. Qed.

Lemma queue_ok_shift p rest o :
  queue_ok (set_frames rest (set_offsetInFirstBuffer 0 (set_offsetInFirstBuffer o p))).
Proof.
  unfold queue_ok. simpl. destruct rest as [|f r]; [reflexivity|].
  pose proof (len_nonneg f). lia.
Qed.

Lemma currentSamples_queued p :
  queue_ok p -> currentSamples p = len (queued p).
Proof.
  intros H. unfold currentSamples, queued. rewrite total_length_concat.
  unfold len. rewrite length_skipn.
  assert (0 <= offsetInFirstBuffer p <= len (concat (frames p))) as Hr.
  { unfold queue_ok in H. destruct (frames p) as [|f r] eqn:Hf.
    - rewrite H. simpl. unfold len. simpl. lia.
    - simpl concat. rewrite len_app. pose proof (len_nonneg (concat r)). lia. }
  unfold len in Hr. lia.
Qed.

Section Copy.

Lemma copy_inv_init p out :
  queue_ok p ->
  copy_inv p out (p, {| output := out; out_idx := 0; anyAudio := false |}).
Proof.
  intros Hq. split; simpl; auto.
  - exists (frames p), (offsetInFirstBuffer p). destruct p; reflexivity.
  - pose proof (len_nonneg out). lia.
Qed.

Lemma copy_body_step p0 out0 s :
  copy_inv p0 out0 s -> copy_cond s = true ->
  (0 < length (frames (fst s)))%nat /\
  exists s', copy_body s = Ok s' /\ copy_inv p0 out0 s' /\
             (copy_cond s' = true ->
              (length (frames (fst s')) < length (frames (fst s)))%nat).
Proof.
  destruct s as [p l]. intros [Hshape Hq Hidx Hlen Hdata Htail Hany] Hc.
  simpl in *. unfold copy_cond in Hc. simpl in Hc.
  apply andb_true_iff in Hc as [Hc1 Hc2].
  apply Z.ltb_lt in Hc1. apply Z.ltb_lt in Hc2.
  destruct (frames p) as [|first rest] eqn:Hf; [unfold len in Hc2; simpl in Hc2; lia|].
  split; [simpl; lia|].
  pose proof (queue_ok_range _ _ _ Hq Hf) as Ho.
  assert (len (output l) = len out0) as Hlen' by (unfold len; congruence).

  set (o := offsetInFirstBuffer p) in *.
  set (n := Z.min (len first - o) (len (output l) - out_idx l)).
  assert (0 <= n) as Hn by lia.
  rewrite subarray_inside by lia.
  set (sub := firstn (Z.to_nat n) (skipn (Z.to_nat o) first)).
  assert (length sub = Z.to_nat n) as Hsub.
  { apply length_firstn_skipn. unfold len in *. lia. }
  assert (Z.to_nat (out_idx l) + length sub <= length (output l))%nat as Hfit.
  { unfold len in *. lia. }
  rewrite typed_set_ok by (unfold len in *; lia). simpl bind.
  set (out' := firstn (Z.to_nat (out_idx l)) (output l) ++ sub
               ++ skipn (Z.to_nat (out_idx l) + length sub) (output l)).
  assert (Z.to_nat (out_idx l + n) = (Z.to_nat (out_idx l) + length sub)%nat) as Hix
    by lia.
  assert (queued p = sub ++ skipn (Z.to_nat (o + n)) first ++ concat rest) as Hqd.
  { rewrite (queued_cons _ _ _ Hf Ho). fold o.
    rewrite (skipn_split first (Z.to_nat o) (Z.to_nat n)). fold sub.
    rewrite <- app_assoc. do 3 f_equal. lia. }
  assert (existsb audible out0 = false ->
          existsb audible out'
          = existsb audible (firstn (Z.to_nat (out_idx l)) (output l))
            || existsb audible sub) as Haud.
  { intros Hs. unfold out'. rewrite !existsb_app.
    replace (skipn (Z.to_nat (out_idx l) + length sub) (output l))
      with (skipn (length sub) (skipn (Z.to_nat (out_idx l)) out0)).
    - rewrite (existsb_skipn _ _ _ (existsb_skipn _ _ (Z.to_nat (out_idx l)) Hs)).
      rewrite orb_false_r. reflexivity.
    - rewrite <- Htail, skipn_skipn. f_equal. lia. }
  destruct Hshape as (fs & o0 & Hp).
  simpl offsetInFirstBuffer.
  destruct (Z.eqb_spec (o + n) (len first)) as [Heq|Hne].
  - eexists. split; [reflexivity|]. split.
    + split; simpl fst; simpl snd; simpl out_idx; simpl output; simpl anyAudio.
      * exists rest, 0. rewrite Hp. reflexivity.
      * apply queue_ok_shift.
      * lia.
      * unfold out'. rewrite splice_length; assumption.
      * rewrite Hix. unfold out'. rewrite splice_firstn by assumption.
        rewrite <- Hdata, Hqd, <- app_assoc. do 2 f_equal.
        unfold queued. simpl.
        rewrite skipn_all2 by (unfold len in *; lia). reflexivity.
      * rewrite Hix. unfold out'. rewrite splice_skipn by assumption.
        rewrite !skipn_add, Htail. reflexivity.
      * intros Hs. rewrite Hix. unfold out' at 2.
        rewrite splice_firstn by assumption.
        rewrite existsb_app, Haud, Hany by assumption.
        destruct (existsb audible (firstn (Z.to_nat (out_idx l)) (output l)));
          reflexivity.
    + simpl. lia.
  - eexists. split; [reflexivity|]. split.
    + split; simpl fst; simpl snd; simpl out_idx; simpl output; simpl anyAudio.
      * exists (first :: rest), (o + n). rewrite Hp. simpl.
        unfold set_frames, set_offsetInFirstBuffer. simpl.
        rewrite Hp in Hf. simpl in Hf. rewrite Hf. reflexivity.
      * unfold queue_ok. simpl. rewrite Hf. lia.
      * lia.
      * unfold out'. rewrite splice_length; assumption.
      * rewrite Hix. unfold out'. rewrite splice_firstn by assumption.
        rewrite <- Hdata, Hqd, <- app_assoc. do 2 f_equal.
        rewrite (queued_cons (set_offsetInFirstBuffer (o + n) p) first rest);
          [reflexivity | assumption | simpl; lia].
      * rewrite Hix. unfold out'. rewrite splice_skipn by assumption.
        rewrite !skipn_add, Htail. reflexivity.
      * intros Hs. rewrite Hix. unfold out' at 2.
        rewrite splice_firstn by assumption.
        rewrite existsb_app, Haud, Hany by assumption.
        destruct (existsb audible (firstn (Z.to_nat (out_idx l)) (output l)));
          reflexivity.
    + unfold copy_cond. simpl. intros Hc.
      apply andb_true_iff in Hc as [Hc _]. apply Z.ltb_lt in Hc.
      assert (len out' = len (output l)) as Hl'.
      { unfold len, out'. rewrite splice_length; [reflexivity|assumption]. }
      lia.
Qed.

Lemma copy_loop_spec p out :
  queue_ok p ->
  exists s', copy_loop p out = Ok s' /\ copy_inv p out s' /\ copy_cond s' = false.
Proof.
  intros Hq. unfold copy_loop.
  apply (while_rule (copy_inv p out) (fun s => length (frames (fst s)))).
  - apply copy_body_step.
  - apply copy_inv_init, Hq.
  - simpl. lia.
Qed.

End Copy.

Section Trim.

Variable sampleRate : Z.

Hypothesis rate_nonneg : 0 <= sampleRate.

Lemma asSamples_mono a b : a <= b -> asSamples sampleRate a <= asSamples sampleRate b.
Proof. intros H. unfold asSamples. apply Z.div_le_mono; nia. Qed.

Lemma asSamples_nonneg a : 0 <= a -> 0 <= asSamples sampleRate a.
Proof. intros H. unfold asSamples. apply Z.div_pos; nia. Qed.

Lemma initialBufferSamples_nonneg : 0 <= initialBufferSamples sampleRate.
Proof.
  unfold initialBufferSamples, frameSize.
  pose proof (asSamples_nonneg 80). lia.
Qed.

Lemma currentSamples_cons p first rest :
  frames p = first :: rest ->
  currentSamples p = len first + total_length rest - offsetInFirstBuffer p.
Proof. intros Hf. unfold currentSamples. rewrite Hf. reflexivity. Qed.

Lemma trim_body_step p0 p :
  0 <= partialBufferSamples p0 ->
  trim_inv sampleRate p0 p -> trim_cond sampleRate p = true ->
  (0 < length (frames p))%nat /\
  exists p',
    trim_body sampleRate
      (initialBufferSamples sampleRate + partialBufferSamples p0) p = Ok p' /\
    trim_inv sampleRate p0 p' /\
    (trim_cond sampleRate p' = true -> (length (frames p') < length (frames p))%nat).
Proof.
  intros Hpart [Hshape Hq Hfloor [dropped Hdata]] Hc.
  pose proof initialBufferSamples_nonneg as Hinit.
  destruct Hshape as (fs & o0 & t0 & Hp).
  assert (partialBufferSamples p = partialBufferSamples p0) as Hpp
    by (rewrite Hp; reflexivity).
  unfold trim_cond in Hc. rewrite Hpp in Hc. apply Z.ltb_lt in Hc.
  destruct (frames p) as [|first rest] eqn:Hf.
  { exfalso. unfold currentSamples, queue_ok in *. rewrite Hf in *.
    simpl in Hc. lia. }
  split; [simpl; lia|].
  pose proof (queue_ok_range _ _ _ Hq Hf) as Ho.
  pose proof (currentSamples_cons _ _ _ Hf) as Hcur.
  pose proof (total_length_nonneg rest) as Hrest.
  clear Hq.
  unfold trim_body. rewrite Hf. cbv zeta.
  remember (initialBufferSamples sampleRate + partialBufferSamples p0)
    as target eqn:Etarget.
  remember (offsetInFirstBuffer p) as o eqn:Eo.
  remember (Z.min (len first - o) (currentSamples p - target)) as n eqn:En.
  assert (0 <= n /\ n <= len first - o /\ n <= currentSamples p - target /\
          (n = len first - o \/ n = currentSamples p - target)) as Hn
    by (clear - Hc Ho En; lia).
  clear En.
  assert (queued p = firstn (Z.to_nat n) (skipn (Z.to_nat o) first)
                     ++ skipn (Z.to_nat (o + n)) first ++ concat rest) as Hqd.
  { rewrite (queued_cons p first rest Hf) by lia. rewrite <- Eo.
    rewrite (skipn_split first (Z.to_nat o) (Z.to_nat n)) at 1.
    rewrite <- app_assoc. do 3 f_equal. lia. }
  cbv zeta. simpl offsetInFirstBuffer.
  destruct (Z.eqb_spec (o + n) (len first)) as [Heq|Hne].
  - eexists. split; [reflexivity|]. split.
    + split.
      * exists rest, 0. eexists. rewrite Hp. reflexivity.
      * unfold queue_ok. simpl. destruct rest as [|f r]; [reflexivity|].
        pose proof (len_nonneg f). lia.
      * unfold currentSamples. simpl. lia.
      * exists (dropped ++ firstn (Z.to_nat n) (skipn (Z.to_nat o) first)).
        rewrite Hdata, Hqd, <- app_assoc. do 2 f_equal.
        unfold queued. simpl.
        rewrite skipn_all2 by (unfold len in *; lia). reflexivity.
    + simpl. lia.
  - eexists. split; [reflexivity|]. split.
    + split.
      * exists (first :: rest), (o + n). eexists. rewrite Hp.
        unfold set_timeInStream, set_offsetInFirstBuffer, set_frames. simpl.
        rewrite Hp in Hf. simpl in Hf. rewrite Hf. reflexivity.
      * unfold queue_ok. simpl. rewrite Hf. lia.
      * unfold currentSamples. simpl. rewrite Hf. simpl. lia.
      * exists (dropped ++ firstn (Z.to_nat n) (skipn (Z.to_nat o) first)).
        rewrite Hdata, Hqd, <- app_assoc. do 2 f_equal.
        rewrite (queued_cons (set_timeInStream _ (set_offsetInFirstBuffer (o + n) p))
                             first rest);
          [reflexivity | assumption | simpl; lia].
    + unfold trim_cond, currentSamples. simpl. rewrite Hf. simpl.
      intros Hc'. apply Z.ltb_lt in Hc'. lia.
Qed.

Lemma trim_spec p :
  queue_ok p -> 0 <= partialBufferSamples p ->
  initialBufferSamples sampleRate + partialBufferSamples p <= currentSamples p ->
  exists p', trim sampleRate p = Ok p' /\ trim_inv sampleRate p p'
             /\ currentSamples p'
                = initialBufferSamples sampleRate + partialBufferSamples p.
Proof.
  intros Hq Hpart Hfloor. unfold trim.
  destruct (while_rule (trim_inv sampleRate p) (fun q => length (frames q))
              (trim_cond sampleRate)
              (trim_body sampleRate
                 (initialBufferSamples sampleRate + partialBufferSamples p)))
    with (fuel := S (length (frames p))) (s := p) as (p' & Hw & Hi & Hc).
  - intros q Hi Hc. apply trim_body_step; assumption.
  - split; auto.
    + exists (frames p), (offsetInFirstBuffer p), (timeInStream p).
      destruct p; reflexivity.
    + exists []. reflexivity.
  - lia.
  - exists p'. split; [assumption|]. split; [assumption|].
    destruct Hi as [(fs & o & t & Hp) _ Hfl _].
    unfold trim_cond in Hc. apply Z.ltb_ge in Hc.
    replace (partialBufferSamples p') with (partialBufferSamples p) in Hc
      by (rewrite Hp; reflexivity).
    lia.
Qed.

End Trim.

Section Frames.

Variable sampleRate : Z.

Hypothesis rate_nonneg : 0 <= sampleRate.

Lemma queue_ok_bound p :
  queue_ok p -> 0 <= offsetInFirstBuffer p <= len (concat (frames p)).
Proof.
  unfold queue_ok. destruct (frames p) as [|f r].
  - intros ->. unfold len. simpl. lia.
  - simpl concat. rewrite len_app.
    pose proof (len_nonneg (concat r)). lia.
Qed.

Lemma queue_ok_enqueue f p : queue_ok p -> queue_ok (enqueue f p).
Proof.
  unfold queue_ok, enqueue. simpl. destruct (frames p) as [|g r]; simpl.
  - intros ->. pose proof (len_nonneg f). lia.
  - auto.
Qed.

Lemma queued_enqueue f p : queue_ok p -> queued (enqueue f p) = queued p ++ f.
Proof.
  intros Hq. apply queue_ok_bound in Hq. unfold queued, enqueue. simpl.
  rewrite concat_app. simpl. rewrite app_nil_r, skipn_app.
  replace (Z.to_nat (offsetInFirstBuffer p) - length (concat (frames p)))%nat
    with 0%nat by (unfold len in Hq; lia).
  reflexivity.
Qed.

Lemma currentSamples_enqueue f p :
  currentSamples (enqueue f p) = currentSamples p + len f.
Proof.
  unfold currentSamples, enqueue. simpl. rewrite total_length_app. simpl. lia.
Qed.

Lemma currentSamples_nonneg p : queue_ok p -> 0 <= currentSamples p.
Proof.
  intros Hq. rewrite (currentSamples_queued _ Hq). apply len_nonneg.
Qed.

Lemma prepared_frames q : frames (prepared sampleRate q) = frames q.
Proof.
  unfold prepared, count_packet, start_check, start.
  destruct (_ && _); destruct (_ <? 20); reflexivity.
Qed.

Lemma prepared_offset q :
  offsetInFirstBuffer (prepared sampleRate q) = offsetInFirstBuffer q.
Proof.
  unfold prepared, count_packet, start_check, start.
  destruct (_ && _); destruct (_ <? 20); reflexivity.
Qed.

Lemma prepared_partial q :
  partialBufferSamples (prepared sampleRate q) = partialBufferSamples q.
Proof.
  unfold prepared, count_packet, start_check, start.
  destruct (_ && _); destruct (_ <? 20); reflexivity.
Qed.

Lemma prepared_max q : maxBufferSamples (prepared sampleRate q) = maxBufferSamples q.
Proof.
  unfold prepared, count_packet, start_check, start.
  destruct (_ && _); destruct (_ <? 20); reflexivity.
Qed.

Lemma prepared_port q : port (prepared sampleRate q) = port q.
Proof.
  unfold prepared, count_packet, start_check, start.
  destruct (_ && _); destruct (_ <? 20); reflexivity.
Qed.

Lemma prepared_started q :
  started (prepared sampleRate q)
  = started q || (initialBufferSamples sampleRate <=? currentSamples q).
Proof.
  unfold prepared, count_packet, start_check, start.
  destruct (initialBufferSamples sampleRate <=? currentSamples q);
    destruct (started q) eqn:E; simpl;
    destruct (_ <? 20); simpl; rewrite ?E; reflexivity.
Qed.

Lemma prepared_currentSamples q :
  currentSamples (prepared sampleRate q) = currentSamples q.
Proof. unfold currentSamples. rewrite prepared_frames, prepared_offset. reflexivity. Qed.

Lemma prepared_queued q : queued (prepared sampleRate q) = queued q.
Proof. unfold queued. rewrite prepared_frames, prepared_offset. reflexivity. Qed.

Lemma prepared_queue_ok q : queue_ok q -> queue_ok (prepared sampleRate q).
Proof. unfold queue_ok. rewrite prepared_frames, prepared_offset. auto. Qed.

Lemma prepared_overflowing q :
  overflowing sampleRate (prepared sampleRate q) = overflowing sampleRate q.
Proof.
  unfold overflowing, totalMaxBufferSamples.
  rewrite prepared_currentSamples, prepared_partial, prepared_max. reflexivity.
Qed.

(** [processFrame] when the overflow policy does not trigger. *)
Lemma processFrame_calm q f :
  overflowing sampleRate q = false ->
  processFrame sampleRate q f
  = Ok (postMessage (report sampleRate (prepared sampleRate q)) (prepared sampleRate q)).
Proof.
  intros Hov. unfold processFrame. fold (prepared sampleRate q).
  rewrite prepared_overflowing, Hov. reflexivity.
Qed.

(** [processFrame] when the overflow policy triggers. *)
Lemma processFrame_overflow q f :
  queue_ok q -> 0 <= partialBufferSamples q -> 0 <= maxBufferSamples q ->
  overflowing sampleRate q = true ->
  exists fs o t,
    processFrame sampleRate q f = Ok (trimmed sampleRate q fs o t) /\
    queue_ok (trimmed sampleRate q fs o t) /\
    currentSamples (trimmed sampleRate q fs o t)
    = initialBufferSamples sampleRate + partialBufferSamples q /\
    exists dropped, queued q = dropped ++ queued (trimmed sampleRate q fs o t).
Proof.
  intros Hq Hpart Hmax Hov.
  unfold overflowing, totalMaxBufferSamples in Hov. apply Z.leb_le in Hov.
  destruct (trim_spec sampleRate rate_nonneg (prepared sampleRate q))
    as (p' & Ht & Hi & Hcur).
  - apply prepared_queue_ok, Hq.
  - rewrite prepared_partial. assumption.
  - rewrite prepared_partial, prepared_currentSamples. lia.
  - destruct Hi as [(fs & o & t & Hp) Hq' _ [dropped Hd]].
    exists fs, o, t. unfold processFrame. fold (prepared sampleRate q).
    rewrite prepared_overflowing.
    unfold overflowing, totalMaxBufferSamples.
    destruct (Z.leb_spec (maxBufferSamples q + partialBufferSamples q + initialBufferSamples sampleRate)
                         (currentSamples q)) as [_|]; [|lia].
    rewrite Ht. simpl bind. rewrite Hp. split; [reflexivity|].
    rewrite Hp in Hq', Hcur, Hd. rewrite prepared_partial in Hcur.
    rewrite prepared_queued in Hd.
    split; [exact Hq'|]. split; [exact Hcur|]. exists dropped. exact Hd.
Qed.

End Frames.

Section Ticks.

Variable sampleRate : Z.

Hypothesis rate_nonneg : 0 <= sampleRate.

Lemma trimmed_partial q fs o t :
  partialBufferSamples (trimmed sampleRate q fs o t) = partialBufferSamples q.
Proof. unfold trimmed. cbn -[prepared]. apply prepared_partial. Qed.

Lemma trimmed_max q fs o t :
  maxBufferSamples (trimmed sampleRate q fs o t)
  = Z.min (maxMaxBufferWithIncrements sampleRate)
          (maxBufferSamples q + maxBufferSamplesIncrement sampleRate).
Proof. unfold trimmed. cbn -[prepared Z.min]. rewrite prepared_max. reflexivity. Qed.

Lemma trimmed_started q fs o t :
  started (trimmed sampleRate q fs o t)
  = started q || (initialBufferSamples sampleRate <=? currentSamples q).
Proof. unfold trimmed. cbn -[prepared]. apply prepared_started. Qed.

Lemma trimmed_port q fs o t :
  port (trimmed sampleRate q fs o t)
  = port q ++ [report sampleRate (trimmed sampleRate q fs o t)].
Proof. unfold trimmed. cbn -[prepared Z.min]. rewrite prepared_port. reflexivity. Qed.

Lemma canPlay_note_delay p :
  canPlay (note_delay sampleRate p) = canPlay p.
Proof. unfold note_delay. destruct (canPlay p) eqn:E; [exact E | exact E]. Qed.

Lemma note_delay_idle p : canPlay p = false -> note_delay sampleRate p = p.
Proof. intros E. unfold note_delay. rewrite E. reflexivity. Qed.

Lemma note_delay_queue_ok p : queue_ok p -> queue_ok (note_delay sampleRate p).
Proof. unfold note_delay. destruct (canPlay p); auto. Qed.

Lemma note_delay_queued p : queued (note_delay sampleRate p) = queued p.
Proof. unfold note_delay. destruct (canPlay p); reflexivity. Qed.

(** A tick that cannot play takes the early return. *)
Lemma process_idle p out :
  canPlay p = false ->
  process sampleRate p out = Ok (idle sampleRate p out, out).
Proof.
  intros E. unfold process. rewrite canPlay_note_delay, E. simpl.
  rewrite note_delay_idle by assumption. reflexivity.
Qed.

(** A tick that can play runs the copy loop to its end. *)
Lemma process_playing p out :
  queue_ok p -> canPlay p = true ->
  exists s,
    copy_loop (note_delay sampleRate p) out = Ok s /\
    copy_inv (note_delay sampleRate p) out s /\
    copy_cond s = false /\
    process sampleRate p out = Ok (finish sampleRate s).
Proof.
  intros Hq E.
  destruct (copy_loop_spec (note_delay sampleRate p) out) as (s & Hl & Hi & Hc).
  - apply note_delay_queue_ok, Hq.
  - exists s. split; [assumption|]. split; [assumption|]. split; [assumption|].
    unfold process. rewrite canPlay_note_delay, E. simpl. rewrite Hl. reflexivity.
Qed.

Lemma finish_frames s :
  frames (fst (finish sampleRate s)) = frames (fst s).
Proof.
  destruct s as [p l]. unfold finish.
  destruct (firstOut p); destruct (_ && _); reflexivity.
Qed.

Lemma finish_offset s :
  offsetInFirstBuffer (fst (finish sampleRate s)) = offsetInFirstBuffer (fst s).
Proof.
  destruct s as [p l]. unfold finish.
  destruct (firstOut p); destruct (_ && _); reflexivity.
Qed.

Lemma finish_max s :
  maxBufferSamples (fst (finish sampleRate s)) = maxBufferSamples (fst s).
Proof.
  destruct s as [p l]. unfold finish.
  destruct (firstOut p); destruct (_ && _); reflexivity.
Qed.

Lemma finish_port s : port (fst (finish sampleRate s)) = port (fst s).
Proof.
  destruct s as [p l]. unfold finish.
  destruct (firstOut p); destruct (_ && _); reflexivity.
Qed.

Lemma mapi_from_length {A : Type} (f : Z -> A -> A) (a : list A) (k : Z) :
  length (mapi_from k f a) = length a.
Proof. revert k; induction a as [|x a IH]; intros k; simpl; auto. Qed.

Lemma fade_in_length n out : length (fade_in n out) = length out.
Proof. apply mapi_from_length. Qed.

Lemma fade_out_length n out : length (fade_out n out) = length out.
Proof. apply mapi_from_length. Qed.

Lemma finish_partial s :
  partialBufferSamples (fst (finish sampleRate s))
  = if underrun (snd s)
    then Z.min (partialBufferSamples (fst s) + partialBufferIncrement sampleRate)
               (maxPartialWithIncrements sampleRate)
    else partialBufferSamples (fst s).
Proof.
  destruct s as [p l]. unfold finish, underrun. simpl snd. simpl fst.
  destruct (firstOut p).
  - replace (len (fade_in (out_idx l) (output l))) with (len (output l))
      by (unfold len; rewrite fade_in_length; reflexivity).
    destruct (_ && _); reflexivity.
  - destruct (_ && _); reflexivity.
Qed.

Lemma finish_started s :
  started (fst (finish sampleRate s))
  = if underrun (snd s) then false else started (fst s).
Proof.
  destruct s as [p l]. unfold finish, underrun. simpl snd. simpl fst.
  destruct (firstOut p).
  - replace (len (fade_in (out_idx l) (output l))) with (len (output l))
      by (unfold len; rewrite fade_in_length; reflexivity).
    destruct (_ && _); reflexivity.
  - destruct (_ && _); reflexivity.
Qed.

Lemma finish_output s :
  snd (finish sampleRate s)
  = let out := if firstOut (fst s)
               then fade_in (out_idx (snd s)) (output (snd s))
               else output (snd s) in
    if underrun (snd s) then fade_out (out_idx (snd s)) out else out.
Proof.
  destruct s as [p l]. unfold finish, underrun. simpl snd. simpl fst.
  destruct (firstOut p).
  - replace (len (fade_in (out_idx l) (output l))) with (len (output l))
      by (unfold len; rewrite fade_in_length; reflexivity).
    destruct (_ && _); reflexivity.
  - destruct (_ && _); reflexivity.
Qed.

Lemma params_ok_init p : params_ok sampleRate (initState sampleRate p).
Proof.
  unfold params_ok, maxPartialWithIncrements, initState.
  cbn [partialBufferSamples maxBufferSamples].
  pose proof (asSamples_mono sampleRate rate_nonneg 10 6000).
  pose proof (asSamples_nonneg sampleRate rate_nonneg DEFAULT_MAX_BUFFER_MS).
  unfold DEFAULT_MAX_BUFFER_MS in *. lia.
Qed.

Lemma well_formed_init p : well_formed sampleRate (initState sampleRate p).
Proof. split; [reflexivity | apply params_ok_init]. Qed.

Lemma params_ok_nonneg p :
  params_ok sampleRate p -> 0 <= partialBufferSamples p /\ 0 <= maxBufferSamples p.
Proof.
  unfold params_ok. pose proof (asSamples_nonneg sampleRate rate_nonneg 10). lia.
Qed.

(** Every message leaves a well-formed processor well formed, and never
    throws. *)
Lemma onmessage_ok p m :
  well_formed sampleRate p ->
  exists p', onmessage sampleRate p m = Ok p' /\ well_formed sampleRate p'.
Proof.
  intros [Hq Hp]. destruct m as [|f|]; simpl.
  - eexists. split; [reflexivity | apply well_formed_init].
  - fold (enqueue f p).
    pose proof (queue_ok_enqueue f p Hq) as Hq1.
    destruct (params_ok_nonneg p Hp) as [Hp1 Hp2].
    destruct (overflowing sampleRate (enqueue f p)) eqn:Hov.
    + destruct (processFrame_overflow sampleRate rate_nonneg (enqueue f p) f)
        as (fs & o & t & Hpf & Hq2 & _); auto.
      rewrite Hpf. eexists. split; [reflexivity|]. split; [exact Hq2|].
      unfold params_ok in *. rewrite trimmed_partial, trimmed_max.
      cbn [partialBufferSamples maxBufferSamples enqueue set_frames].
      pose proof (asSamples_nonneg sampleRate rate_nonneg 6000).
      pose proof (asSamples_nonneg sampleRate rate_nonneg 500).
      unfold maxMaxBufferWithIncrements, maxBufferSamplesIncrement. lia.
    + rewrite processFrame_calm by assumption.
      eexists. split; [reflexivity|]. split.
      * exact (prepared_queue_ok sampleRate _ Hq1).
      * unfold params_ok in *.
        cbn [partialBufferSamples maxBufferSamples postMessage].
        rewrite (prepared_partial sampleRate), (prepared_max sampleRate). exact Hp.
  - eexists. split; [reflexivity | split; assumption].
Qed.

(** Every render tick leaves a well-formed processor well formed, and never
    throws. *)
Lemma process_ok p out :
  well_formed sampleRate p ->
  exists r, process sampleRate p out = Ok r /\ well_formed sampleRate (fst r).
Proof.
  intros [Hq Hp]. destruct (canPlay p) eqn:E.
  - destruct (process_playing p out Hq E) as (s & _ & Hi & _ & Hpr).
    exists (finish sampleRate s). split; [assumption|].
    destruct Hi as [(fs & o & Hs) Hq' _ _ _ _ _]. split.
    + unfold queue_ok. rewrite finish_frames, finish_offset. exact Hq'.
    + unfold params_ok. rewrite finish_partial, finish_max, Hs.
      replace (partialBufferSamples (set_frames fs (set_offsetInFirstBuffer o (note_delay sampleRate p))))
        with (partialBufferSamples p)
        by (unfold note_delay; destruct (canPlay p); reflexivity).
      replace (maxBufferSamples (set_frames fs (set_offsetInFirstBuffer o (note_delay sampleRate p))))
        with (maxBufferSamples p)
        by (unfold note_delay; destruct (canPlay p); reflexivity).
      unfold params_ok in Hp.
      pose proof (asSamples_nonneg sampleRate rate_nonneg 500).
      unfold partialBufferIncrement. destruct (underrun (snd s)); lia.
  - rewrite process_idle by assumption. eexists. split; [reflexivity|].
    simpl. unfold idle. destruct (0 <? actualAudioPlayed p)%float; split; assumption.
Qed.

Lemma step_ok p e :
  well_formed sampleRate p ->
  exists p', step sampleRate p e = Ok p' /\ well_formed sampleRate p'.
Proof.
  intros Hw. destruct e as [m|out]; simpl.
  - apply onmessage_ok, Hw.
  - destruct (process_ok p out Hw) as (r & Hr & Hw'). rewrite Hr.
    exists (fst r). split; [reflexivity | assumption].
Qed.

Lemma run_ok es : forall p,
  well_formed sampleRate p ->
  exists p', run sampleRate p es = Ok p' /\ well_formed sampleRate p'.
Proof.
  induction es as [|e es IH]; intros p Hw; simpl.
  - exists p. auto.
  - destruct (step_ok p e Hw) as (p1 & Hs & Hw1). rewrite Hs. simpl.
    apply IH, Hw1.
Qed.

Lemma reachable_well_formed p :
  reachable sampleRate p -> well_formed sampleRate p.
Proof.
  intros [es Hr].
  destruct (run_ok es (constructor sampleRate)) as (p' & Hr' & Hw).
  - apply well_formed_init.
  - congruence.
Qed.

End Ticks.

Section TickView.

Variable sampleRate : Z.

Lemma mapi_from_nth {A : Type} (f : Z -> A -> A) (d : A) (a : list A) :
  forall (k : Z) (i : nat), (i < length a)%nat ->
  nth i (mapi_from k f a) d = f (k + Z.of_nat i) (nth i a d).
Proof.
  induction a as [|x a IH]; intros k i Hi; simpl in Hi; [lia|].
  destruct i as [|i]; simpl.
  - f_equal. lia.
  - rewrite IH by lia. f_equal. lia.
Qed.

Lemma fade_out_nth n out i :
  0 <= i < n -> i < len out ->
  nth (Z.to_nat i) (fade_out n out) 0%float
  = fround (nth (Z.to_nat i) out 0%float * (of_Z (n - i) / of_Z n))%float.
Proof.
  intros Hi Hl. unfold fade_out. rewrite mapi_from_nth by (unfold len in Hl; lia).
  replace (0 + Z.of_nat (Z.to_nat i)) with i by lia.
  destruct (Z.ltb_spec i n); [reflexivity | lia].
Qed.

Lemma fade_in_nth n out i :
  0 <= i < n -> i < len out ->
  nth (Z.to_nat i) (fade_in n out) 0%float
  = fround (nth (Z.to_nat i) out 0%float * (of_Z i / of_Z n))%float.
Proof.
  intros Hi Hl. unfold fade_in. rewrite mapi_from_nth by (unfold len in Hl; lia).
  replace (0 + Z.of_nat (Z.to_nat i)) with i by lia.
  destruct (Z.ltb_spec i n); [reflexivity | lia].
Qed.

Lemma tick_view_exists p out :
  queue_ok p -> canPlay p = true -> exists s, tick_view sampleRate p out s.
Proof.
  intros Hq E.
  destruct (process_playing sampleRate p out Hq E) as (s & Hl & Hi & Hc & Hp).
  exists s.
  destruct Hi as [Hshape Hq' Hidx Hlen Hdata Htail Hany].
  assert (taken sampleRate p out
          = firstn (Z.to_nat (out_idx (snd s))) (output (snd s))) as Ht.
  { unfold taken. rewrite E, Hl. destruct s. reflexivity. }
  assert (len (output (snd s)) = len out) as Hlen' by (unfold len; congruence).
  split; try assumption.
  - rewrite Ht. unfold len. rewrite length_firstn. unfold len in *. lia.
  - rewrite Ht, <- Htail. symmetry. apply firstn_skipn.
  - rewrite Ht, Hdata. symmetry. apply note_delay_queued.
  - rewrite Ht. exact Hany.
  - intros Hlt. unfold copy_cond in Hc. rewrite Hlen' in Hc.
    destruct (Z.ltb_spec (out_idx (snd s)) (len out)); [|lia].
    simpl in Hc. apply Z.ltb_ge in Hc. apply len_zero_nil.
    pose proof (len_nonneg (frames (fst s))). lia.
Qed.

Lemma shape_partial p fs o :
  partialBufferSamples
    (set_frames fs (set_offsetInFirstBuffer o (note_delay sampleRate p)))
  = partialBufferSamples p.
Proof. unfold note_delay. destruct (canPlay p); reflexivity. Qed.

Lemma shape_firstOut p fs o :
  firstOut (set_frames fs (set_offsetInFirstBuffer o (note_delay sampleRate p)))
  = firstOut p.
Proof. unfold note_delay. destruct (canPlay p); reflexivity. Qed.

Lemma shape_started p fs o :
  started (set_frames fs (set_offsetInFirstBuffer o (note_delay sampleRate p)))
  = started p.
Proof. unfold note_delay. destruct (canPlay p); reflexivity. Qed.

Lemma shape_max p fs o :
  maxBufferSamples
    (set_frames fs (set_offsetInFirstBuffer o (note_delay sampleRate p)))
  = maxBufferSamples p.
Proof. unfold note_delay. destruct (canPlay p); reflexivity. Qed.

Lemma shape_port p fs o :
  port (set_frames fs (set_offsetInFirstBuffer o (note_delay sampleRate p)))
  = port p.
Proof. unfold note_delay. destruct (canPlay p); reflexivity. Qed.

(** The tick that can play, in one statement: the result of [process] with
    the underrun branch decided by the samples taken. *)
Lemma process_taken p out :
  queue_ok p -> canPlay p = true -> existsb audible out = false ->
  exists p' out',
    process sampleRate p out = Ok (p', out') /\
    queued p = taken sampleRate p out ++ queued p' /\
    let n := len (taken sampleRate p out) in
    let adapt := (n <? len out) && negb (existsb audible (taken sampleRate p out)) in
    let copied := taken sampleRate p out ++ skipn (Z.to_nat n) out in
    let faded := if firstOut p then fade_in n copied else copied in
    started p' = (if adapt then false else started p) /\
    partialBufferSamples p'
    = (if adapt
       then Z.min (partialBufferSamples p + partialBufferIncrement sampleRate)
                  (maxPartialWithIncrements sampleRate)
       else partialBufferSamples p) /\
    out' = (if adapt then fade_out n faded else faded).
Proof.
  intros Hq E Hs.
  destruct (tick_view_exists p out Hq E) as (s & V).
  destruct V as [Hl Hp (fs & o & Hshape) Hq' Ht Hidx Hlen Hout Hdata Hany Hend].
  exists (fst (finish sampleRate s)), (snd (finish sampleRate s)).
  split; [rewrite Hp; destruct (finish sampleRate s); reflexivity|].
  split.
  { rewrite Hdata. f_equal. unfold queued.
    rewrite finish_frames, finish_offset. reflexivity. }
  cbv zeta.
  assert (underrun (snd s)
          = (len (taken sampleRate p out) <? len out)
            && negb (existsb audible (taken sampleRate p out))) as Hu.
  { unfold underrun. rewrite Hlen, Hidx, <- Hany by assumption. reflexivity. }
  rewrite finish_started, finish_partial, finish_output, Hu. cbv zeta.
  rewrite Hshape, shape_started, shape_partial, shape_firstOut.
  rewrite <- Hidx, <- Hout. auto.
Qed.

End TickView.

Section Push.

Variable sampleRate : Z.

Lemma prepared_remaining q :
  remainingPartialBufferSamples (prepared sampleRate q)
  = if (initialBufferSamples sampleRate <=? currentSamples q) && negb (started q)
    then partialBufferSamples q else remainingPartialBufferSamples q.
Proof.
  unfold prepared, count_packet, start_check, start.
  destruct (_ && _); destruct (_ <? 20); reflexivity.
Qed.

Lemma prepared_firstOut q :
  firstOut (prepared sampleRate q)
  = if (initialBufferSamples sampleRate <=? currentSamples q) && negb (started q)
    then true else firstOut q.
Proof.
  unfold prepared, count_packet, start_check, start.
  destruct (_ && _); destruct (_ <? 20); reflexivity.
Qed.

Lemma trimmed_remaining q fs o t :
  remainingPartialBufferSamples (trimmed sampleRate q fs o t)
  = remainingPartialBufferSamples (prepared sampleRate q).
Proof. reflexivity. Qed.

Lemma trimmed_firstOut q fs o t :
  firstOut (trimmed sampleRate q fs o t) = firstOut (prepared sampleRate q).
Proof. reflexivity. Qed.

Hypothesis rate_nonneg : 0 <= sampleRate.

(** A push, in one statement: the result of [onmessage] on an audio
    message, with the overflow branch decided on the queue just after
    [frames.push]. *)
Lemma push_spec p f :
  well_formed sampleRate p ->
  exists p',
    onmessage sampleRate p (MsgAudio f) = Ok p' /\
    well_formed sampleRate p' /\
    started p'
    = started p || (initialBufferSamples sampleRate <=? currentSamples p + len f) /\
    remainingPartialBufferSamples p'
    = (if (initialBufferSamples sampleRate <=? currentSamples p + len f)
          && negb (started p)
       then partialBufferSamples p else remainingPartialBufferSamples p) /\
    firstOut p'
    = (if (initialBufferSamples sampleRate <=? currentSamples p + len f)
          && negb (started p)
       then true else firstOut p) /\
    partialBufferSamples p' = partialBufferSamples p /\
    port p' = port p ++ [report sampleRate p'] /\
    if overflowing sampleRate (enqueue f p)
    then currentSamples p'
         = initialBufferSamples sampleRate + partialBufferSamples p /\
         maxBufferSamples p'
         = Z.min (maxMaxBufferWithIncrements sampleRate)
                 (maxBufferSamples p + maxBufferSamplesIncrement sampleRate) /\
         exists dropped, queued p ++ f = dropped ++ queued p'
    else currentSamples p' = currentSamples p + len f /\
         maxBufferSamples p' = maxBufferSamples p /\
         queued p' = queued p ++ f.
Proof.
  intros [Hq Hp]. simpl. fold (enqueue f p).
  pose proof (queue_ok_enqueue f p Hq) as Hq1.
  destruct (params_ok_nonneg sampleRate rate_nonneg p Hp) as [Hp1 Hp2].
  rewrite <- (currentSamples_enqueue f p), <- (queued_enqueue f p Hq).
  destruct (overflowing sampleRate (enqueue f p)) eqn:Hov.
  - destruct (processFrame_overflow sampleRate rate_nonneg (enqueue f p) f)
      as (fs & o & t & Hpf & Hq2 & Hcur & Hdrop); auto.
    destruct (onmessage_ok sampleRate rate_nonneg p (MsgAudio f) (conj Hq Hp))
      as (p2 & Hp2' & Hw2).
    simpl in Hp2'. fold (enqueue f p) in Hp2'. rewrite Hpf in Hp2'.
    injection Hp2' as <-.
    rewrite Hpf. eexists. split; [reflexivity|].
    split; [exact Hw2|].
    rewrite trimmed_started, trimmed_remaining, trimmed_firstOut,
      trimmed_partial, trimmed_max, trimmed_port,
      prepared_remaining, prepared_firstOut.
    repeat (split; [reflexivity|]).
    split; [exact Hcur|]. split; [reflexivity | exact Hdrop].
  - destruct (onmessage_ok sampleRate rate_nonneg p (MsgAudio f) (conj Hq Hp))
      as (p2 & Hp2' & Hw2).
    simpl in Hp2'. fold (enqueue f p) in Hp2'.
    rewrite processFrame_calm in Hp2' by assumption. injection Hp2' as <-.
    rewrite processFrame_calm by assumption.
    eexists. split; [reflexivity|]. split; [exact Hw2|].
    cbn [started remainingPartialBufferSamples firstOut partialBufferSamples
         port maxBufferSamples postMessage].
    rewrite prepared_started, prepared_remaining, prepared_firstOut,
      prepared_partial, prepared_port, prepared_max.
    repeat (split; [reflexivity|]).
    split; [apply prepared_currentSamples|].
    split; [reflexivity | apply prepared_queued].
Qed.

End Push.

Section Sequences.

Variable sampleRate : Z.

Hypothesis rate_nonneg : 0 <= sampleRate.

Lemma process_port p out r :
  well_formed sampleRate p -> process sampleRate p out = Ok r ->
  port (fst r) = port p.
Proof.
  intros [Hq _] Hr. destruct (canPlay p) eqn:E.
  - destruct (tick_view_exists sampleRate p out Hq E) as (s & V).
    destruct V as [_ Hp (fs & o & Hshape) _ _ _ _ _ _ _ _].
    rewrite Hp in Hr. injection Hr as <-.
    rewrite finish_port, Hshape. apply shape_port.
  - rewrite process_idle in Hr by assumption. injection Hr as <-.
    unfold idle. destruct (0 <? actualAudioPlayed p)%float; reflexivity.
Qed.

Lemma run_port es : forall p,
  well_formed sampleRate p ->
  exists p', run sampleRate p es = Ok p' /\ well_formed sampleRate p' /\
             length (port p') = (length (port p) + pushes es)%nat.
Proof.
  induction es as [|e es IH]; intros p Hw.
  - exists p. simpl. auto.
  - destruct e as [[|f|]|out].
    + destruct (IH (initState sampleRate p)) as (p' & Hr & Hw' & Hl).
      { apply well_formed_init, rate_nonneg. }
      exists p'. simpl. split; [exact Hr|]. split; [exact Hw'|]. exact Hl.
    + destruct (push_spec sampleRate rate_nonneg p f Hw)
        as (p1 & Hp & Hw1 & _ & _ & _ & _ & Hport & _).
      destruct (IH p1 Hw1) as (p' & Hr & Hw' & Hl).
      exists p'. cbn [run step]. rewrite Hp. cbn [bind].
      split; [exact Hr|]. split; [exact Hw'|].
      rewrite Hl, Hport, length_app. simpl. lia.
    + destruct (IH p Hw) as (p' & Hr & Hw' & Hl).
      exists p'. simpl. auto.
    + destruct (process_ok sampleRate rate_nonneg p out Hw) as (r & Hr & Hw1).
      destruct (IH (fst r) Hw1) as (p' & Hr' & Hw' & Hl).
      exists p'. cbn [run step]. rewrite Hr. cbn [bind].
      split; [exact Hr'|]. split; [exact Hw'|].
      rewrite Hl, (process_port p out r Hw Hr). simpl. lia.
Qed.

End Sequences.

Lemma copy_body_no_fuel s : copy_body s <> Err OutOfFuel.
Proof.
  destruct s as [p l]. unfold copy_body. destruct (frames p); [discriminate|].
  unfold typed_set. destruct (_ || _); simpl; [discriminate|].
  destruct (_ =? _); discriminate.
Qed.

Lemma copy_body_measure s s' :
  copy_body s = Ok s' -> copy_cond s' = true ->
  (length (frames (fst s')) < length (frames (fst s)))%nat.
Proof.
  destruct s as [p l]. unfold copy_body.
  destruct (frames p) as [|first rest] eqn:Hf; [discriminate|].
  destruct (typed_set _ _ _) as [out'|] eqn:Hset; [|discriminate].
  apply typed_set_length in Hset. simpl bind. simpl offsetInFirstBuffer.
  destruct (Z.eqb_spec
              (offsetInFirstBuffer p
               + Z.min (len first - offsetInFirstBuffer p)
                       (len (output l) - out_idx l)) (len first)) as [Heq|Hne];
    intros [= <-]; simpl.
  - intros _. rewrite Hf. simpl. lia.
  - unfold copy_cond. simpl. intros Hc.
    apply andb_true_iff in Hc as [Hc _]. apply Z.ltb_lt in Hc.
    unfold len in *. rewrite Hset in Hc. lia.
Qed.

(** Whatever the state, the fuel handed to the copy loop is enough. *)
Lemma copy_loop_fuel p out : copy_loop p out <> Err OutOfFuel.
Proof.
  unfold copy_loop.
  apply (while_fuel (fun s => length (frames (fst s)))).
  - apply copy_body_no_fuel.
  - intros s Hc. split.
    + unfold copy_cond in Hc. apply andb_true_iff in Hc as [_ Hc].
      apply Z.ltb_lt in Hc. unfold len in Hc. lia.
    + intros s' Hb Hc'. exact (copy_body_measure s s' Hb Hc').
  - simpl. lia.
Qed.

Lemma process_fuel (sampleRate : Z) p out :
  process sampleRate p out <> Err OutOfFuel.
Proof.
  unfold process. destruct (negb _); [discriminate|].
  pose proof (copy_loop_fuel (note_delay sampleRate p) out) as H.
  destruct (copy_loop _ _) as [s|e]; simpl; [discriminate|].
  intros [= ->]. apply H. reflexivity.
Qed.

Lemma trim_body_no_fuel (sampleRate : Z) target p :
  trim_body sampleRate target p <> Err OutOfFuel.
Proof.
  unfold trim_body. destruct (frames p); [discriminate|].
  cbv zeta. destruct (_ =? _); discriminate.
Qed.

Lemma trim_body_measure (sampleRate : Z) p p' :
  trim_body sampleRate
    (initialBufferSamples sampleRate + partialBufferSamples p) p = Ok p' ->
  trim_cond sampleRate p' = true ->
  (length (frames p') < length (frames p))%nat.
Proof.
  unfold trim_body.
  destruct (frames p) as [|first rest] eqn:Hf; [discriminate|].
  cbv zeta. simpl offsetInFirstBuffer.
  remember (initialBufferSamples sampleRate + partialBufferSamples p)
    as target eqn:Et.
  remember (Z.min (len first - offsetInFirstBuffer p)
                  (currentSamples p - target)) as n eqn:En.
  destruct (Z.eqb_spec (offsetInFirstBuffer p + n) (len first)) as [Heq|Hne];
    intros [= <-]; simpl.
  - intros _. lia.
  - unfold trim_cond, currentSamples. simpl. rewrite Hf. simpl.
    intros Hc. apply Z.ltb_lt in Hc.
    unfold currentSamples in En. rewrite Hf in En. simpl in En. lia.
Qed.

(** Whatever the state, the fuel handed to the drop-oldest loop is
    enough. *)
Lemma trim_fuel (sampleRate : Z) p : trim sampleRate p <> Err OutOfFuel.
Proof.
  unfold trim.
  assert (forall fuel q,
             partialBufferSamples q = partialBufferSamples p ->
             (length (frames q) < fuel)%nat ->
             while fuel (trim_cond sampleRate)
                   (trim_body sampleRate
                      (initialBufferSamples sampleRate + partialBufferSamples p))
                   q <> Err OutOfFuel) as H.
  { induction fuel as [|k IH]; intros q Hq Hm; [lia|].
    simpl. destruct (trim_cond sampleRate q) eqn:C; [|discriminate].
    destruct (trim_body _ _ q) as [q'|e] eqn:Hb.
    - destruct (trim_cond sampleRate q') eqn:C'.
      + rewrite <- Hq in Hb. pose proof (trim_body_measure _ _ _ Hb C').
        apply IH; [|lia].
        revert Hb. unfold trim_body. destruct (frames q); [discriminate|].
        cbv zeta. destruct (_ =? _); intros [= <-]; exact Hq.
      + rewrite while_done by assumption. discriminate.
    - intros [= ->]. exact (trim_body_no_fuel _ _ _ Hb). }
  apply H; [reflexivity | lia].
Qed.

Lemma onmessage_fuel (sampleRate : Z) p m :
  onmessage sampleRate p m <> Err OutOfFuel.
Proof.
  destruct m as [|f|]; simpl; try discriminate.
  unfold processFrame. destruct (overflowing _ _); simpl; [|discriminate].
  pose proof (trim_fuel sampleRate
                (count_packet (start_check sampleRate
                   (set_frames (frames p ++ [f]) p)))) as H.
  destruct (trim _ _) as [q|e]; simpl; [discriminate|].
  intros [= ->]. apply H. reflexivity.
Qed.

(** One turn of the copy loop on a well-formed queue. *)
Lemma copy_body_progress p l :
  queue_ok p -> 0 <= out_idx l <= len (output l) -> copy_cond (p, l) = true ->
  exists p' l',
    copy_body (p, l) = Ok (p', l') /\
    queue_ok p' /\ 0 <= out_idx l' <= len (output l') /\
    (out_idx l < out_idx l' \/ (length (frames p') < length (frames p))%nat) /\
    (out_idx l' = out_idx l ->
     offsetInFirstBuffer p = len (hd [] (frames p)) /\ frames p' = tl (frames p)).
Proof.
  intros Hq Hidx Hc. unfold copy_cond in Hc. simpl in Hc.
  apply andb_true_iff in Hc as [Hc1 Hc2].
  apply Z.ltb_lt in Hc1. apply Z.ltb_lt in Hc2.
  destruct (frames p) as [|first rest] eqn:Hf; [unfold len in Hc2; simpl in Hc2; lia|].
  pose proof (queue_ok_range _ _ _ Hq Hf) as Ho. clear Hq.
  unfold copy_body. rewrite Hf.
  remember (offsetInFirstBuffer p) as o eqn:Eo.
  remember (Z.min (len first - o) (len (output l) - out_idx l)) as n eqn:En.
  assert (0 <= n /\ n <= len first - o /\ n <= len (output l) - out_idx l) as Hn
    by lia.
  rewrite subarray_inside by lia.
  remember (firstn (Z.to_nat n) (skipn (Z.to_nat o) first)) as sub eqn:Esub.
  assert (length sub = Z.to_nat n) as Hsub.
  { rewrite Esub. apply length_firstn_skipn. unfold len in *. lia. }
  rewrite typed_set_ok by (unfold len in *; lia). simpl bind.
  assert (len (firstn (Z.to_nat (out_idx l)) (output l) ++ sub
               ++ skipn (Z.to_nat (out_idx l) + length sub) (output l))
          = len (output l)) as Hl.
  { unfold len. rewrite splice_length; [reflexivity | unfold len in *; lia]. }
  simpl offsetInFirstBuffer.
  destruct (Z.eqb_spec (o + n) (len first)) as [Heq|Hne].
  - eexists. eexists. split; [reflexivity|]. simpl.
    split; [apply queue_ok_shift|]. rewrite Hl.
    split; [lia|]. split; [right; lia|]. intros Hz. split; [lia | reflexivity].
  - eexists. eexists. split; [reflexivity|]. simpl. rewrite Hl.
    split; [unfold queue_ok; simpl; rewrite Hf; lia|].
    split; [lia|]. split; [left; lia|]. intros Hz. lia.
Qed.

Section Conservation.

Variable sampleRate : Z.

Hypothesis rate_nonneg : 0 <= sampleRate.

(** A render tick hands over a prefix of the queue and never lowers the
    overflow threshold. *)
Lemma process_conserves p out :
  well_formed sampleRate p ->
  exists r,
    process sampleRate p out = Ok r /\
    well_formed sampleRate (fst r) /\
    queued p = taken sampleRate p out ++ queued (fst r) /\
    totalMaxBufferSamples sampleRate p
      <= totalMaxBufferSamples sampleRate (fst r).
Proof.
  intros Hw. destruct (process_ok sampleRate rate_nonneg p out Hw) as (r & Hr & Hw').
  exists r. split; [exact Hr|]. split; [exact Hw'|].
  destruct Hw as [Hq Hp]. destruct (canPlay p) eqn:E.
  - destruct (tick_view_exists sampleRate p out Hq E) as (s & V).
    destruct V as [_ Hpr (fs & o & Hshape) _ _ _ _ _ Hdata _ _].
    rewrite Hpr in Hr. injection Hr as <-. split.
    + rewrite Hdata. f_equal. unfold queued.
      rewrite finish_frames, finish_offset. reflexivity.
    + unfold totalMaxBufferSamples.
      rewrite finish_max, finish_partial, Hshape, shape_max, shape_partial.
      unfold params_ok in Hp.
      pose proof (asSamples_nonneg sampleRate rate_nonneg 500).
      unfold partialBufferIncrement.
      destruct (underrun _); lia.
  - rewrite process_idle in Hr by assumption. injection Hr as <-.
    unfold taken. rewrite E. simpl.
    unfold idle. destruct (0 <? actualAudioPlayed p)%float; split; reflexivity || lia.
Qed.

Lemma run_conserves es : forall p,
  well_formed sampleRate p ->
  forallb (fun e => negb (is_reset e)) es = true ->
  currentSamples p + len (pushed_samples es)
    < totalMaxBufferSamples sampleRate p ->
  exists p',
    run sampleRate p es = Ok p' /\
    overflow_free sampleRate p es /\
    queued p ++ pushed_samples es = played sampleRate p es ++ queued p'.
Proof.
  induction es as [|e es IH]; intros p Hw Hnr Hlt.
  - exists p. simpl. rewrite app_nil_r. auto.
  - simpl in Hnr. apply andb_true_iff in Hnr as [He Hnr].
    destruct e as [[|f|]|out]; [discriminate| | |].
    + cbn [pushed_samples] in Hlt. rewrite len_app in Hlt.
      pose proof (len_nonneg (pushed_samples es)) as Hrest.
      destruct (push_spec sampleRate rate_nonneg p f Hw)
        as (p1 & Hp & Hw1 & _ & _ & _ & Hpart & _ & Hcase).
      assert (overflowing sampleRate (enqueue f p) = false) as Hov.
      { unfold overflowing. apply Z.leb_gt.
        rewrite currentSamples_enqueue.
        unfold totalMaxBufferSamples in *.
        cbn [maxBufferSamples partialBufferSamples enqueue set_frames]. lia. }
      rewrite Hov in Hcase. destruct Hcase as (Hcur & Hmax & Hqd).
      destruct (IH p1 Hw1 Hnr) as (p' & Hr & Hof & Hcons).
      { unfold totalMaxBufferSamples in *. rewrite Hcur, Hmax, Hpart. lia. }
      exists p'. cbn [run step overflow_free played pushed_samples].
      rewrite Hp. cbn [bind].
      split; [exact Hr|]. split; [split; assumption|].
      rewrite app_assoc, <- Hqd, Hcons. reflexivity.
    + destruct (IH p Hw Hnr Hlt) as (p' & Hr & Hof & Hcons).
      exists p'. cbn [run step overflow_free played pushed_samples onmessage bind].
      split; [exact Hr|]. split; [split; [exact I | exact Hof]|]. exact Hcons.
    + cbn [pushed_samples] in Hlt.
      destruct (process_conserves p out Hw) as (r & Hp & Hw1 & Hqd & Hmax).
      assert (currentSamples (fst r) <= currentSamples p) as Hcur.
      { destruct Hw as [Hq _]. destruct Hw1 as [Hq1 _].
        rewrite (currentSamples_queued _ Hq), (currentSamples_queued _ Hq1), Hqd.
        rewrite len_app. pose proof (len_nonneg (taken sampleRate p out)). lia. }
      destruct (IH (fst r) Hw1 Hnr) as (p' & Hr & Hof & Hcons); [lia|].
      exists p'. cbn [run step overflow_free played pushed_samples].
      rewrite Hp. cbn [bind].
      split; [exact Hr|]. split; [split; [exact I | exact Hof]|].
      rewrite Hqd, <- app_assoc, Hcons, app_assoc. reflexivity.
Qed.

End Conservation.

Lemma len_silence n : 0 <= n -> len (silence n) = n.
Proof. intros H. unfold len, silence. rewrite repeat_length. lia. Qed.

Lemma len_tone x n : 0 <= n -> len (tone x n) = n.
Proof. intros H. unfold len, tone. rewrite repeat_length. lia. Qed.

(** A single frame whose length is exactly the overflow threshold of a
    fresh buffer triggers the overflow policy. *)
Lemma threshold_frame_overflows (sampleRate : Z) f :
  0 <= sampleRate ->
  len f = totalMaxBufferSamples sampleRate (constructor sampleRate) ->
  len (pushed_samples [Message (MsgAudio f)])
    <= totalMaxBufferSamples sampleRate (constructor sampleRate) /\
  overflowing sampleRate (enqueue f (constructor sampleRate)) = true /\
  exists p,
    run sampleRate (constructor sampleRate) [Message (MsgAudio f)] = Ok p /\
    played sampleRate (constructor sampleRate) [Message (MsgAudio f)] = [] /\
    len (queued p)
    = initialBufferSamples sampleRate + asSamples sampleRate 10.
Proof.
  intros Hr Hlen.
  assert (overflowing sampleRate (enqueue f (constructor sampleRate)) = true) as E.
  { unfold overflowing. apply Z.leb_le. rewrite currentSamples_enqueue.
    change (totalMaxBufferSamples sampleRate (enqueue f (constructor sampleRate)))
      with (totalMaxBufferSamples sampleRate (constructor sampleRate)).
    rewrite Hlen. unfold currentSamples. simpl. lia. }
  split.
  { cbn [pushed_samples]. rewrite app_nil_r. lia. }
  split; [exact E|].
  destruct (push_spec sampleRate Hr (constructor sampleRate) f)
    as (p' & Hp & [Hq' _] & _ & _ & _ & _ & _ & Hcase).
  { apply well_formed_init, Hr. }
  rewrite E in Hcase. destruct Hcase as (Hcur & _ & _).
  exists p'. cbn [run step played]. rewrite Hp. cbn [bind].
  split; [reflexivity|]. split; [reflexivity|].
  rewrite <- (currentSamples_queued _ Hq'). exact Hcur.
Qed.

Section Threshold.

Variable sampleRate : Z.

Hypothesis rate_nonneg : 0 <= sampleRate.

Hypothesis threshold_pos : 0 < initialBufferSamples sampleRate.

(** With a positive start threshold, a buffer that is not started holds
    less than the threshold: the push has already made the start check,
    and an underrun leaves the queue empty. *)
Lemma run_below_threshold es : forall p,
  well_formed sampleRate p ->
  (started p = false -> currentSamples p < initialBufferSamples sampleRate) ->
  exists p',
    run sampleRate p es = Ok p' /\
    (started p' = false -> currentSamples p' < initialBufferSamples sampleRate).
Proof.
  induction es as [|e es IH]; intros p Hw Hb.
  - exists p. simpl. auto.
  - destruct e as [[|f|]|out]; cbn [run step].
    + cbn [onmessage bind]. apply IH.
      * apply well_formed_init, rate_nonneg.
      * intros _. unfold currentSamples. simpl. lia.
    + destruct (push_spec sampleRate rate_nonneg p f Hw)
        as (p1 & Hp & Hw1 & Hst & _ & _ & Hpart & _ & Hcase).
      rewrite Hp. cbn [bind]. apply IH; [exact Hw1|].
      intros Hs. rewrite Hs in Hst. symmetry in Hst.
      apply orb_false_iff in Hst as [Hs0 Hlt]. apply Z.leb_gt in Hlt.
      destruct (overflowing sampleRate (enqueue f p)) eqn:Hov.
      * exfalso. unfold overflowing, totalMaxBufferSamples in Hov.
        apply Z.leb_le in Hov. rewrite currentSamples_enqueue in Hov.
        cbn [maxBufferSamples partialBufferSamples enqueue set_frames] in Hov.
        destruct Hw as [_ Hpar].
        destruct (params_ok_nonneg sampleRate rate_nonneg p Hpar). lia.
      * destruct Hcase as (Hcur & _). lia.
    + cbn [onmessage bind]. apply IH; assumption.
    + destruct (process_ok sampleRate rate_nonneg p out Hw) as (r & Hr & Hw1).
      rewrite Hr. cbn [bind]. apply IH; [exact Hw1|].
      intros Hs. destruct Hw as [Hq _]. destruct (canPlay p) eqn:E.
      * destruct (tick_view_exists sampleRate p out Hq E) as (s & V).
        destruct V as [_ Hpr (fs & o & Hshape) Hq' _ _ Hlen _ _ _ Hend].
        rewrite Hpr in Hr. injection Hr as <-.
        rewrite finish_started in Hs.
        assert (started p = true) as Hsp.
        { unfold canPlay in E. destruct (started p); [reflexivity | discriminate]. }
        destruct (underrun (snd s)) eqn:Hu.
        -- unfold underrun in Hu. apply andb_true_iff in Hu as [Hu _].
           apply Z.ltb_lt in Hu. rewrite Hlen in Hu.
           specialize (Hend Hu). unfold currentSamples.
           rewrite finish_frames, finish_offset, Hend.
           unfold queue_ok in Hq'. rewrite Hend in Hq'. rewrite Hq'.
           simpl. lia.
        -- rewrite Hshape, shape_started, Hsp in Hs. discriminate.
      * rewrite process_idle in Hr by assumption. injection Hr as <-.
        unfold idle in *. destruct (0 <? actualAudioPlayed p)%float; apply Hb, Hs.
Qed.

Lemma not_started_below_threshold p :
  reachable sampleRate p -> started p = false ->
  currentSamples p < initialBufferSamples sampleRate.
Proof.
  intros [es Hr].
  destruct (run_below_threshold es (constructor sampleRate)) as (p' & Hr' & Hb).
  - apply well_formed_init, rate_nonneg.
  - intros _. unfold currentSamples. simpl. lia.
  - rewrite Hr in Hr'. injection Hr' as <-. exact Hb.
Qed.

End Threshold.

Section Runs.

Variable sampleRate : Z.

Hypothesis rate_nonneg : 0 <= sampleRate.

(** An invariant kept by every message and every render tick holds along
    every run. *)
Lemma run_invariant (I : processor -> Prop) :
  (forall p, I (initState sampleRate p)) ->
  (forall p f p', well_formed sampleRate p -> I p ->
     onmessage sampleRate p (MsgAudio f) = Ok p' -> I p') ->
  (forall p out r, well_formed sampleRate p -> I p ->
     process sampleRate p out = Ok r -> I (fst r)) ->
  forall es p, well_formed sampleRate p -> I p ->
  exists p', run sampleRate p es = Ok p' /\ well_formed sampleRate p' /\ I p'.
Proof.
  intros Hreset Hpush Htick. induction es as [|e es IH]; intros p Hw Hi.
  - exists p. simpl. auto.
  - destruct e as [[|f|]|out]; cbn [run step].
    + cbn [onmessage bind]. apply IH; [apply well_formed_init, rate_nonneg | apply Hreset].
    + destruct (onmessage_ok sampleRate rate_nonneg p (MsgAudio f) Hw)
        as (p1 & Hp & Hw1).
      rewrite Hp. cbn [bind]. apply IH; [exact Hw1|].
      exact (Hpush p f p1 Hw Hi Hp).
    + cbn [onmessage bind]. apply IH; assumption.
    + destruct (process_ok sampleRate rate_nonneg p out Hw) as (r & Hr & Hw1).
      rewrite Hr. cbn [bind]. apply IH; [exact Hw1|].
      exact (Htick p out r Hw Hi Hr).
Qed.

Lemma process_keeps_max p out r :
  queue_ok p -> process sampleRate p out = Ok r ->
  maxBufferSamples (fst r) = maxBufferSamples p.
Proof.
  intros Hq Hr. destruct (canPlay p) eqn:E.
  - destruct (tick_view_exists sampleRate p out Hq E) as (s & V).
    destruct V as [_ Hp (fs & o & Hshape) _ _ _ _ _ _ _ _].
    rewrite Hp in Hr. injection Hr as <-.
    rewrite finish_max, Hshape. apply shape_max.
  - rewrite process_idle in Hr by assumption. injection Hr as <-.
    unfold idle. destruct (0 <? actualAudioPlayed p)%float; reflexivity.
Qed.

(** Along every run from construction [maxBufferSamples] is its default
    or its cap. *)
Lemma max_buffer_default_or_cap es :
  exists p,
    run sampleRate (constructor sampleRate) es = Ok p /\
    well_formed sampleRate p /\
    (maxBufferSamples p = asSamples sampleRate DEFAULT_MAX_BUFFER_MS \/
     maxBufferSamples p = maxMaxBufferWithIncrements sampleRate).
Proof.
  pose proof (asSamples_nonneg sampleRate rate_nonneg 500) as Hinc.
  assert (maxMaxBufferWithIncrements sampleRate
          <= asSamples sampleRate DEFAULT_MAX_BUFFER_MS) as Hcap.
  { unfold maxMaxBufferWithIncrements, DEFAULT_MAX_BUFFER_MS.
    apply asSamples_mono; [exact rate_nonneg | lia]. }
  apply (run_invariant
           (fun p => maxBufferSamples p = asSamples sampleRate DEFAULT_MAX_BUFFER_MS \/
                     maxBufferSamples p = maxMaxBufferWithIncrements sampleRate)).
  - intros p. left. reflexivity.
  - intros p f p' Hw Hi Hp.
    destruct (push_spec sampleRate rate_nonneg p f Hw)
      as (p1 & Hp1 & _ & _ & _ & _ & _ & _ & Hcase).
    rewrite Hp in Hp1. injection Hp1 as <-.
    destruct (overflowing sampleRate (enqueue f p)).
    + destruct Hcase as (_ & Hm & _). right. rewrite Hm.
      unfold maxBufferSamplesIncrement. lia.
    + destruct Hcase as (_ & Hm & _). rewrite Hm. exact Hi.
  - intros p out r [Hq _] Hi Hp.
    rewrite (process_keeps_max p out r Hq Hp). exact Hi.
  - apply well_formed_init, rate_nonneg.
  - left. reflexivity.
Qed.

End Runs.

End PlayoutFacts.

(* ================================================================== *)
(** ** The capture chunker: resampler and chunk loop *)

Module MicFacts.

Import Mic MicTrace JSFacts.

(** The chunk size is exactly 1920: the binary64 product 24000 * 0.08
    rounds to the integer. *)
Lemma samples_per_chunk_exact :
  SAMPLES_PER_CHUNK_number = of_Z 1920 /\ SAMPLES_PER_CHUNK = 1920.
Proof. split; vm_compute; reflexivity. Qed.

Lemma indices_length k n : length (indices k n) = n.
Proof. revert k; induction n as [|n IH]; intros k; simpl; auto. Qed.

Lemma indices_nth k n i d :
  (i < n)%nat -> nth i (indices k n) d = k + Z.of_nat i.
Proof.
  revert k i; induction n as [|n IH]; intros k i Hi; [lia|].
  destruct i as [|i]; simpl; [lia|]. rewrite IH by lia. lia.
Qed.

Lemma map_indices_nth {A : Type} (f : Z -> A) k n i d :
  (i < n)%nat -> nth i (map f (indices k n)) d = f (k + Z.of_nat i).
Proof.
  revert k i; induction n as [|n IH]; intros k i Hi; [lia|].
  destruct i as [|i]; simpl.
  - f_equal. lia.
  - rewrite IH by lia. f_equal. lia.
Qed.

Lemma read_or_zero_inside (a : list float) (i : Z) (d : float) :
  0 <= i < len a -> read_or_zero a i = or_zero (nth (Z.to_nat i) a d).
Proof.
  intros Hi. unfold read_or_zero. destruct (Z.ltb_spec i 0); [lia|].
  destruct (nth_error a (Z.to_nat i)) as [x|] eqn:E.
  - rewrite (nth_error_nth _ _ d E). reflexivity.
  - apply nth_error_None in E. unfold len in Hi. lia.
Qed.

(** The source index of every output index lies inside the block. *)
Lemma index_inside (n r i : Z) :
  0 < r -> 0 <= i < n * TARGET_SAMPLE_RATE / r ->
  0 <= i * r / TARGET_SAMPLE_RATE < n.
Proof.
  unfold TARGET_SAMPLE_RATE. intros Hr Hi. split.
  - apply Z.div_pos; nia.
  - apply Z.div_lt_upper_bound; [lia|].
    assert (r * (n * 24000 / r) <= n * 24000) by (apply Z.mul_div_le; lia).
    nia.
Qed.

Lemma In_indices n : forall a s,
  In s (indices a n) <-> a <= s < a + Z.of_nat n.
Proof.
  induction n as [|n IH]; intros a s; cbn [indices In].
  - lia.
  - rewrite IH. lia.
Qed.

(** The resampler in the terms of its binary64 arithmetic: the length and
    the indices it computes decide the output. *)
Lemma resample_binary64 (inputData : list float) (rate l : Z) :
  rate <> TARGET_SAMPLE_RATE ->
  outputLength_binary64 rate (len inputData) = Some l -> 0 <= l < 2 ^ 32 ->
  resampleTo24kHz inputData rate
  = Ok (map (fun i => read_at inputData (srcIndex_binary64 rate i))
            (indices 0 (Z.to_nat l))).
Proof.
  intros Hne Hl Hr. unfold resampleTo24kHz.
  destruct (Z.eqb_spec rate TARGET_SAMPLE_RATE) as [|_]; [contradiction|].
  cbv zeta. unfold outputLength_binary64 in Hl. rewrite Hl.
  destruct (Z.leb_spec 0 l); [|lia].
  destruct (Z.ltb_spec l (2 ^ 32)); [|lia].
  reflexivity.
Qed.

(** The binary64 arithmetic against the exact one, by evaluation at every
    checked rate, on every length up to [CHECKED_BLOCK] and every output
    index of such a block. *)
Lemma agreement_table : forallb agrees_at checked_rates = true.
Proof. vm_compute. reflexivity. Qed.

Lemma checked_rate (rate : Z) :
  In rate checked_rates ->
  0 < rate /\ rate <> TARGET_SAMPLE_RATE /\
  (forall n, 0 <= n <= CHECKED_BLOCK ->
     outputLength_binary64 rate n = Some (n * TARGET_SAMPLE_RATE / rate)) /\
  (forall i, 0 <= i < CHECKED_BLOCK * TARGET_SAMPLE_RATE / rate ->
     srcIndex_binary64 rate i = Some (i * rate / TARGET_SAMPLE_RATE)).
Proof.
  intros Hin. pose proof agreement_table as H.
  rewrite forallb_forall in H. specialize (H rate Hin).
  unfold agrees_at in H. cbv zeta in H.
  apply andb_true_iff in H as [H Hidx].
  apply andb_true_iff in H as [H Hlen].
  apply andb_true_iff in H as [Hpos Hne].
  rewrite forallb_forall in Hidx, Hlen.
  apply Z.ltb_lt in Hpos. apply negb_true_iff, Z.eqb_neq in Hne.
  split; [exact Hpos|]. split; [exact Hne|]. split.
  - intros n Hn. unfold outputLength_binary64.
    assert (In n (indices 0 (Z.to_nat (CHECKED_BLOCK + 1)))) as Hi
      by (apply In_indices; unfold CHECKED_BLOCK in *; lia).
    specialize (Hlen n Hi).
    destruct (outputLength_of (ratio_binary64 rate) n); [|discriminate].
    apply Z.eqb_eq in Hlen. rewrite Hlen. reflexivity.
  - intros i Hi. unfold srcIndex_binary64.
    assert (In i (indices 0 (Z.to_nat (CHECKED_BLOCK * TARGET_SAMPLE_RATE / rate))))
      as Hi' by (apply In_indices; lia).
    specialize (Hidx i Hi').
    destruct (srcIndex_of (ratio_binary64 rate) i); [|discriminate].
    apply Z.eqb_eq in Hidx. rewrite Hidx. reflexivity.
Qed.

(** The resampler at a checked rate, on a block of up to [CHECKED_BLOCK]
    samples: the binary64 length and indices are the exact quotients. *)
Lemma resample_spec (inputData : list float) (r : Z) :
  In r checked_rates -> len inputData <= CHECKED_BLOCK ->
  exists out,
    resampleTo24kHz inputData r = Ok out /\
    len out = len inputData * TARGET_SAMPLE_RATE / r /\
    forall i d, 0 <= i < len out ->
      0 <= i * r / TARGET_SAMPLE_RATE < len inputData /\
      nth (Z.to_nat i) out d
      = or_zero (nth (Z.to_nat (i * r / TARGET_SAMPLE_RATE)) inputData d).
Proof.
  intros Hin Hblock.
  destruct (checked_rate r Hin) as (Hr & Hne & Hlen & Hidx).
  pose proof (len_nonneg inputData) as H0.
  remember (len inputData * TARGET_SAMPLE_RATE / r) as l eqn:El.
  assert (0 <= l <= CHECKED_BLOCK * TARGET_SAMPLE_RATE / r) as Hl.
  { subst l. unfold TARGET_SAMPLE_RATE. split.
    - apply Z.div_pos; lia.
    - apply Z.div_le_mono; lia. }
  assert (CHECKED_BLOCK * TARGET_SAMPLE_RATE / r < 2 ^ 32) as Hbig.
  { apply Z.div_lt_upper_bound; [lia|].
    unfold CHECKED_BLOCK, TARGET_SAMPLE_RATE.
    change (2 ^ 32) with 4294967296. lia. }
  rewrite (resample_binary64 inputData r l Hne)
    by (try (rewrite El; apply Hlen); lia).
  eexists. split; [reflexivity|].
  assert (len (map (fun i => read_at inputData (srcIndex_binary64 r i))
                   (indices 0 (Z.to_nat l))) = l) as Hout.
  { unfold len. rewrite length_map, indices_length. lia. }
  split; [exact Hout|].
  intros i d Hi. rewrite Hout in Hi.
  assert (0 <= i * r / TARGET_SAMPLE_RATE < len inputData) as Hinside
    by (apply index_inside; [exact Hr | rewrite <- El; exact Hi]).
  split; [exact Hinside|].
  rewrite map_indices_nth by lia.
  replace (0 + Z.of_nat (Z.to_nat i)) with i by lia.
  rewrite Hidx by lia. cbn [read_at].
  apply read_or_zero_inside. exact Hinside.
Qed.

(** What a call appends, at the target rate or at a checked rate, when
    its channel holds up to [CHECKED_BLOCK] samples. *)
Lemma resampled_checked (rate : Z) inputs :
  In rate (TARGET_SAMPLE_RATE :: checked_rates) ->
  len (first_channel inputs) <= CHECKED_BLOCK ->
  exists a, resampled rate inputs = Ok a /\
            len a = resampled_length rate (len (first_channel inputs)).
Proof.
  intros Hin Hblock.
  assert (resampled_length rate 0 = 0) as Hz
    by (unfold resampled_length; destruct (_ =? _); reflexivity).
  unfold resampled, first_channel in *.
  destruct inputs as [|[|c ?] ?];
    [exists []; split; [reflexivity | symmetry; exact Hz] ..|].
  destruct (Z.eqb_spec (len c) 0) as [E|E].
  - exists []. rewrite E, Hz. auto.
  - unfold resampled_length. destruct Hin as [<-|Hin].
    + exists c. unfold resampleTo24kHz. rewrite Z.eqb_refl. auto.
    + destruct (checked_rate rate Hin) as (_ & Hne & _).
      destruct (Z.eqb_spec rate TARGET_SAMPLE_RATE) as [|_]; [contradiction|].
      destruct (resample_spec c rate Hin Hblock) as (out & Ho & Hl & _). eauto.
Qed.

Lemma resampled_all_checked (rate : Z) calls :
  In rate (TARGET_SAMPLE_RATE :: checked_rates) ->
  Forall (fun c => len (first_channel c) <= CHECKED_BLOCK) calls ->
  exists all, resampled_all rate calls = Ok all.
Proof.
  intros Hin. induction 1 as [|c calls Hc _ (all & Hall)].
  - exists []. reflexivity.
  - destruct (resampled_checked rate c Hin Hc) as (a & Ha & _).
    exists (a ++ all). cbn [resampled_all]. rewrite Ha, Hall. reflexivity.
Qed.

Lemma chunk_body_step p0 p :
  chunk_inv p0 p -> chunk_cond p = true ->
  (0 < length (pcmBuffer p))%nat /\
  exists p', chunk_body p = Ok p' /\ chunk_inv p0 p' /\
             (chunk_cond p' = true ->
              (length (pcmBuffer p') < length (pcmBuffer p))%nat).
Proof.
  intros (Hrec & chunks & Hport & Hok & Hdata) Hc.
  unfold chunk_cond in Hc. apply Z.leb_le in Hc.
  destruct samples_per_chunk_exact as [_ Hn]. rewrite Hn in Hc.
  split; [unfold len in Hc; lia|].
  unfold chunk_body, splice0. rewrite Hn.
  eexists. split; [reflexivity|]. split.
  - split; [exact Hrec|].
    exists (chunks ++ [{| data := firstn (Z.to_nat 1920) (pcmBuffer p);
                          c_sampleRate := TARGET_SAMPLE_RATE;
                          duration := CHUNK_DURATION;
                          samples := len (firstn (Z.to_nat 1920) (pcmBuffer p)) |}]).
    assert (len (firstn (Z.to_nat 1920) (pcmBuffer p)) = 1920) as Hl.
    { unfold len. rewrite length_firstn. unfold len in Hc. lia. }
    split; [|split].
    + cbn [port]. rewrite Hport, app_assoc. reflexivity.
    + apply Forall_app. split; [exact Hok|]. constructor; [|constructor].
      unfold chunk_ok. cbn [data samples c_sampleRate duration].
      rewrite Hn, Hl. auto.
    + cbn [pcmBuffer]. rewrite map_app, concat_app. cbn [map concat data].
      rewrite app_nil_r, <- app_assoc, firstn_skipn. exact Hdata.
  - intros _. cbn [pcmBuffer]. rewrite length_skipn. unfold len in Hc. lia.
Qed.

Lemma chunk_loop_spec p :
  exists p',
    while (length (pcmBuffer p)) chunk_cond chunk_body p = Ok p' /\
    chunk_inv p p' /\ len (pcmBuffer p') < SAMPLES_PER_CHUNK.
Proof.
  destruct (while_rule (chunk_inv p) (fun q => length (pcmBuffer q))
              chunk_cond chunk_body (chunk_body_step p)
              (length (pcmBuffer p)) p) as (p' & Hw & Hi & Hc).
  - split; [reflexivity|]. exists []. rewrite app_nil_r. simpl. auto.
  - lia.
  - exists p'. split; [exact Hw|]. split; [exact Hi|].
    unfold chunk_cond in Hc. apply Z.leb_gt in Hc. exact Hc.
Qed.

Section Calls.

Variable sampleRate : Z.

(** One callback while recording: when the resampler returns, the
    resampled block is appended, whole chunks leave from the front and
    less than a chunk stays; when it throws, the callback throws. *)
Lemma process_spec p inputs :
  isRecording p = true ->
  match resampled sampleRate inputs with
  | Ok a =>
      exists p' chunks,
        process sampleRate p inputs = Ok p' /\
        isRecording p' = true /\
        port p' = port p ++ chunks /\
        Forall chunk_ok chunks /\
        concat (map data chunks) ++ pcmBuffer p' = pcmBuffer p ++ a /\
        (len (pcmBuffer p) < SAMPLES_PER_CHUNK ->
         len (pcmBuffer p') < SAMPLES_PER_CHUNK)
  | Err e => process sampleRate p inputs = Err e
  end.
Proof.
  intros Hrec. unfold process, resampled. rewrite Hrec. cbn [negb].
  assert (exists p' chunks,
             Ok p = Ok p' /\ isRecording p' = true /\
             port p' = port p ++ chunks /\ Forall chunk_ok chunks /\
             concat (map data chunks) ++ pcmBuffer p' = pcmBuffer p ++ [] /\
             (len (pcmBuffer p) < SAMPLES_PER_CHUNK ->
              len (pcmBuffer p') < SAMPLES_PER_CHUNK)) as Hskip.
  { exists p, []. rewrite !app_nil_r. simpl. auto 10. }
  destruct inputs as [|[|c ?] ?]; try exact Hskip.
  destruct (len c =? 0); try exact Hskip. clear Hskip.
  destruct (resampleTo24kHz c sampleRate) as [a|e]; [|reflexivity].
  cbn [bind].
  destruct (chunk_loop_spec
              {| pcmBuffer := pcmBuffer p ++ a; isRecording := true;
                 port := port p |})
    as (p' & Hw & (Hrec' & chunks & Hport & Hok & Hdata) & Hlt).
  cbn [pcmBuffer isRecording port] in *.
  exists p', chunks. rewrite Hw, Hrec'. auto 10.
Qed.

(** A sequence of callbacks while recording. *)
Lemma run_spec calls : forall p,
  isRecording p = true -> len (pcmBuffer p) < SAMPLES_PER_CHUNK ->
  match resampled_all sampleRate calls with
  | Ok all =>
      exists p' chunks,
        run sampleRate p calls = Ok p' /\
        port p' = port p ++ chunks /\
        Forall chunk_ok chunks /\
        len (pcmBuffer p') < SAMPLES_PER_CHUNK /\
        concat (map data chunks) ++ pcmBuffer p' = pcmBuffer p ++ all
  | Err e => run sampleRate p calls = Err e
  end.
Proof.
  induction calls as [|inputs calls IH]; intros p Hrec Hlt.
  - exists p, []. rewrite !app_nil_r. simpl. auto 10.
  - cbn [run resampled_all].
    pose proof (process_spec p inputs Hrec) as Hp.
    destruct (resampled sampleRate inputs) as [a|e]; cbn [bind].
    + destruct Hp as (p1 & chunks1 & Hp & Hrec1 & Hport1 & Hok1 & Hdata1 & Hlt1).
      rewrite Hp. cbn [bind].
      specialize (IH p1 Hrec1 (Hlt1 Hlt)).
      destruct (resampled_all sampleRate calls) as [all|e]; cbn [bind].
      * destruct IH as (p' & chunks & Hr & Hport & Hok & Hlt' & Hdata).
        exists p', (chunks1 ++ chunks).
        split; [exact Hr|].
        split; [rewrite Hport, Hport1, app_assoc; reflexivity|].
        split; [apply Forall_app; auto|]. split; [exact Hlt'|].
        rewrite map_app, concat_app, <- app_assoc, Hdata, app_assoc, Hdata1.
        rewrite app_assoc. reflexivity.
      * exact IH.
    + rewrite Hp. reflexivity.
Qed.

End Calls.

(** Only [NaN] and the zeros are replaced by [x || 0]. *)
Lemma or_zero_truthy x : falsy x = false -> or_zero x = x.
Proof. unfold or_zero. intros ->. reflexivity. Qed.

End MicFacts.

(* ================================================================== *)
(** ** The playout buffer: specification *)

Module PlayoutSpec.

Import Playout JSFacts PlayoutFacts.

(** C1 (amended). On a render tick that can play, when the queue supplies
    fewer samples than the block holds and the samples taken are all
    effectively silent (none above 1e-4 in magnitude; the host block is
    zero-filled), the tick applies the linear fade-out ramp (gain
    [(n - i) / n] at index [i]) to the samples taken, sets [started] to
    false, and grows [partialBufferSamples] by the increment, capped. *)
Theorem underrun_adaptation_on_silence (sampleRate : Z) p out :
  queue_ok p -> canPlay p = true -> existsb audible out = false ->
  len (taken sampleRate p out) < len out ->
  existsb audible (taken sampleRate p out) = false ->
  exists p' out',
    process sampleRate p out = Ok (p', out') /\
    started p' = false /\
    partialBufferSamples p'
    = Z.min (partialBufferSamples p + partialBufferIncrement sampleRate)
            (maxPartialWithIncrements sampleRate) /\
    let n := len (taken sampleRate p out) in
    let copied := taken sampleRate p out ++ skipn (Z.to_nat n) out in
    let faded := if firstOut p then fade_in n copied else copied in
    out' = fade_out n faded /\
    forall i, 0 <= i < n ->
      nth (Z.to_nat i) out' 0%float
      = fround (nth (Z.to_nat i) faded 0%float * (of_Z (n - i) / of_Z n))%float.
Proof.
  intros Hq E Hs Hlt Hsilent.
  destruct (process_taken sampleRate p out Hq E Hs)
    as (p' & out' & Hp & _ & Hst & Hpart & Hout).
  apply Z.ltb_lt in Hlt. rewrite Hlt, Hsilent in Hst, Hpart, Hout.
  simpl in Hst, Hpart, Hout.
  exists p', out'. split; [assumption|]. split; [assumption|].
  split; [assumption|]. cbv zeta. split; [assumption|].
  intros i Hi. rewrite Hout. apply fade_out_nth; [assumption|].
  apply Z.ltb_lt in Hlt.
  assert (len (taken sampleRate p out
               ++ skipn (Z.to_nat (len (taken sampleRate p out))) out) = len out) as Hl.
  { rewrite len_app. unfold len. rewrite length_skipn. unfold len in Hlt. lia. }
  destruct (firstOut p).
  - unfold len in *. rewrite fade_in_length. lia.
  - lia.
Qed.

Lemma underrun_adaptation_on_silence_witness :
  queue_ok quiet_stall /\
  canPlay quiet_stall = true /\
  existsb audible (silence 128) = false /\
  len (taken 24000 quiet_stall (silence 128))
    < len (silence 128) /\
  existsb audible
    (taken 24000 quiet_stall (silence 128))
  = false /\
  exists p' out',
    process 24000 quiet_stall (silence 128)
    = Ok (p', out') /\
    started p' = false /\
    partialBufferSamples p' = 12240 /\
    firstn 4 out' = [0x1p-15; 0x1.555556p-16; 0x1.555556p-17; 0]%float.
Proof.
  assert (queue_ok quiet_stall) as Hq.
  { vm_compute. split; [discriminate | left; reflexivity]. }
  assert (len (taken 24000 quiet_stall
                     (silence 128)) < len (silence 128)) as Hlt.
  { vm_compute. reflexivity. }
  split; [exact Hq|]. split; [vm_compute; reflexivity|].
  split; [vm_compute; reflexivity|]. split; [exact Hlt|].
  split; [vm_compute; reflexivity|].
  destruct (underrun_adaptation_on_silence 24000
              quiet_stall (silence 128))
    as (p' & out' & Hp & Hst & Hpart & Hout & _).
  - exact Hq.
  - vm_compute. reflexivity.
  - vm_compute. reflexivity.
  - exact Hlt.
  - vm_compute. reflexivity.
  - exists p', out'. split; [exact Hp|]. split; [exact Hst|].
    split; [rewrite Hpart; vm_compute; reflexivity|].
    rewrite Hout. vm_compute. reflexivity.
Defined.

(** The tick of C1 as the claim words it fails: samples are taken, fewer
    than the block holds and audible, and the tick neither fades them out
    nor leaves the started state nor grows [partialBufferSamples]. *)
Lemma audible_underrun_keeps_playing :
  reachable 24000 loud_stall /\
  canPlay loud_stall = true /\
  taken 24000 loud_stall (silence 128) = [0.5; 0.5; 0.5]%float /\
  len (taken 24000 loud_stall (silence 128)) < len (silence 128) /\
  existsb audible (taken 24000 loud_stall (silence 128)) = true /\
  exists p' out',
    process 24000 loud_stall (silence 128) = Ok (p', out') /\
    started p' = true /\
    partialBufferSamples p' = partialBufferSamples loud_stall /\
    out' = [0.5; 0.5; 0.5]%float ++ silence 125.
Proof.
  split.
  { exists (burst_then_ticks 0.5 17). vm_compute. reflexivity. }
  split; [vm_compute; reflexivity|].
  split; [vm_compute; reflexivity|].
  split; [vm_compute; reflexivity|].
  split; [vm_compute; reflexivity|].
  eexists. eexists. split; [vm_compute; reflexivity|].
  split; [reflexivity|]. split; [reflexivity|].
  vm_compute. reflexivity.
Qed.

(** C2. In every state reached from construction, when a push finds
    the queue, the frame included, at or above
    [initialBufferSamples + partialBufferSamples + maxBufferSamples], the
    oldest samples are dropped until exactly
    [initialBufferSamples + partialBufferSamples] remain: the queue is
    left valid and holds the newest samples, in order.
    [maxBufferSamples] becomes [min(cap, old + increment)], and that is
    the cap [asSamples(6000)], never above the old value: the default,
    [asSamples(5 min)], lies above the cap, so that the first overflow
    lowers [maxBufferSamples] and the later ones leave it where it is. *)
Theorem overflow_trims_to_target (sampleRate : Z) es f :
  0 <= sampleRate ->
  exists p,
    run sampleRate (constructor sampleRate) es = Ok p /\
    (initialBufferSamples sampleRate + partialBufferSamples p
       + maxBufferSamples p <= currentSamples p + len f ->
     exists p',
       onmessage sampleRate p (MsgAudio f) = Ok p' /\
       queue_ok p' /\
       queued p'
       = skipn (Z.to_nat (currentSamples p + len f
                          - (initialBufferSamples sampleRate
                             + partialBufferSamples p)))
               (queued p ++ f) /\
       currentSamples p'
       = initialBufferSamples sampleRate + partialBufferSamples p' /\
       len (queued p')
       = initialBufferSamples sampleRate + partialBufferSamples p' /\
       partialBufferSamples p' = partialBufferSamples p /\
       maxBufferSamples p'
       = Z.min (maxMaxBufferWithIncrements sampleRate)
               (maxBufferSamples p + maxBufferSamplesIncrement sampleRate) /\
       maxBufferSamples p' = maxMaxBufferWithIncrements sampleRate /\
       maxBufferSamples p' <= maxBufferSamples p).
Proof.
  intros Hr.
  destruct (max_buffer_default_or_cap sampleRate Hr es) as (p & Hrun & Hw & Hmax).
  exists p. split; [exact Hrun|]. intros Hov.
  destruct (push_spec sampleRate Hr p f Hw)
    as (p' & Hp & [Hq' _] & _ & _ & _ & Hpart & _ & Hcase).
  assert (overflowing sampleRate (enqueue f p) = true) as E.
  { unfold overflowing, totalMaxBufferSamples. apply Z.leb_le.
    rewrite currentSamples_enqueue.
    cbn [maxBufferSamples partialBufferSamples enqueue set_frames]. lia. }
  rewrite E in Hcase. destruct Hcase as (Hcur & Hm & dropped & Hdrop).
  pose proof (currentSamples_queued p' Hq') as Hcq.
  exists p'. split; [exact Hp|]. split; [exact Hq'|]. split.
  { destruct Hw as [Hq _]. rewrite (currentSamples_queued p Hq), <- len_app.
    rewrite <- Hcur, Hcq, Hdrop, len_app.
    replace (Z.to_nat (len dropped + len (queued p') - len (queued p')))
      with (length dropped) by (unfold len; lia).
    rewrite skipn_app, skipn_all, Nat.sub_diag. reflexivity. }
  split; [rewrite Hpart; exact Hcur|].
  split; [rewrite <- Hcq, Hpart; exact Hcur|].
  split; [exact Hpart|]. split; [exact Hm|].
  pose proof (asSamples_nonneg sampleRate Hr 500) as Hinc.
  assert (maxMaxBufferWithIncrements sampleRate
          <= asSamples sampleRate DEFAULT_MAX_BUFFER_MS) as Hcap.
  { unfold maxMaxBufferWithIncrements, DEFAULT_MAX_BUFFER_MS.
    apply asSamples_mono; [exact Hr | lia]. }
  rewrite Hm. unfold maxBufferSamplesIncrement. lia.
Qed.

Lemma overflow_trims_to_target_witness :
  0 <= 24000 /\
  initialBufferSamples 24000 + partialBufferSamples (constructor 24000)
    + maxBufferSamples (constructor 24000)
    <= currentSamples (constructor 24000) + len (silence 7202160) /\
  exists p',
    onmessage 24000 (constructor 24000) (MsgAudio (silence 7202160)) = Ok p' /\
    currentSamples p' = 2160 /\
    maxBufferSamples (constructor 24000) = 7200000 /\
    maxBufferSamples p' = 144000.
Proof.
  assert (initialBufferSamples 24000 + partialBufferSamples (constructor 24000)
          + maxBufferSamples (constructor 24000)
          <= currentSamples (constructor 24000) + len (silence 7202160)) as Hov.
  { rewrite len_silence by lia.
    replace (initialBufferSamples 24000 + partialBufferSamples (constructor 24000)
             + maxBufferSamples (constructor 24000)) with 7202160 by reflexivity.
    replace (currentSamples (constructor 24000)) with 0 by reflexivity. lia. }
  split; [lia|]. split; [exact Hov|].
  destruct (overflow_trims_to_target 24000 [] (silence 7202160))
    as (p & Hrun & H); [lia|].
  cbn [run] in Hrun. injection Hrun as <-.
  destruct (H Hov) as (p' & Hp & _ & _ & Hcur & _ & Hpart & _ & Hmax & _).
  exists p'. split; [exact Hp|]. split.
  - rewrite Hcur, Hpart. reflexivity.
  - split; [reflexivity|]. rewrite Hmax. reflexivity.
Defined.



(** C4 (amended). Telemetry is posted by the push, not by the render tick:
    along any sequence of events the number of messages posted equals the
    number of frames pushed; a push posts exactly one message, made of
    [totalAudioPlayed], [actualAudioPlayed], the buffered delay, [minDelay]
    and [maxDelay] as the push leaves them; a render tick posts none. *)
Theorem telemetry_per_push (sampleRate : Z) es :
  0 <= sampleRate ->
  exists p,
    run sampleRate (constructor sampleRate) es = Ok p /\
    length (port p) = pushes es /\
    (forall f, exists p',
        onmessage sampleRate p (MsgAudio f) = Ok p' /\
        port p' = port p ++ [report sampleRate p']) /\
    (forall out, exists r,
        process sampleRate p out = Ok r /\ port (fst r) = port p).
Proof.
  intros Hr.
  destruct (run_port sampleRate Hr es (constructor sampleRate))
    as (p & Hrun & Hw & Hl).
  { apply well_formed_init, Hr. }
  exists p. split; [exact Hrun|]. split; [exact Hl|]. split.
  - intros f.
    destruct (push_spec sampleRate Hr p f Hw)
      as (p' & Hp & _ & _ & _ & _ & _ & Hport & _).
    exists p'. auto.
  - intros out.
    destruct (process_ok sampleRate Hr p out Hw) as (r & Hpr & _).
    exists r. split; [exact Hpr|]. exact (process_port sampleRate p out r Hw Hpr).
Qed.

Lemma telemetry_per_push_witness :
  0 <= 24000 /\
  exists p,
    run 24000 (constructor 24000) (burst_then_ticks 0.5 3) = Ok p /\
    length (port p) = 1%nat.
Proof.
  split; [lia|].
  destruct (telemetry_per_push 24000 (burst_then_ticks 0.5 3))
    as (p & Hrun & Hl & _); [lia|].
  exists p. split; [exact Hrun | exact Hl].
Defined.

(** The claim of C4 as worded fails both ways: two render ticks post no
    message, and three pushes without a tick post three. *)
Lemma render_tick_posts_nothing :
  (exists p,
     run 24000 (constructor 24000) [Render (silence 128); Render (silence 128)]
     = Ok p /\
     port p = [] /\
     ticks [Render (silence 128); Render (silence 128)] = 2%nat) /\
  (exists p,
     run 24000 (constructor 24000)
         [Message (MsgAudio (tone 0.5 640)); Message (MsgAudio (tone 0.5 640));
          Message (MsgAudio (tone 0.5 640))]
     = Ok p /\
     length (port p) = 3%nat /\
     ticks [Message (MsgAudio (tone 0.5 640)); Message (MsgAudio (tone 0.5 640));
            Message (MsgAudio (tone 0.5 640))] = 0%nat).
Proof.
  split.
  - eexists. split; [vm_compute; reflexivity|]. split; reflexivity.
  - eexists. split; [vm_compute; reflexivity|]. split; reflexivity.
Qed.

(** C5 (amended). From a fresh or reset buffer, along any sequence of
    pushes and render ticks whose pushed samples add up to strictly less
    than [initialBufferSamples + partialBufferSamples + maxBufferSamples],
    the overflow policy never triggers and no sample is dropped: what was
    pushed is what was played followed by what is still queued. *)
Theorem no_drop_below_threshold (sampleRate : Z) p0 es :
  0 <= sampleRate ->
  forallb (fun e => negb (is_reset e)) es = true ->
  len (pushed_samples es)
    < totalMaxBufferSamples sampleRate (initState sampleRate p0) ->
  exists p,
    run sampleRate (initState sampleRate p0) es = Ok p /\
    overflow_free sampleRate (initState sampleRate p0) es /\
    pushed_samples es
    = played sampleRate (initState sampleRate p0) es ++ queued p.
Proof.
  intros Hr Hnr Hlt.
  destruct (run_conserves sampleRate Hr es (initState sampleRate p0))
    as (p & Hrun & Hof & Hcons).
  - apply well_formed_init, Hr.
  - exact Hnr.
  - unfold currentSamples at 1. simpl frames. simpl offsetInFirstBuffer.
    simpl total_length. lia.
  - exists p. split; [exact Hrun|]. split; [exact Hof|]. exact Hcons.
Qed.

Lemma no_drop_below_threshold_witness :
  0 <= 24000 /\
  forallb (fun e => negb (is_reset e)) (burst_then_ticks 0.5 17) = true /\
  len (pushed_samples (burst_then_ticks 0.5 17))
    < totalMaxBufferSamples 24000 (initState 24000 (constructor 24000)) /\
  exists p,
    run 24000 (initState 24000 (constructor 24000)) (burst_then_ticks 0.5 17)
    = Ok p /\
    overflow_free 24000 (initState 24000 (constructor 24000))
                  (burst_then_ticks 0.5 17) /\
    pushed_samples (burst_then_ticks 0.5 17)
    = played 24000 (initState 24000 (constructor 24000)) (burst_then_ticks 0.5 17)
        ++ queued p /\
    queued p = tone 0.5 3.
Proof.
  assert (forallb (fun e => negb (is_reset e)) (burst_then_ticks 0.5 17) = true)
    as Hnr by (vm_compute; reflexivity).
  assert (len (pushed_samples (burst_then_ticks 0.5 17))
          < totalMaxBufferSamples 24000 (initState 24000 (constructor 24000)))
    as Hlt by (vm_compute; reflexivity).
  split; [lia|]. split; [exact Hnr|]. split; [exact Hlt|].
  destruct (no_drop_below_threshold 24000 (constructor 24000)
              (burst_then_ticks 0.5 17)) as (p & Hrun & Hof & Hcons).
  - lia.
  - exact Hnr.
  - exact Hlt.
  - exists p. split; [exact Hrun|]. split; [exact Hof|]. split; [exact Hcons|].
    vm_compute in Hrun. injection Hrun as <-. vm_compute. reflexivity.
Defined.

(** The claim of C5 as worded ("never exceeds") fails at the boundary: at
    24 kHz one frame of 7 202 160 samples, exactly the threshold of a fresh
    buffer, triggers the overflow policy, and 2 160 samples remain queued
    with none played. *)
Lemma overflow_at_threshold :
  len (pushed_samples [Message (MsgAudio (silence 7202160))])
    <= totalMaxBufferSamples 24000 (constructor 24000) /\
  overflowing 24000 (enqueue (silence 7202160) (constructor 24000)) = true /\
  exists p,
    run 24000 (constructor 24000) [Message (MsgAudio (silence 7202160))] = Ok p /\
    played 24000 (constructor 24000) [Message (MsgAudio (silence 7202160))] = [] /\
    len (queued p) = 2160.
Proof.
  assert (totalMaxBufferSamples 24000 (constructor 24000) = 7202160) as Ht
    by reflexivity.
  assert (initialBufferSamples 24000 + asSamples 24000 10 = 2160) as Hq
    by reflexivity.
  rewrite <- Hq.
  apply (threshold_frame_overflows 24000 (silence 7202160)); [lia|].
  rewrite Ht. apply len_silence. lia.
Qed.

(** C6 (amended). In the Empty state a render tick leaves the block as the
    host handed it (silence), leaves [actualAudioPlayed], [minDelay] and
    [maxDelay] alone, and adds the duration of the block to
    [totalAudioPlayed] only once some audio has been played
    ([actualAudioPlayed > 0]); before that [totalAudioPlayed] does not
    move. *)
Theorem empty_state_tick (sampleRate : Z) p out :
  Empty sampleRate p ->
  exists p',
    process sampleRate p out = Ok (p', out) /\
    totalAudioPlayed p'
    = (if (0 <? actualAudioPlayed p)%float
       then (totalAudioPlayed p + secs sampleRate (len out))%float
       else totalAudioPlayed p) /\
    actualAudioPlayed p' = actualAudioPlayed p /\
    minDelay p' = minDelay p /\
    maxDelay p' = maxDelay p /\
    Empty sampleRate p'.
Proof.
  intros [Hs Hlt].
  assert (canPlay p = false) as E by (unfold canPlay; rewrite Hs; reflexivity).
  rewrite (process_idle sampleRate p out E). eexists. split; [reflexivity|].
  unfold idle, Empty.
  destruct (0 <? actualAudioPlayed p)%float; repeat split; assumption.
Qed.

Lemma empty_state_tick_witness :
  Empty 24000 (state_after 24000 (burst_then_ticks 0x1p-15 18)) /\
  exists p',
    process 24000 (state_after 24000 (burst_then_ticks 0x1p-15 18)) (silence 128)
    = Ok (p', silence 128) /\
    totalAudioPlayed p'
    = (totalAudioPlayed (state_after 24000 (burst_then_ticks 0x1p-15 18))
       + secs 24000 128)%float.
Proof.
  assert (Empty 24000 (state_after 24000 (burst_then_ticks 0x1p-15 18))) as He.
  { split; vm_compute; reflexivity. }
  split; [exact He|].
  destruct (empty_state_tick 24000 (state_after 24000 (burst_then_ticks 0x1p-15 18))
              (silence 128) He) as (p' & Hp & Ht & _).
  exists p'. split; [exact Hp|]. rewrite Ht. vm_compute. reflexivity.
Defined.

(** The claim of C6 as worded fails before any audio has been played: the
    first tick of a fresh buffer leaves [totalAudioPlayed] at 0, which is
    not 0 plus the duration of the block. *)
Lemma empty_tick_before_audio :
  Empty 24000 (constructor 24000) /\
  exists p',
    process 24000 (constructor 24000) (silence 128) = Ok (p', silence 128) /\
    totalAudioPlayed p' = totalAudioPlayed (constructor 24000) /\
    totalAudioPlayed p'
    <> (totalAudioPlayed (constructor 24000) + secs 24000 (len (silence 128)))%float.
Proof.
  split; [split; [reflexivity | vm_compute; reflexivity]|].
  eexists. split; [vm_compute; reflexivity|]. split; [reflexivity|].
  vm_compute. intros H. apply (f_equal (fun x => PrimFloat.ltb 0 x)) in H.
  vm_compute in H. discriminate.
Qed.

(** C7 (amended). In every state reached by pushes, resets and render
    ticks, a non-empty queue has its head offset strictly below the length
    of the head frame, unless the head frame has length zero, and then the
    offset is 0; the available sample count is the total length of the
    queued frames minus the offset, and it is the number of samples still
    to be played. *)
Theorem frame_queue_invariant (sampleRate : Z) es :
  0 <= sampleRate ->
  exists p,
    run sampleRate (constructor sampleRate) es = Ok p /\
    match frames p with
    | [] => True
    | first :: _ =>
        0 <= offsetInFirstBuffer p /\
        (offsetInFirstBuffer p < len first \/
         (len first = 0 /\ offsetInFirstBuffer p = 0))
    end /\
    currentSamples p = total_length (frames p) - offsetInFirstBuffer p /\
    currentSamples p = len (queued p).
Proof.
  intros Hr.
  destruct (run_ok sampleRate Hr es (constructor sampleRate)) as (p & Hrun & Hq & _).
  { apply well_formed_init, Hr. }
  exists p. split; [exact Hrun|]. split.
  - unfold queue_ok in Hq. destruct (frames p); [exact I | exact Hq].
  - split; [reflexivity | apply currentSamples_queued, Hq].
Qed.

Lemma frame_queue_invariant_witness :
  0 <= 24000 /\
  exists p,
    run 24000 (constructor 24000)
        (Message (MsgAudio []) :: burst_then_ticks 0.5 4) = Ok p /\
    currentSamples p = len (queued p) /\
    currentSamples p = 1667.
Proof.
  split; [lia|].
  destruct (frame_queue_invariant 24000
              (Message (MsgAudio []) :: burst_then_ticks 0.5 4))
    as (p & Hrun & _ & _ & Hcur); [lia|].
  exists p. split; [exact Hrun|]. split; [exact Hcur|].
  vm_compute in Hrun. injection Hrun as <-. vm_compute. reflexivity.
Defined.

(** The invariant of C7 as worded fails once a zero-length frame is
    pushed: the queue is not empty and the offset, 0, is not below the
    length of the head frame, 0. *)
Lemma zero_length_head_frame :
  exists p,
    run 24000 (constructor 24000) [Message (MsgAudio [])] = Ok p /\
    frames p = [[]] /\
    offsetInFirstBuffer p = 0 /\
    ~ offsetInFirstBuffer p < len (hd [] (frames p)).
Proof.
  eexists. split; [vm_compute; reflexivity|].
  split; [reflexivity|]. split; [reflexivity|]. vm_compute. discriminate.
Qed.

(** C10. The copy loop of a render tick terminates on every well-formed
    queue, zero-length frames included: [process] returns a result, and
    each turn of the loop either moves the write index forward or retires
    the head frame; a turn that copies nothing finds the head frame fully
    consumed and retires it. *)
Theorem copy_loop_terminates (sampleRate : Z) p out l :
  queue_ok p -> 0 <= out_idx l <= len (output l) ->
  (exists r, process sampleRate p out = Ok r) /\
  (copy_cond (p, l) = true ->
   exists p' l',
     copy_body (p, l) = Ok (p', l') /\
     queue_ok p' /\ 0 <= out_idx l' <= len (output l') /\
     (out_idx l < out_idx l' \/ (length (frames p') < length (frames p))%nat) /\
     (out_idx l' = out_idx l ->
      offsetInFirstBuffer p = len (hd [] (frames p)) /\ frames p' = tl (frames p))).
Proof.
  intros Hq Hidx. split.
  - destruct (canPlay p) eqn:E.
    + destruct (process_playing sampleRate p out Hq E) as (s & _ & _ & _ & Hp).
      eauto.
    + rewrite process_idle by assumption. eauto.
  - intros Hc. apply copy_body_progress; assumption.
Qed.

Lemma copy_loop_terminates_witness :
  queue_ok gappy /\
  0 <= out_idx fresh_locals <= len (output fresh_locals) /\
  (exists r, process 24000 gappy (silence 128) = Ok r) /\
  copy_cond (gappy, fresh_locals) = true /\
  exists p' l',
    copy_body (gappy, fresh_locals) = Ok (p', l') /\
    frames gappy = [[]; tone 0.5 1920; []; tone 0.5 3] /\
    out_idx l' = out_idx fresh_locals /\
    frames p' = [tone 0.5 1920; []; tone 0.5 3].
Proof.
  assert (queue_ok gappy) as Hq.
  { vm_compute. split; [discriminate | right; split; reflexivity]. }
  assert (0 <= out_idx fresh_locals <= len (output fresh_locals)) as Hidx.
  { vm_compute. split; discriminate. }
  assert (copy_cond (gappy, fresh_locals) = true) as Hc
    by (vm_compute; reflexivity).
  destruct (copy_loop_terminates 24000 gappy (silence 128) fresh_locals Hq Hidx)
    as [Htotal Hturn].
  destruct (Hturn Hc) as (p' & l' & Hb & _ & _ & _ & _).
  split; [exact Hq|]. split; [exact Hidx|]. split; [exact Htotal|].
  split; [exact Hc|].
  exists p', l'. split; [exact Hb|].
  vm_compute in Hb. injection Hb as <- <-.
  split; [vm_compute; reflexivity|]. split; [reflexivity|].
  vm_compute. reflexivity.
Defined.

End PlayoutSpec.

(* ================================================================== *)
(** ** The capture chunker: specification *)

Module MicSpec.

Import Mic MicTrace JSFacts MicFacts.

(** C8. From a start command on, along any sequence of callbacks on which
    the resampler returns, every chunk posted holds exactly
    [SAMPLES_PER_CHUNK] (1920) samples, less than a chunk stays in the
    accumulator after each callback, and the chunks posted, in order,
    followed by the accumulator are exactly the resampled input since the
    start; a callback on which the resampler throws throws the same
    error.  The resampler returns on every block of up to [CHECKED_BLOCK]
    samples at the target rate and at the checked rates. *)
Theorem chunks_are_exact (sampleRate : Z) p0 calls :
  match resampled_all sampleRate calls with
  | Ok all =>
      exists p chunks,
        run sampleRate (onmessage p0 Start) calls = Ok p /\
        port p = port p0 ++ chunks /\
        Forall (fun c => len (data c) = 1920 /\ samples c = 1920) chunks /\
        len (pcmBuffer p) < 1920 /\
        concat (map data chunks) ++ pcmBuffer p = all
  | Err e => run sampleRate (onmessage p0 Start) calls = Err e
  end /\
  (In sampleRate (TARGET_SAMPLE_RATE :: checked_rates) ->
   Forall (fun c => len (first_channel c) <= CHECKED_BLOCK) calls ->
   exists all, resampled_all sampleRate calls = Ok all).
Proof.
  split.
  - pose proof (run_spec sampleRate calls (onmessage p0 Start)) as H.
    destruct (resampled_all sampleRate calls) as [all|e].
    + destruct H as (p & chunks & Hrun & Hport & Hok & Hlt & Hdata).
      * reflexivity.
      * vm_compute. reflexivity.
      * destruct samples_per_chunk_exact as [_ Hn]. rewrite Hn in Hlt.
        exists p, chunks. split; [exact Hrun|]. split; [exact Hport|].
        split; [|split; [exact Hlt | exact Hdata]].
        eapply Forall_impl; [|exact Hok].
        intros c (H1 & H2 & _). rewrite Hn in H1, H2. auto.
    + apply H; [reflexivity | vm_compute; reflexivity].
  - intros Hin Hblocks.
    apply resampled_all_checked; assumption.
Qed.

Lemma chunks_are_exact_witness :
  exists p all chunks,
    run 48000 (onmessage constructor Start)
        (repeat [[repeat 0.5%float 128]] 31) = Ok p /\
    resampled_all 48000 (repeat [[repeat 0.5%float 128]] 31) = Ok all /\
    port p = chunks /\
    length chunks = 1%nat /\
    Forall (fun c => len (data c) = 1920 /\ samples c = 1920) chunks /\
    len (pcmBuffer p) = 64 /\
    concat (map data chunks) ++ pcmBuffer p = all.
Proof.
  assert (exists all,
             resampled_all 48000 (repeat [[repeat 0.5%float 128]] 31) = Ok all)
    as [all E] by (eexists; vm_compute; reflexivity).
  destruct (chunks_are_exact 48000 constructor
              (repeat [[repeat 0.5%float 128]] 31)) as [H _].
  rewrite E in H.
  destruct H as (p & chunks & Hrun & Hport & Hok & _ & Hdata).
  exists p, all, chunks. split; [exact Hrun|]. split; [exact E|].
  split; [exact Hport|]. split.
  - vm_compute in Hrun. injection Hrun as <-. simpl in Hport. subst chunks.
    reflexivity.
  - split; [exact Hok|]. split; [|exact Hdata].
    vm_compute in Hrun. injection Hrun as <-. reflexivity.
Defined.

(** C9 (amended). At the target rate the output is the input, sample for
    sample, whatever the block.  At any other rate, when the resampler
    returns, its output holds [floor(inputLength / ratio)] samples and its
    sample at index [i] is read at source index [floor(i * ratio)] and
    passed through [x || 0] (a NaN or negative-zero sample comes out as
    0; any other sample comes out unchanged), where [ratio], the quotient
    and the product are the binary64 values the code computes; these are
    not always the exact quotients.  They are at every checked rate (the
    usual device rates and the multiples of the target rate up to
    384 kHz) for every block of up to [CHECKED_BLOCK] (1024) samples:
    there the resampler returns, the output holds
    [floor(inputLength * targetRate / nativeRate)] samples, and the
    source index of [i] is [floor(i * nativeRate / targetRate)], inside
    the block; at twice the target rate the output length is
    [floor(inputLength / 2)], exactly half for a block of even length. *)
Theorem resampler_selects_nearest (inputData : list float) (rate : Z) :
  resampleTo24kHz inputData TARGET_SAMPLE_RATE = Ok inputData /\
  (rate <> TARGET_SAMPLE_RATE ->
   forall out, resampleTo24kHz inputData rate = Ok out ->
     outputLength_binary64 rate (len inputData) = Some (len out) /\
     forall i d, 0 <= i < len out ->
       nth (Z.to_nat i) out d = read_at inputData (srcIndex_binary64 rate i)) /\
  (In rate checked_rates -> len inputData <= CHECKED_BLOCK ->
   exists out,
     resampleTo24kHz inputData rate = Ok out /\
     len out = len inputData * TARGET_SAMPLE_RATE / rate /\
     (forall i d, 0 <= i < len out ->
        srcIndex_binary64 rate i = Some (i * rate / TARGET_SAMPLE_RATE) /\
        0 <= i * rate / TARGET_SAMPLE_RATE < len inputData /\
        nth (Z.to_nat i) out d
        = or_zero (nth (Z.to_nat (i * rate / TARGET_SAMPLE_RATE)) inputData d)) /\
     (rate = 2 * TARGET_SAMPLE_RATE ->
      len out = len inputData / 2 /\
      (Z.even (len inputData) = true -> 2 * len out = len inputData))).
Proof.
  split.
  { unfold resampleTo24kHz. rewrite Z.eqb_refl. reflexivity. }
  split.
  { intros Hne out Ho. unfold resampleTo24kHz in Ho.
    destruct (Z.eqb_spec rate TARGET_SAMPLE_RATE) as [|_]; [contradiction|].
    cbv zeta in Ho. unfold outputLength_binary64.
    destruct (outputLength_of (ratio_binary64 rate) (len inputData))
      as [l|]; [|discriminate].
    destruct (Z.leb_spec 0 l); [|discriminate].
    destruct (l <? 2 ^ 32); [|discriminate].
    cbn [andb] in Ho. injection Ho as <-.
    assert (len (map (fun i => read_at inputData
                                 (srcIndex_of (ratio_binary64 rate) i))
                     (indices 0 (Z.to_nat l))) = l) as Hl.
    { unfold len. rewrite length_map, indices_length. lia. }
    rewrite Hl. split; [reflexivity|].
    intros i d Hi. rewrite map_indices_nth by lia.
    replace (0 + Z.of_nat (Z.to_nat i)) with i by lia. reflexivity. }
  intros Hin Hblock.
  destruct (checked_rate rate Hin) as (Hr & Hne & Hlen & Hidx).
  destruct (resample_spec inputData rate Hin Hblock) as (out & Ho & Hl & Hn).
  pose proof (len_nonneg inputData) as H0.
  assert (0 <= len out <= CHECKED_BLOCK * TARGET_SAMPLE_RATE / rate) as Hrange.
  { rewrite Hl. unfold TARGET_SAMPLE_RATE. split.
    - apply Z.div_pos; lia.
    - apply Z.div_le_mono; lia. }
  exists out. split; [exact Ho|]. split; [exact Hl|]. split.
  { intros i d Hi. split; [apply Hidx; lia | apply Hn; exact Hi]. }
  intros ->. rewrite Hl.
  assert (len inputData * TARGET_SAMPLE_RATE / (2 * TARGET_SAMPLE_RATE)
          = len inputData / 2) as Hh.
  { unfold TARGET_SAMPLE_RATE. rewrite Z.div_mul_cancel_r by lia. reflexivity. }
  rewrite Hh. split; [reflexivity|].
  intros He. apply Z.even_spec in He. destruct He as [k Hk].
  rewrite Hk. rewrite (Z.mul_comm 2 k), Z.div_mul by lia. lia.
Qed.

Lemma resampler_selects_nearest_witness :
  In 48000 checked_rates /\
  len [0.5; 0.25; -0.5; -0.25; 0.125; 0]%float <= CHECKED_BLOCK /\
  exists out,
    resampleTo24kHz [0.5; 0.25; -0.5; -0.25; 0.125; 0]%float 48000 = Ok out /\
    out = [0.5; -0.5; 0.125]%float /\
    len out = len [0.5; 0.25; -0.5; -0.25; 0.125; 0]%float / 2.
Proof.
  assert (In 48000 checked_rates) as Hin by (vm_compute; auto 20).
  assert (len [0.5; 0.25; -0.5; -0.25; 0.125; 0]%float <= CHECKED_BLOCK) as Hb
    by (vm_compute; discriminate).
  split; [exact Hin|]. split; [exact Hb|].
  destruct (resampler_selects_nearest
              [0.5; 0.25; -0.5; -0.25; 0.125; 0]%float 48000)
    as (_ & _ & H).
  destruct (H Hin Hb) as (out & Ho & _ & _ & Hh).
  exists out. split; [exact Ho|]. split.
  - vm_compute in Ho. injection Ho as <-. reflexivity.
  - apply Hh. reflexivity.
Defined.

(** The claim of C9 as worded fails on a block that holds a NaN, on a
    block of odd length, and at a rate where the binary64 product rounds
    below an integer: at 48 kHz the block [NaN, 0.5, 0.25] gives the
    single sample 0, which is not the sample at source index 0, and one
    is not half of three; at 27840 Hz the output at index 25 of the block
    0, 1, ..., 31 is the sample 28, where
    [floor(25 * 27840 / 24000)] is 29. *)
Lemma resampler_counterexamples :
  resampleTo24kHz [nan; 0.5; 0.25]%float 48000 = Ok [0%float] /\
  nth (Z.to_nat 0) [0%float] 0%float
    <> nth (Z.to_nat (0 * 48000 / TARGET_SAMPLE_RATE)) [nan; 0.5; 0.25]%float 0%float /\
  2 * len [0%float] <> len [nan; 0.5; 0.25]%float /\
  25 * 27840 / TARGET_SAMPLE_RATE = 29 /\
  exists out,
    resampleTo24kHz (ramp 32) 27840 = Ok out /\
    nth 25 out 0%float = of_Z 28 /\
    nth 25 out 0%float
      <> nth (Z.to_nat (25 * 27840 / TARGET_SAMPLE_RATE)) (ramp 32) 0%float.
Proof.
  split; [vm_compute; reflexivity|]. split.
  - vm_compute. intros H. apply (f_equal is_nan) in H. vm_compute in H.
    discriminate.
  - split; [vm_compute; discriminate|]. split; [reflexivity|].
    eexists. split; [vm_compute; reflexivity|].
    split; [vm_compute; reflexivity|].
    intros H. apply (f_equal (fun x => (x =? of_Z 28)%float)) in H.
    vm_compute in H. discriminate.
Qed.

End MicSpec.


(* ================================================================== *)
(** ** The playout buffer: further properties *)

Module PlayoutExtra.

Import Playout PlayoutTrace JSFacts PlayoutFacts.

(** X1. Along every sequence of messages and render ticks the adaptive
    parameters stay in range: [partialBufferSamples] between its default
    and its cap, and [maxBufferSamples] at its default (5 min) or, once
    the overflow policy has run, at its cap (6 s), which is the smaller of
    the two. *)
Theorem adaptive_parameters_bounded (sampleRate : Z) es :
  0 <= sampleRate ->
  exists p,
    run sampleRate (constructor sampleRate) es = Ok p /\
    asSamples sampleRate 10 <= partialBufferSamples p
      <= maxPartialWithIncrements sampleRate /\
    (maxBufferSamples p = asSamples sampleRate DEFAULT_MAX_BUFFER_MS \/
     maxBufferSamples p = maxMaxBufferWithIncrements sampleRate) /\
    maxMaxBufferWithIncrements sampleRate
      <= asSamples sampleRate DEFAULT_MAX_BUFFER_MS.
Proof.
  intros Hr.
  assert (maxMaxBufferWithIncrements sampleRate
          <= asSamples sampleRate DEFAULT_MAX_BUFFER_MS) as Hcap.
  { unfold maxMaxBufferWithIncrements, DEFAULT_MAX_BUFFER_MS.
    apply asSamples_mono; [exact Hr | lia]. }
  pose proof (asSamples_nonneg sampleRate Hr 500) as Hinc.
  destruct (run_invariant sampleRate Hr
              (fun p => maxBufferSamples p = asSamples sampleRate DEFAULT_MAX_BUFFER_MS \/
                        maxBufferSamples p = maxMaxBufferWithIncrements sampleRate))
    with (es := es) (p := constructor sampleRate) as (p & Hrun & [_ Hpar] & Hmax).
  - intros p. left. reflexivity.
  - intros p f p' Hw Hi Hp.
    destruct (push_spec sampleRate Hr p f Hw)
      as (p1 & Hp1 & _ & _ & _ & _ & _ & _ & Hcase).
    rewrite Hp in Hp1. injection Hp1 as <-.
    destruct (overflowing sampleRate (enqueue f p)).
    + destruct Hcase as (_ & Hm & _). right. rewrite Hm.
      unfold maxBufferSamplesIncrement. lia.
    + destruct Hcase as (_ & Hm & _). rewrite Hm. exact Hi.
  - intros p out r [Hq _] Hi Hp.
    rewrite (process_keeps_max sampleRate p out r Hq Hp). exact Hi.
  - apply well_formed_init, Hr.
  - left. reflexivity.
  - exists p. split; [exact Hrun|]. destruct Hpar as [Hpar _].
    split; [exact Hpar|]. split; [exact Hmax | exact Hcap].
Qed.

Lemma adaptive_parameters_bounded_witness :
  0 <= 24000 /\
  exists p,
    run 24000 (constructor 24000) (burst_then_ticks 0x1p-15 18) = Ok p /\
    partialBufferSamples p = 12240 /\
    maxBufferSamples p = 7200000.
Proof.
  split; [lia|].
  destruct (adaptive_parameters_bounded 24000 (burst_then_ticks 0x1p-15 18))
    as (p & Hrun & _); [lia|].
  exists p. split; [exact Hrun|].
  vm_compute in Hrun. injection Hrun as <-. split; reflexivity.
Defined.

Lemma mapi_from_skipn {A : Type} (f : Z -> A -> A) (a : list A) :
  forall (k : nat) (from : Z),
  skipn k (mapi_from from f a) = mapi_from (from + Z.of_nat k) f (skipn k a).
Proof.
  induction a as [|x a IH]; intros [|k] from.
  - reflexivity.
  - reflexivity.
  - simpl skipn. rewrite Z.add_0_r. reflexivity.
  - simpl skipn. rewrite IH. f_equal. lia.
Qed.

Lemma mapi_from_id {A : Type} (f : Z -> A -> A) (a : list A) :
  forall from, (forall i x, from <= i -> f i x = x) -> mapi_from from f a = a.
Proof.
  induction a as [|x a IH]; intros from H; simpl; [reflexivity|].
  rewrite H by lia. rewrite IH; [reflexivity|]. intros i y Hi. apply H. lia.
Qed.

(** The ramps leave the samples from index [n] on alone. *)
Lemma fade_in_skipn n out :
  0 <= n -> skipn (Z.to_nat n) (fade_in n out) = skipn (Z.to_nat n) out.
Proof.
  intros Hn. unfold fade_in. rewrite mapi_from_skipn. apply mapi_from_id.
  intros i x Hi. destruct (Z.ltb_spec i n); [lia | reflexivity].
Qed.

Lemma fade_out_skipn n out :
  0 <= n -> skipn (Z.to_nat n) (fade_out n out) = skipn (Z.to_nat n) out.
Proof.
  intros Hn. unfold fade_out. rewrite mapi_from_skipn. apply mapi_from_id.
  intros i x Hi. destruct (Z.ltb_spec i n); [lia | reflexivity].
Qed.

Lemma finish_firstOut (sampleRate : Z) s :
  firstOut (fst (finish sampleRate s)) = false.
Proof.
  destruct s as [p l]. unfold finish.
  destruct (firstOut p) eqn:E; destruct (_ && _); simpl; try reflexivity; exact E.
Qed.

Lemma finish_remaining (sampleRate : Z) s :
  remainingPartialBufferSamples (fst (finish sampleRate s))
  = remainingPartialBufferSamples (fst s).
Proof.
  destruct s as [p l]. unfold finish.
  destruct (firstOut p); destruct (_ && _); reflexivity.
Qed.

Lemma shape_remaining (sampleRate : Z) p fs o :
  remainingPartialBufferSamples
    (set_frames fs (set_offsetInFirstBuffer o (note_delay sampleRate p)))
  = remainingPartialBufferSamples p.
Proof. unfold note_delay. destruct (canPlay p); reflexivity. Qed.

(** The number of samples a playing tick takes. *)
Lemma taken_length (sampleRate : Z) p out :
  queue_ok p -> canPlay p = true ->
  len (taken sampleRate p out) = Z.min (currentSamples p) (len out) /\
  taken sampleRate p out
  = firstn (Z.to_nat (Z.min (currentSamples p) (len out))) (queued p).
Proof.
  intros Hq E.
  destruct (tick_view_exists sampleRate p out Hq E) as (s & V).
  destruct V as [_ _ _ Hq' Ht Hidx Hlen Hout Hdata _ Hend].
  pose proof (currentSamples_queued p Hq) as Hcur.
  assert (len (taken sampleRate p out) <= len out) as Hle.
  { rewrite Ht. unfold len. rewrite length_firstn.
    unfold len in Hlen. lia. }
  assert (len (taken sampleRate p out) = Z.min (currentSamples p) (len out)) as Hn.
  { rewrite Hcur, Hdata, len_app.
    pose proof (len_nonneg (queued (fst s))).
    destruct (Z.eq_dec (len (taken sampleRate p out)) (len out)) as [Heq|Hne].
    - lia.
    - assert (frames (fst s) = []) as Hf by (apply Hend; lia).
      assert (queued (fst s) = []) as Hq0.
      { unfold queued. rewrite Hf. simpl concat. apply skipn_nil. }
      rewrite Hq0 in *. unfold len in *. simpl in *. lia. }
  split; [exact Hn|].
  rewrite <- Hn, Hdata. unfold len.
  rewrite Nat2Z.id, firstn_app, Nat.sub_diag, firstn_all. simpl.
  rewrite app_nil_r. reflexivity.
Qed.

(** X2. A render tick on a well-formed processor returns the block with
    its length unchanged; samples are written only at the front: a tick
    that can play takes [min(available, block length)] samples, the
    oldest ones of the queue, and every sample of the block past them is
    as the host left it; the queue loses exactly the samples taken. *)
Theorem render_block_shape (sampleRate : Z) p out :
  queue_ok p ->
  exists p' out',
    process sampleRate p out = Ok (p', out') /\
    length out' = length out /\
    len (taken sampleRate p out)
    = (if canPlay p then Z.min (currentSamples p) (len out) else 0) /\
    skipn (Z.to_nat (len (taken sampleRate p out))) out'
    = skipn (Z.to_nat (len (taken sampleRate p out))) out /\
    queued p = taken sampleRate p out ++ queued p'.
Proof.
  intros Hq. destruct (canPlay p) eqn:E.
  - destruct (tick_view_exists sampleRate p out Hq E) as (s & V).
    destruct (taken_length sampleRate p out Hq E) as [Hn _].
    destruct V as [_ Hp _ _ _ Hidx Hlen Hout Hdata _ _].
    exists (fst (finish sampleRate s)), (snd (finish sampleRate s)).
    split; [rewrite Hp; destruct (finish sampleRate s); reflexivity|].
    pose proof (len_nonneg (taken sampleRate p out)) as Hn0.
    rewrite finish_output. cbv zeta. rewrite Hidx.
    assert (skipn (Z.to_nat (len (taken sampleRate p out))) (output (snd s))
            = skipn (Z.to_nat (len (taken sampleRate p out))) out) as Htail.
    { rewrite Hout at 1. rewrite Hidx. unfold len at 1.
      rewrite Nat2Z.id, skipn_app, Nat.sub_diag, skipn_all. reflexivity. }
    split; [|split; [exact Hn|split]].
    + destruct (firstOut (fst s)); destruct (underrun (snd s));
        rewrite ?fade_out_length, ?fade_in_length; unfold len in Hlen; lia.
    + destruct (firstOut (fst s)); destruct (underrun (snd s));
        rewrite ?fade_out_skipn, ?fade_in_skipn by assumption; exact Htail.
    + rewrite Hdata. f_equal. unfold queued.
      rewrite finish_frames, finish_offset. reflexivity.
  - rewrite process_idle by assumption.
    exists (idle sampleRate p out), out. split; [reflexivity|].
    assert (taken sampleRate p out = []) as Ht by (unfold taken; rewrite E; reflexivity).
    rewrite Ht. split; [reflexivity|]. split; [reflexivity|].
    split; [reflexivity|]. simpl.
    unfold idle. destruct (0 <? actualAudioPlayed p)%float; reflexivity.
Qed.

Lemma render_block_shape_witness :
  queue_ok loud_stall /\
  exists p' out',
    process 24000 loud_stall (silence 128) = Ok (p', out') /\
    length out' = 128%nat /\
    len (taken 24000 loud_stall (silence 128)) = 3 /\
    skipn 3 out' = silence 125.
Proof.
  assert (queue_ok loud_stall) as Hq.
  { vm_compute. split; [discriminate | left; reflexivity]. }
  split; [exact Hq|].
  destruct (render_block_shape 24000 loud_stall (silence 128) Hq)
    as (p' & out' & Hp & Hl & Hn & Htail & _).
  exists p', out'. split; [exact Hp|]. split; [exact Hl|].
  assert (len (taken 24000 loud_stall (silence 128)) = 3) as H3
    by (vm_compute; reflexivity).
  split; [exact H3|]. rewrite H3 in Htail. exact Htail.
Defined.

(** X3. A tick that can play with at least a block of samples queued
    hands over the next block of the queue: unchanged, bit for bit, in
    the steady state, or under the fade-in ramp (gain [i / n] at index
    [i]) when it is the first output since a start, which it then marks
    as done; it stays started and leaves the adaptive parameters
    alone. *)
Theorem full_block_passthrough (sampleRate : Z) p out :
  queue_ok p -> canPlay p = true -> len out <= currentSamples p ->
  exists p',
    process sampleRate p out
    = Ok (p', if firstOut p
              then fade_in (len out) (firstn (length out) (queued p))
              else firstn (length out) (queued p)) /\
    queued p' = skipn (length out) (queued p) /\
    firstOut p' = false /\
    started p' = true /\
    partialBufferSamples p' = partialBufferSamples p /\
    maxBufferSamples p' = maxBufferSamples p.
Proof.
  intros Hq E Hfull.
  destruct (tick_view_exists sampleRate p out Hq E) as (s & V).
  destruct (taken_length sampleRate p out Hq E) as [Hn Htk].
  rewrite Z.min_r in Hn, Htk by assumption.
  unfold len in Htk at 1. rewrite Nat2Z.id in Htk.
  destruct V as [_ Hp (fs & o & Hshape) _ _ Hidx Hlen Hout Hdata _ _].
  assert (underrun (snd s) = false) as Hu.
  { unfold underrun. rewrite Hlen, Hidx, Hn, Z.ltb_irrefl. reflexivity. }
  assert (output (snd s) = firstn (length out) (queued p)) as Ho.
  { rewrite Hout, Hidx, Hn, Htk. unfold len.
    rewrite Nat2Z.id, skipn_all, app_nil_r. reflexivity. }
  assert (started p = true) as Hsp.
  { unfold canPlay in E. destruct (started p); [reflexivity | discriminate]. }
  exists (fst (finish sampleRate s)). split.
  - rewrite Hp. rewrite (surjective_pairing (finish sampleRate s)) at 1.
    do 2 f_equal. rewrite finish_output. cbv zeta.
    rewrite Hu, Hidx, Hn, Ho, Hshape, shape_firstOut. reflexivity.
  - assert (length (taken sampleRate p out) = length out) as Hl
      by (unfold len in Hn; lia).
    split.
    { unfold queued at 1. rewrite finish_frames, finish_offset.
      fold (queued (fst s)). rewrite Hdata.
      rewrite skipn_app, <- Hl, skipn_all, Nat.sub_diag. reflexivity. }
    split; [apply finish_firstOut|].
    split; [rewrite finish_started, Hu, Hshape, shape_started; exact Hsp|].
    split; [rewrite finish_partial, Hu, Hshape; apply shape_partial|].
    rewrite finish_max, Hshape. apply shape_max.
Qed.

Lemma full_block_passthrough_witness :
  queue_ok (state_after 24000 (burst_then_ticks 0.5 3)) /\
  canPlay (state_after 24000 (burst_then_ticks 0.5 3)) = true /\
  len (silence 128) <= currentSamples (state_after 24000 (burst_then_ticks 0.5 3)) /\
  exists p',
    process 24000 (state_after 24000 (burst_then_ticks 0.5 3)) (silence 128)
    = Ok (p', tone 0.5 128) /\
    queued p' = tone 0.5 1667.
Proof.
  assert (queue_ok (state_after 24000 (burst_then_ticks 0.5 3))) as Hq.
  { vm_compute. split; [discriminate | left; reflexivity]. }
  assert (canPlay (state_after 24000 (burst_then_ticks 0.5 3)) = true) as E
    by (vm_compute; reflexivity).
  assert (len (silence 128)
          <= currentSamples (state_after 24000 (burst_then_ticks 0.5 3))) as Hfull
    by (vm_compute; discriminate).
  split; [exact Hq|]. split; [exact E|]. split; [exact Hfull|].
  destruct (full_block_passthrough 24000 _ (silence 128) Hq E Hfull)
    as (p' & Hp & Hqd & _).
  exists p'. split.
  - rewrite Hp. vm_compute. reflexivity.
  - rewrite Hqd. vm_compute. reflexivity.
Defined.

Section Waiting.
Variable sampleRate : Z.
Hypothesis rate_nonneg : 0 <= sampleRate.

(** While less than the start threshold has been pushed, nothing starts
    and the ticks leave their blocks alone. *)
Lemma run_silent_below_threshold es : forall p,
  well_formed sampleRate p -> started p = false ->
  currentSamples p + len (pushed_samples es) < initialBufferSamples sampleRate ->
  exists p',
    run sampleRate p es = Ok p' /\
    started p' = false /\
    rendered sampleRate p es = host_blocks es /\
    played sampleRate p es = [].
Proof.
  induction es as [|e es IH]; intros p Hw Hs Hlt.
  - exists p. simpl. auto.
  - destruct e as [[|f|]|out]; cbn [run step rendered host_blocks played].
    + cbn [onmessage bind]. cbn [pushed_samples] in Hlt.
      apply IH.
      * apply well_formed_init, rate_nonneg.
      * reflexivity.
      * pose proof (len_nonneg (pushed_samples es)).
        destruct Hw as [Hq _]. pose proof (currentSamples_nonneg p Hq).
        unfold currentSamples at 1. simpl. lia.
    + cbn [pushed_samples] in Hlt. rewrite len_app in Hlt.
      pose proof (len_nonneg (pushed_samples es)) as Hrest.
      destruct (push_spec sampleRate rate_nonneg p f Hw)
        as (p1 & Hp & Hw1 & Hst & _ & _ & _ & _ & Hcase).
      rewrite Hp. cbn [bind].
      destruct (Z.leb_spec (initialBufferSamples sampleRate)
                           (currentSamples p + len f)) as [Hge|_]; [lia|].
      rewrite Hs in Hst. simpl in Hst.
      assert (overflowing sampleRate (enqueue f p) = false) as Hov.
      { unfold overflowing, totalMaxBufferSamples. apply Z.leb_gt.
        rewrite currentSamples_enqueue.
        cbn [maxBufferSamples partialBufferSamples enqueue set_frames].
        destruct Hw as [_ Hpar].
        destruct (params_ok_nonneg sampleRate rate_nonneg p Hpar). lia. }
      rewrite Hov in Hcase. destruct Hcase as (Hcur & _).
      apply IH; [exact Hw1 | exact Hst | lia].
    + cbn [onmessage bind]. cbn [pushed_samples] in Hlt. apply IH; assumption.
    + cbn [pushed_samples] in Hlt.
      assert (canPlay p = false) as E by (unfold canPlay; rewrite Hs; reflexivity).
      rewrite (process_idle sampleRate p out E). cbn [bind fst].
      assert (taken sampleRate p out = []) as Ht
        by (unfold taken; rewrite E; reflexivity).
      rewrite Ht. cbn [app].
      destruct (IH (idle sampleRate p out)) as (p' & Hr & Hs' & Hren & Hpl).
      * destruct Hw as [Hq Hpar]. unfold idle.
        destruct (0 <? actualAudioPlayed p)%float; split; assumption.
      * unfold idle. destruct (0 <? actualAudioPlayed p)%float; exact Hs.
      * unfold idle. destruct (0 <? actualAudioPlayed p)%float; exact Hlt.
      * exists p'. rewrite Hren. auto.
Qed.

End Waiting.

(** X4. From a fresh or reset processor, as long as the samples pushed add
    up to less than [initialBufferSamples], the processor does not start
    and every render tick leaves its block as the host handed it: nothing
    is played. *)
Theorem silent_below_start_threshold (sampleRate : Z) p0 es :
  0 <= sampleRate ->
  len (pushed_samples es) < initialBufferSamples sampleRate ->
  exists p,
    run sampleRate (initState sampleRate p0) es = Ok p /\
    started p = false /\
    rendered sampleRate (initState sampleRate p0) es = host_blocks es /\
    played sampleRate (initState sampleRate p0) es = [].
Proof.
  intros Hr Hlt.
  apply run_silent_below_threshold; try assumption.
  - apply well_formed_init, Hr.
  - reflexivity.
Qed.

Lemma silent_below_start_threshold_witness :
  0 <= 24000 /\
  len (pushed_samples
         [Message (MsgAudio (tone 0.5 640)); Render (silence 128);
          Message (MsgAudio (tone 0.5 640)); Render (silence 128)])
    < initialBufferSamples 24000 /\
  exists p,
    run 24000 (initState 24000 loud_stall)
        [Message (MsgAudio (tone 0.5 640)); Render (silence 128);
         Message (MsgAudio (tone 0.5 640)); Render (silence 128)] = Ok p /\
    started p = false /\
    rendered 24000 (initState 24000 loud_stall)
        [Message (MsgAudio (tone 0.5 640)); Render (silence 128);
         Message (MsgAudio (tone 0.5 640)); Render (silence 128)]
    = [silence 128; silence 128].
Proof.
  assert (len (pushed_samples
         [Message (MsgAudio (tone 0.5 640)); Render (silence 128);
          Message (MsgAudio (tone 0.5 640)); Render (silence 128)])
          < initialBufferSamples 24000) as Hlt by (vm_compute; reflexivity).
  split; [lia|]. split; [exact Hlt|].
  destruct (silent_below_start_threshold 24000 loud_stall
         [Message (MsgAudio (tone 0.5 640)); Render (silence 128);
          Message (MsgAudio (tone 0.5 640)); Render (silence 128)])
    as (p & Hrun & Hs & Hren & _); [lia | exact Hlt |].
  exists p. split; [exact Hrun|]. split; [exact Hs|]. exact Hren.
Defined.

(** X5. Once started, the processor waits out the partial buffer: while
    the countdown [remainingPartialBufferSamples] has not reached zero
    before a tick, that tick leaves its block, the queue, [firstOut] and
    the delay extremes alone and lowers the countdown by the block
    length; [k] such ticks in a row lower it by [k] blocks. *)
Theorem partial_buffer_countdown (sampleRate : Z) p out k :
  started p = true ->
  Z.of_nat k * len out < remainingPartialBufferSamples p + len out ->
  exists p',
    run sampleRate p (repeat (Render out) k) = Ok p' /\
    rendered sampleRate p (repeat (Render out) k) = repeat out k /\
    frames p' = frames p /\
    offsetInFirstBuffer p' = offsetInFirstBuffer p /\
    started p' = true /\
    firstOut p' = firstOut p /\
    minDelay p' = minDelay p /\
    maxDelay p' = maxDelay p /\
    remainingPartialBufferSamples p'
    = remainingPartialBufferSamples p - Z.of_nat k * len out.
Proof.
  revert p.
  induction k as [|k IH]; intros p Hs Hlt.
  - exists p. simpl. repeat split; try reflexivity; try assumption. lia.
  - assert (0 < remainingPartialBufferSamples p) as Hpos.
    { pose proof (len_nonneg out). nia. }
    assert (canPlay p = false) as E.
    { unfold canPlay. destruct (Z.leb_spec (remainingPartialBufferSamples p) 0);
        [lia|]. rewrite andb_false_r. reflexivity. }
    cbn [repeat run step rendered].
    rewrite (process_idle sampleRate p out E). cbn [bind fst].
    destruct (IH (idle sampleRate p out))
      as (p' & Hr & Hren & Hf & Ho & Hs' & Hfo & Hmin & Hmax & Hrem).
    + unfold idle. destruct (0 <? actualAudioPlayed p)%float; exact Hs.
    + rewrite Nat2Z.inj_succ in Hlt.
      unfold idle. destruct (0 <? actualAudioPlayed p)%float;
        cbn [remainingPartialBufferSamples set_totalAudioPlayed
             set_remainingPartialBufferSamples]; lia.
    + exists p'. rewrite Hr, Hren, Hf, Ho, Hs', Hfo, Hmin, Hmax, Hrem.
      rewrite Nat2Z.inj_succ.
      unfold idle. destruct (0 <? actualAudioPlayed p)%float;
        cbn [frames offsetInFirstBuffer started firstOut minDelay maxDelay
             remainingPartialBufferSamples set_totalAudioPlayed
             set_remainingPartialBufferSamples];
        repeat split; try reflexivity; lia.
Qed.

Lemma partial_buffer_countdown_witness :
  started (state_after 24000 (burst_then_ticks 0.5 0)) = true /\
  Z.of_nat 2 * len (silence 128)
    < remainingPartialBufferSamples (state_after 24000 (burst_then_ticks 0.5 0))
      + len (silence 128) /\
  exists p',
    run 24000 (state_after 24000 (burst_then_ticks 0.5 0))
        (repeat (Render (silence 128)) 2) = Ok p' /\
    remainingPartialBufferSamples p' = -16 /\
    canPlay p' = true.
Proof.
  assert (started (state_after 24000 (burst_then_ticks 0.5 0)) = true) as Hs
    by (vm_compute; reflexivity).
  assert (Z.of_nat 2 * len (silence 128)
          < remainingPartialBufferSamples (state_after 24000 (burst_then_ticks 0.5 0))
            + len (silence 128)) as Hlt by (vm_compute; reflexivity).
  split; [exact Hs|]. split; [exact Hlt|].
  destruct (partial_buffer_countdown 24000 _ (silence 128) 2 Hs Hlt)
    as (p' & Hrun & _ & _ & _ & _ & _ & _ & _ & Hrem).
  exists p'. split; [exact Hrun|]. split.
  - rewrite Hrem. vm_compute. reflexivity.
  - vm_compute in Hrun. injection Hrun as <-. vm_compute. reflexivity.
Defined.

(** X6. With a positive start threshold, in every state reached from
    construction a processor that is not started holds less than
    [initialBufferSamples]: the push that reaches the threshold starts it,
    and a tick leaves the started state only on an empty queue. *)
Theorem not_started_means_below_threshold (sampleRate : Z) es :
  0 <= sampleRate -> 0 < initialBufferSamples sampleRate ->
  exists p,
    run sampleRate (constructor sampleRate) es = Ok p /\
    (started p = false -> currentSamples p < initialBufferSamples sampleRate).
Proof.
  intros Hr Hpos.
  apply (run_below_threshold sampleRate Hr Hpos).
  - apply well_formed_init, Hr.
  - intros _. unfold currentSamples. simpl. lia.
Qed.

Lemma not_started_means_below_threshold_witness :
  0 <= 24000 /\ 0 < initialBufferSamples 24000 /\
  exists p,
    run 24000 (constructor 24000) (burst_then_ticks 0x1p-15 18) = Ok p /\
    started p = false /\
    currentSamples p = 0.
Proof.
  assert (0 < initialBufferSamples 24000) as Hpos by (vm_compute; reflexivity).
  split; [lia|]. split; [exact Hpos|].
  destruct (not_started_means_below_threshold 24000 (burst_then_ticks 0x1p-15 18))
    as (p & Hrun & _); [lia | exact Hpos |].
  exists p. split; [exact Hrun|].
  vm_compute in Hrun. injection Hrun as <-. split; reflexivity.
Defined.

Lemma frames_of_samples p :
  queue_ok p -> 0 < currentSamples p -> (0 <? len (frames p)) = true.
Proof.
  intros Hq Hpos. apply Z.ltb_lt. unfold currentSamples, queue_ok in *.
  destruct (frames p); [simpl in Hpos; lia | unfold len; simpl; lia].
Qed.

(** X7. The overflow policy drops the oldest samples and nothing else: a
    push that finds the buffer at or above its overflow threshold leaves
    exactly the newest [initialBufferSamples + partialBufferSamples]
    samples of the queue and the frame, in order. *)
Theorem overflow_keeps_newest (sampleRate : Z) p f :
  0 <= sampleRate -> well_formed sampleRate p ->
  overflowing sampleRate (enqueue f p) = true ->
  exists p',
    onmessage sampleRate p (MsgAudio f) = Ok p' /\
    queued p'
    = skipn (Z.to_nat (currentSamples p + len f
                       - (initialBufferSamples sampleRate + partialBufferSamples p)))
            (queued p ++ f) /\
    len (queued p') = initialBufferSamples sampleRate + partialBufferSamples p.
Proof.
  intros Hr Hw Hov.
  destruct (push_spec sampleRate Hr p f Hw)
    as (p' & Hp & [Hq' _] & _ & _ & _ & _ & _ & Hcase).
  rewrite Hov in Hcase. destruct Hcase as (Hcur & _ & dropped & Hdrop).
  exists p'. split; [exact Hp|].
  rewrite (currentSamples_queued p' Hq') in Hcur.
  destruct Hw as [Hq _]. rewrite (currentSamples_queued p Hq), <- len_app.
  split; [|exact Hcur].
  rewrite <- Hcur, Hdrop, len_app.
  replace (Z.to_nat (len dropped + len (queued p') - len (queued p')))
    with (length dropped) by (unfold len; lia).
  rewrite skipn_app, skipn_all, Nat.sub_diag. reflexivity.
Qed.

Lemma overflow_keeps_newest_witness :
  0 <= 24000 /\
  well_formed 24000 (state_after 24000 [Message (MsgAudio (tone 0.5 100))]) /\
  overflowing 24000
    (enqueue (silence 8000000)
       (state_after 24000 [Message (MsgAudio (tone 0.5 100))])) = true /\
  exists p',
    onmessage 24000 (state_after 24000 [Message (MsgAudio (tone 0.5 100))])
              (MsgAudio (silence 8000000)) = Ok p' /\
    len (queued p') = 2160.
Proof.
  assert (well_formed 24000 (state_after 24000 [Message (MsgAudio (tone 0.5 100))]))
    as Hw.
  { split.
    - vm_compute. split; [discriminate | left; reflexivity].
    - vm_compute. split; [split; discriminate | discriminate]. }
  assert (overflowing 24000
            (enqueue (silence 8000000)
               (state_after 24000 [Message (MsgAudio (tone 0.5 100))])) = true)
    as Hov.
  { unfold overflowing. apply Z.leb_le.
    rewrite currentSamples_enqueue, len_silence by lia.
    vm_compute. discriminate. }
  split; [lia|]. split; [exact Hw|]. split; [exact Hov|].
  destruct (overflow_keeps_newest 24000
              (state_after 24000 [Message (MsgAudio (tone 0.5 100))])
              (silence 8000000)) as (p' & Hp & _ & Hl);
    [lia | exact Hw | exact Hov |].
  exists p'. split; [exact Hp|]. rewrite Hl. vm_compute. reflexivity.
Defined.

(** X8. An underrun on audible data does not adapt: a tick that can play,
    on a silent host block longer than the audible queue, plays the whole
    queue (faded in if it is the first block), empties the buffer, stays
    started with the partial buffer unchanged, and the next push of a
    non-empty frame makes the processor playable at once, with no second
    start and no fade-in. *)
Theorem audible_underrun_resumes (sampleRate : Z) p out f :
  0 <= sampleRate -> 0 < initialBufferSamples sampleRate ->
  well_formed sampleRate p -> canPlay p = true ->
  existsb audible out = false ->
  currentSamples p < len out ->
  existsb audible (queued p) = true ->
  0 < len f ->
  exists p1 p2,
    process sampleRate p out
    = Ok (p1, let copied := queued p ++ skipn (length (queued p)) out in
              if firstOut p then fade_in (currentSamples p) copied else copied) /\
    frames p1 = [] /\ started p1 = true /\ canPlay p1 = false /\
    partialBufferSamples p1 = partialBufferSamples p /\
    onmessage sampleRate p1 (MsgAudio f) = Ok p2 /\
    canPlay p2 = true /\ firstOut p2 = false /\
    partialBufferSamples p2 = partialBufferSamples p.
Proof.
  intros Hr Hpos Hw E Hsil Hshort Haud Hf.
  pose proof Hw as [Hq Hpar].
  destruct (tick_view_exists sampleRate p out Hq E) as (s & V).
  destruct (taken_length sampleRate p out Hq E) as [Hn Htk].
  rewrite Z.min_l in Hn, Htk by lia.
  pose proof (currentSamples_queued p Hq) as Hcq.
  assert (taken sampleRate p out = queued p) as Hall.
  { rewrite Htk, Hcq. unfold len. rewrite Nat2Z.id. apply firstn_all. }
  destruct V as [_ Hp (fs & o & Hshape) Hq1 _ Hidx Hlen Hout Hdata Hany Hend].
  assert (frames (fst s) = []) as Hfr by (apply Hend; lia).
  assert (underrun (snd s) = false) as Hu.
  { unfold underrun. rewrite (Hany Hsil), Hall, Haud. apply andb_false_r. }
  assert (started p = true /\ remainingPartialBufferSamples p <= 0) as [Hsp Hrem].
  { unfold canPlay in E. apply andb_true_iff in E as [E E3].
    apply andb_true_iff in E as [E1 _]. apply Z.leb_le in E3. auto. }
  destruct (process_ok sampleRate Hr p out Hw) as (r & Hpr & Hw1).
  rewrite Hp in Hpr. injection Hpr as <-.
  set (p1 := fst (finish sampleRate s)) in *.
  assert (frames p1 = []) as Hfr1 by (unfold p1; rewrite finish_frames; exact Hfr).
  assert (started p1 = true) as Hs1
    by (unfold p1; rewrite finish_started, Hu, Hshape, shape_started; exact Hsp).
  assert (partialBufferSamples p1 = partialBufferSamples p) as Hpart1
    by (unfold p1; rewrite finish_partial, Hu, Hshape; apply shape_partial).
  assert (firstOut p1 = false) as Hfo1 by apply finish_firstOut.
  assert (remainingPartialBufferSamples p1 = remainingPartialBufferSamples p) as Hrem1
    by (unfold p1; rewrite finish_remaining, Hshape; apply shape_remaining).
  assert (currentSamples p1 = 0) as Hc1.
  { unfold currentSamples. destruct Hw1 as [Hq1' _]. unfold queue_ok in Hq1'.
    rewrite Hfr1 in *. rewrite Hq1'. reflexivity. }
  destruct (push_spec sampleRate Hr p1 f Hw1)
    as (p2 & Hp2 & [Hq2 _] & Hs2 & Hrem2 & Hfo2 & Hpart2 & _ & Hcase).
  exists p1, p2. split.
  { rewrite Hp. rewrite (surjective_pairing (finish sampleRate s)) at 1.
    fold p1. do 2 f_equal. rewrite finish_output. cbv zeta.
    rewrite Hu, Hidx, Hn, Hout, Hidx, Hn, Hall, Hshape, shape_firstOut.
    replace (Z.to_nat (currentSamples p)) with (length (queued p))
      by (rewrite Hcq; unfold len; lia).
    reflexivity. }
  split; [exact Hfr1|]. split; [exact Hs1|]. split.
  { unfold canPlay. rewrite Hfr1, Hs1. reflexivity. }
  split; [exact Hpart1|]. split; [exact Hp2|].
  rewrite Hs1 in Hs2, Hrem2, Hfo2. rewrite andb_false_r in Hrem2, Hfo2.
  simpl in Hs2. split.
  { unfold canPlay. rewrite Hs2, Hrem2, Hrem1.
    rewrite frames_of_samples.
    - simpl. apply Z.leb_le. exact Hrem.
    - exact Hq2.
    - destruct (overflowing sampleRate (enqueue f p1)).
      + destruct Hcase as (Hc & _). rewrite Hc, Hpart1.
        destruct (params_ok_nonneg sampleRate Hr p Hpar). lia.
      + destruct Hcase as (Hc & _). rewrite Hc, Hc1. lia. }
  split; [rewrite Hfo2; exact Hfo1|].
  rewrite Hpart2. exact Hpart1.
Qed.

Lemma audible_underrun_resumes_witness :
  0 <= 24000 /\ 0 < initialBufferSamples 24000 /\
  well_formed 24000 loud_stall /\ canPlay loud_stall = true /\
  existsb audible (silence 128) = false /\
  currentSamples loud_stall < len (silence 128) /\
  existsb audible (queued loud_stall) = true /\
  0 < len (tone 0.5 10) /\
  exists p1 p2,
    process 24000 loud_stall (silence 128)
    = Ok (p1, tone 0.5 3 ++ silence 125) /\
    started p1 = true /\
    onmessage 24000 p1 (MsgAudio (tone 0.5 10)) = Ok p2 /\
    canPlay p2 = true.
Proof.
  assert (0 < initialBufferSamples 24000) as Hpos by (vm_compute; reflexivity).
  assert (well_formed 24000 loud_stall) as Hw.
  { split.
    - vm_compute. split; [discriminate | left; reflexivity].
    - vm_compute. split; [split; discriminate | discriminate]. }
  assert (canPlay loud_stall = true) as E by (vm_compute; reflexivity).
  assert (existsb audible (silence 128) = false) as Hsil by (vm_compute; reflexivity).
  assert (currentSamples loud_stall < len (silence 128)) as Hshort
    by (vm_compute; reflexivity).
  assert (existsb audible (queued loud_stall) = true) as Haud
    by (vm_compute; reflexivity).
  assert (0 < len (tone 0.5 10)) as Hf by (vm_compute; reflexivity).
  split; [lia|]. split; [exact Hpos|]. split; [exact Hw|]. split; [exact E|].
  split; [exact Hsil|]. split; [exact Hshort|]. split; [exact Haud|].
  split; [exact Hf|].
  destruct (audible_underrun_resumes 24000 loud_stall (silence 128) (tone 0.5 10))
    as (p1 & p2 & Hp & _ & Hs & _ & _ & Hp2 & Hc & _);
    [lia | exact Hpos | exact Hw | exact E | exact Hsil | exact Hshort
     | exact Haud | exact Hf |].
  exists p1, p2. split.
  - rewrite Hp. vm_compute. reflexivity.
  - split; [exact Hs|]. split; [exact Hp2 | exact Hc].
Defined.

Lemma while_lift {S : Type} (g : S -> S) (cond : S -> bool)
      (body : S -> result S) :
  (forall s, cond (g s) = cond s) ->
  (forall s, body (g s) = lift g (body s)) ->
  forall fuel s, while fuel cond body (g s) = lift g (while fuel cond body s).
Proof.
  intros Hc Hb. induction fuel as [|k IH]; intros s; simpl; rewrite Hc.
  - destruct (cond s); reflexivity.
  - destruct (cond s); [|reflexivity].
    rewrite Hb. destruct (body s) as [s'|e]; simpl; [apply IH | reflexivity].
Qed.

Section Prefix.

Variable sampleRate : Z.
Variable l : list telemetry.

Lemma trim_prefix p :
  trim sampleRate (prefix_log l p) = lift (prefix_log l) (trim sampleRate p).
Proof.
  unfold trim.
  apply (while_lift (prefix_log l)).
  - reflexivity.
  - intros s. unfold trim_body. cbn [frames prefix_log relog].
    destruct (frames s); [reflexivity|].
    cbv zeta. cbn [offsetInFirstBuffer set_timeInStream set_offsetInFirstBuffer
                   prefix_log relog].
    destruct (_ =? _); reflexivity.
Qed.

Lemma postMessage_prefix m p :
  postMessage m (prefix_log l p) = prefix_log l (postMessage m p).
Proof.
  unfold postMessage, prefix_log, relog. cbn [port]. rewrite app_assoc. reflexivity.
Qed.

Lemma processFrame_prefix p f :
  processFrame sampleRate (prefix_log l p) f
  = lift (prefix_log l) (processFrame sampleRate p f).
Proof.
  unfold processFrame. cbv zeta.
  assert (count_packet (start_check sampleRate (prefix_log l p))
          = prefix_log l (count_packet (start_check sampleRate p))) as ->.
  { unfold count_packet, start_check. cbn [pidx started prefix_log relog].
    change (currentSamples (prefix_log l p)) with (currentSamples p).
    destruct (_ && _); cbn [pidx start prefix_log relog];
      destruct (_ <? 20); reflexivity. }
  set (q := count_packet (start_check sampleRate p)).
  change (overflowing sampleRate (prefix_log l q)) with (overflowing sampleRate q).
  destruct (overflowing sampleRate q).
  - rewrite trim_prefix. destruct (trim sampleRate q) as [q'|e]; [|reflexivity].
    cbn [lift bind].
    match goal with
    | |- Ok (postMessage ?m ?a) = Ok (prefix_log l (postMessage ?m' ?b)) =>
        change a with (prefix_log l b); change m with m'
    end.
    rewrite postMessage_prefix. reflexivity.
  - cbn [lift bind].
    change (report sampleRate (prefix_log l q)) with (report sampleRate q).
    rewrite postMessage_prefix. reflexivity.
Qed.

Lemma onmessage_prefix p m :
  onmessage sampleRate (prefix_log l p) m
  = lift (prefix_log l) (onmessage sampleRate p m).
Proof.
  destruct m as [|f|]; cbn [onmessage lift]; try reflexivity.
  change (set_frames (frames (prefix_log l p) ++ [f]) (prefix_log l p))
    with (prefix_log l (set_frames (frames p ++ [f]) p)).
  apply processFrame_prefix.
Qed.

Lemma copy_loop_prefix p out :
  copy_loop (prefix_log l p) out = lift (prefix_locals l) (copy_loop p out).
Proof.
  unfold copy_loop.
  change (prefix_log l p, {| output := out; out_idx := 0; anyAudio := false |})
    with (prefix_locals l (p, {| output := out; out_idx := 0; anyAudio := false |})).
  change (length (frames (prefix_log l p))) with (length (frames p)).
  apply (while_lift (prefix_locals l) copy_cond copy_body).
  - intros [q k]. reflexivity.
  - intros [q k]. unfold copy_body, prefix_locals. cbn [fst snd frames prefix_log relog].
    destruct (frames q); [reflexivity|].
    cbv zeta. cbn [offsetInFirstBuffer prefix_log relog].
    destruct (typed_set _ _ _); [|reflexivity].
    cbn [bind offsetInFirstBuffer set_offsetInFirstBuffer].
    destruct (_ =? _); reflexivity.
Qed.

Lemma finish_prefix s :
  finish sampleRate (prefix_locals l s) = prefix_block l (finish sampleRate s).
Proof.
  destruct s as [q k]. unfold finish, prefix_locals, prefix_block.
  cbn [fst snd firstOut prefix_log relog].
  destruct (firstOut q); destruct (_ && _); reflexivity.
Qed.

Lemma process_prefix p out :
  process sampleRate (prefix_log l p) out
  = lift (prefix_block l) (process sampleRate p out).
Proof.
  unfold process. cbv zeta.
  assert (note_delay sampleRate (prefix_log l p)
          = prefix_log l (note_delay sampleRate p)) as ->.
  { unfold note_delay.
    change (canPlay (prefix_log l p)) with (canPlay p).
    destruct (canPlay p); reflexivity. }
  set (q := note_delay sampleRate p).
  change (canPlay (prefix_log l q)) with (canPlay q).
  destruct (canPlay q); cbn [negb].
  - rewrite copy_loop_prefix. destruct (copy_loop q out) as [s|e]; [|reflexivity].
    cbn [lift bind]. rewrite finish_prefix. reflexivity.
  - cbn [lift]. unfold prefix_block. cbn [fst snd]. f_equal. f_equal.
    unfold idle. cbn [actualAudioPlayed prefix_log relog].
    destruct (0 <? actualAudioPlayed q)%float; reflexivity.
Qed.

Lemma step_prefix p e :
  step sampleRate (prefix_log l p) e = lift (prefix_log l) (step sampleRate p e).
Proof.
  destruct e as [m|out]; cbn [step].
  - apply onmessage_prefix.
  - rewrite process_prefix. destruct (process sampleRate p out); reflexivity.
Qed.

Lemma run_prefix es : forall p,
  run sampleRate (prefix_log l p) es = lift (prefix_log l) (run sampleRate p es).
Proof.
  induction es as [|e es IH]; intros p; cbn [run]; [reflexivity|].
  rewrite step_prefix. destruct (step sampleRate p e); cbn [lift bind];
    [apply IH | reflexivity].
Qed.

Lemma rendered_prefix es : forall p,
  rendered sampleRate (prefix_log l p) es = rendered sampleRate p es.
Proof.
  induction es as [|[m|out] es IH]; intros p; cbn [rendered]; [reflexivity| |].
  - rewrite onmessage_prefix. destruct (onmessage sampleRate p m); cbn [lift];
      [apply IH | reflexivity].
  - rewrite process_prefix. destruct (process sampleRate p out) as [[q o]|];
      cbn [lift prefix_block fst snd]; [f_equal; apply IH | reflexivity].
Qed.

End Prefix.

Lemma initState_prefix (sampleRate : Z) p0 :
  initState sampleRate p0 = prefix_log (port p0) (constructor sampleRate).
Proof.
  unfold prefix_log, relog, constructor, initState. cbn [port].
  rewrite app_nil_r. reflexivity.
Qed.

(** X9. A reset forgets the history: from the state a reset leaves, any
    sequence of messages and render ticks renders the same blocks as a
    newly constructed processor, ends in the same state, fails where it
    fails, and posts the same telemetry after what the port already
    held. *)
Theorem reset_forgets_history (sampleRate : Z) p0 es :
  rendered sampleRate (initState sampleRate p0) es
  = rendered sampleRate (constructor sampleRate) es /\
  run sampleRate (initState sampleRate p0) es
  = lift (prefix_log (port p0)) (run sampleRate (constructor sampleRate) es).
Proof.
  rewrite initState_prefix. split.
  - apply rendered_prefix.
  - apply run_prefix.
Qed.

(** A render tick keeps [partialBufferSamples] or raises it by one capped
    increment. *)
Lemma process_partial_step (sampleRate : Z) p out r :
  queue_ok p -> process sampleRate p out = Ok r ->
  partialBufferSamples (fst r) = partialBufferSamples p \/
  partialBufferSamples (fst r)
  = Z.min (partialBufferSamples p + partialBufferIncrement sampleRate)
          (maxPartialWithIncrements sampleRate).
Proof.
  intros Hq Hr. destruct (canPlay p) eqn:E.
  - destruct (tick_view_exists sampleRate p out Hq E) as (s & V).
    destruct V as [_ Hpr (fs & o & Hshape) _ _ _ _ _ _ _ _].
    rewrite Hpr in Hr. injection Hr as <-.
    rewrite finish_partial, Hshape, shape_partial.
    destruct (underrun _); auto.
  - rewrite process_idle in Hr by assumption. injection Hr as <-.
    left. unfold idle. destruct (0 <? actualAudioPlayed p)%float; reflexivity.
Qed.

(** X21. The partial buffer grows by whole increments only: in every
    state reached from construction [partialBufferSamples] is its default
    [asSamples(10)] plus a whole number of increments [asSamples(500)],
    capped at [asSamples(6000)]. *)
Theorem partial_buffer_steps (sampleRate : Z) es :
  0 <= sampleRate ->
  exists p (k : nat),
    run sampleRate (constructor sampleRate) es = Ok p /\
    partialBufferSamples p
    = Z.min (maxPartialWithIncrements sampleRate)
            (asSamples sampleRate 10
             + Z.of_nat k * partialBufferIncrement sampleRate).
Proof.
  intros Hr.
  pose proof (asSamples_nonneg sampleRate Hr 500) as Hinc.
  fold (partialBufferIncrement sampleRate) in Hinc.
  assert (asSamples sampleRate 10 <= maxPartialWithIncrements sampleRate) as Hcap
    by (apply asSamples_mono; [exact Hr | lia]).
  destruct (run_invariant sampleRate Hr
              (fun p => exists k : nat,
                   partialBufferSamples p
                   = Z.min (maxPartialWithIncrements sampleRate)
                           (asSamples sampleRate 10
                            + Z.of_nat k * partialBufferIncrement sampleRate)))
    with (es := es) (p := constructor sampleRate) as (p & Hrun & _ & k & Hk).
  - intros p. exists 0%nat. cbn [partialBufferSamples initState]. lia.
  - intros p f p' Hw [k Hk] Hp.
    destruct (push_spec sampleRate Hr p f Hw)
      as (p1 & Hp1 & _ & _ & _ & _ & Hpart & _).
    rewrite Hp in Hp1. injection Hp1 as <-. exists k. rewrite Hpart. exact Hk.
  - intros p out r [Hq _] [k Hk] Hp.
    destruct (process_partial_step sampleRate p out r Hq Hp) as [H|H].
    + exists k. rewrite H. exact Hk.
    + exists (S k). rewrite H, Hk, Nat2Z.inj_succ. lia.
  - apply well_formed_init, Hr.
  - exists 0%nat. cbn [partialBufferSamples constructor initState]. lia.
  - exists p, k. split; [exact Hrun | exact Hk].
Qed.

Lemma partial_buffer_steps_witness :
  0 <= 24000 /\
  exists p,
    run 24000 (constructor 24000) (burst_then_ticks 0x1p-15 18) = Ok p /\
    partialBufferSamples p = 240 + 1 * 12000.
Proof.
  split; [lia|].
  destruct (partial_buffer_steps 24000 (burst_then_ticks 0x1p-15 18))
    as (p & k & Hrun & _); [lia|].
  exists p. split; [exact Hrun|].
  vm_compute in Hrun. injection Hrun as <-. reflexivity.
Defined.

End PlayoutExtra.


(* ================================================================== *)
(** ** The capture chunker: further properties *)

Module MicExtra.

Import Mic MicTrace JSFacts MicFacts.

Lemma run_not_recording (sampleRate : Z) calls : forall p,
  isRecording p = false -> run sampleRate p calls = Ok p.
Proof.
  induction calls as [|c calls IH]; intros p H; cbn [run]; [reflexivity|].
  unfold process. rewrite H. cbn [negb bind]. apply IH, H.
Qed.

Lemma chunks_length chunks :
  Forall chunk_ok chunks ->
  len (concat (map data chunks)) = SAMPLES_PER_CHUNK * Z.of_nat (length chunks).
Proof.
  induction 1 as [|c r [Hc _] _ IH]; [reflexivity|].
  cbn [map concat length]. rewrite len_app, IH, Hc. lia.
Qed.

Lemma chunks_nth chunks rest : 
  Forall chunk_ok chunks ->
  forall i, (i < length chunks)%nat ->
    nth_error chunks i = Some (nth_chunk (concat (map data chunks) ++ rest) i).
Proof.
  induction 1 as [|c r Hc _ IH]; intros i Hi; [simpl in Hi; lia|].
  destruct Hc as (Hd & Hs & Hr & Hdur).
  assert (length (data c) = Z.to_nat SAMPLES_PER_CHUNK) as Hl
    by (unfold len in Hd; lia).
  cbn [map concat]. rewrite <- app_assoc.
  destruct i as [|i].
  - cbn [nth_error]. unfold nth_chunk. rewrite Nat.mul_0_r. cbn [skipn].
    rewrite firstn_app, <- Hl, firstn_all, Nat.sub_diag. cbn [firstn].
    rewrite app_nil_r. destruct c; simpl in *. subst. reflexivity.
  - cbn [nth_error]. rewrite IH by (simpl in Hi; lia).
    unfold nth_chunk. do 3 f_equal.
    replace (Z.to_nat SAMPLES_PER_CHUNK * S i)%nat
      with (Z.to_nat SAMPLES_PER_CHUNK * i + length (data c))%nat by lia.
    rewrite <- skipn_skipn.
    rewrite (skipn_app (length (data c))), skipn_all, Nat.sub_diag. reflexivity.
Qed.

(** X10. A microphone processor that is not recording does nothing: after
    a stop command, and before the first start, any sequence of render
    callbacks at any sample rate returns without an error and leaves the
    accumulator and the port as they were; the stop command itself keeps
    both. *)
Theorem stopped_microphone_is_inert (sampleRate : Z) p calls :
  run sampleRate (onmessage p Stop) calls = Ok (onmessage p Stop) /\
  pcmBuffer (onmessage p Stop) = pcmBuffer p /\
  port (onmessage p Stop) = port p /\
  run sampleRate constructor calls = Ok constructor.
Proof.
  split; [apply run_not_recording; reflexivity|].
  split; [reflexivity|]. split; [reflexivity|].
  apply run_not_recording. reflexivity.
Qed.

(** X11. From a start command on, along any sequence of callbacks on
    which the resampler returns, the chunks posted are the resampled input
    cut every [SAMPLES_PER_CHUNK] (1920) samples: their number is the
    quotient of the number of resampled samples by 1920, the [i]-th one
    holds the samples from [1920 * i] on with the target rate, the chunk
    duration and the length 1920 as its fields, and the accumulator holds
    the remainder; a callback on which the resampler throws throws the
    same error. *)
Theorem chunk_count_and_remainder (sampleRate : Z) p0 calls :
  match resampled_all sampleRate calls with
  | Ok all =>
      exists p chunks,
        run sampleRate (onmessage p0 Start) calls = Ok p /\
        port p = port p0 ++ chunks /\
        Z.of_nat (length chunks) = len all / 1920 /\
        (forall i, (i < length chunks)%nat ->
           nth_error chunks i = Some (nth_chunk all i)) /\
        pcmBuffer p = skipn (1920 * length chunks) all /\
        len (pcmBuffer p) = len all mod 1920
  | Err e => run sampleRate (onmessage p0 Start) calls = Err e
  end.
Proof.
  pose proof (run_spec sampleRate calls (onmessage p0 Start)) as H.
  destruct (resampled_all sampleRate calls) as [all|e];
    [|apply H; [reflexivity | vm_compute; reflexivity]].
  destruct H as (p & chunks & Hrun & Hport & Hok & Hlt & Hdata).
  - reflexivity.
  - vm_compute. reflexivity.
  - destruct samples_per_chunk_exact as [_ Hn].
    cbn [onmessage pcmBuffer app] in Hdata.
    pose proof (chunks_length chunks Hok) as Hlen.
    assert (len all = 1920 * Z.of_nat (length chunks) + len (pcmBuffer p)) as Hsum.
    { rewrite <- Hdata, len_app, Hlen, Hn. reflexivity. }
    pose proof (len_nonneg (pcmBuffer p)) as H0. rewrite Hn in Hlt.
    exists p, chunks. split; [exact Hrun|].
    split; [exact Hport|]. split.
    { apply (Z.div_unique_pos _ _ _ (len (pcmBuffer p))); lia. }
    split.
    { intros i Hi. rewrite <- Hdata. apply chunks_nth; assumption. }
    split.
    { rewrite <- Hdata.
      replace (1920 * length chunks)%nat
        with (length (concat (map data chunks)))
        by (rewrite Hn in Hlen; unfold len in Hlen; lia).
      rewrite skipn_app, skipn_all, Nat.sub_diag. reflexivity. }
    apply (Z.mod_unique_pos _ _ (Z.of_nat (length chunks))); lia.
Qed.

Lemma chunk_count_and_remainder_witness :
  exists p all chunks,
    run 48000 (onmessage constructor Start)
        (repeat [[repeat 0.5%float 128]] 31) = Ok p /\
    resampled_all 48000 (repeat [[repeat 0.5%float 128]] 31) = Ok all /\
    port p = chunks /\
    Z.of_nat (length chunks) = 1 /\
    len (pcmBuffer p) = 64.
Proof.
  assert (exists all,
             resampled_all 48000 (repeat [[repeat 0.5%float 128]] 31) = Ok all)
    as [all E] by (eexists; vm_compute; reflexivity).
  pose proof (chunk_count_and_remainder 48000 constructor
                (repeat [[repeat 0.5%float 128]] 31)) as H.
  rewrite E in H.
  destruct H as (p & chunks & Hrun & Hport & Hcount & _ & _ & Hrem).
  exists p, all, chunks. split; [exact Hrun|]. split; [exact E|].
  split; [exact Hport|].
  vm_compute in E. injection E as <-.
  split; [rewrite Hcount | rewrite Hrem]; vm_compute; reflexivity.
Defined.

(** X12. Each render block is resampled on its own: at the target rate
    and at every checked rate, over any sequence of callbacks on blocks
    of up to [CHECKED_BLOCK] (1024) samples, the resampler returns and the
    number of samples accumulated is the sum over the callbacks of
    [floor(n * 24000 / sampleRate)], with [n] the length of the first
    channel of the first input ([n] itself at the target rate, zero
    without such a channel); the fraction of a sample each block leaves
    is not carried to the next. *)
Theorem blocks_resampled_independently (sampleRate : Z) calls :
  In sampleRate (TARGET_SAMPLE_RATE :: checked_rates) ->
  Forall (fun c => len (first_channel c) <= CHECKED_BLOCK) calls ->
  exists all,
    resampled_all sampleRate calls = Ok all /\
    len all
    = total (map (fun c => resampled_length sampleRate (len (first_channel c)))
                 calls).
Proof.
  intros Hin. induction 1 as [|c calls Hc _ (all & Hall & Hl)].
  - exists []. auto.
  - destruct (resampled_checked sampleRate c Hin Hc) as (a & Ha & Hla).
    exists (a ++ all). cbn [resampled_all map total fold_right].
    rewrite Ha, Hall. cbn [bind]. split; [reflexivity|].
    rewrite len_app, Hla, Hl. reflexivity.
Qed.

Lemma blocks_resampled_independently_witness :
  In 44100 (TARGET_SAMPLE_RATE :: checked_rates) /\
  Forall (fun c => len (first_channel c) <= CHECKED_BLOCK)
         (repeat [[repeat 0.5%float 128]] 10) /\
  exists all,
    resampled_all 44100 (repeat [[repeat 0.5%float 128]] 10) = Ok all /\
    len all = 690 /\
    resampled_length 44100 (10 * 128) = 696.
Proof.
  assert (In 44100 (TARGET_SAMPLE_RATE :: checked_rates)) as Hin
    by (vm_compute; auto 20).
  assert (Forall (fun c => len (first_channel c) <= CHECKED_BLOCK)
                 (repeat [[repeat 0.5%float 128]] 10)) as Hb
    by (repeat constructor; vm_compute; discriminate).
  split; [exact Hin|]. split; [exact Hb|].
  destruct (blocks_resampled_independently 44100
              (repeat [[repeat 0.5%float 128]] 10) Hin Hb) as (all & Hall & Hl).
  exists all. split; [exact Hall|]. split; [rewrite Hl|]; vm_compute; reflexivity.
Defined.

(** X13. At a native rate that is a multiple [m] of the target rate, up
    to 16 times, on a block of up to [CHECKED_BLOCK] (1024) samples, the
    resampler decimates: it keeps one sample in [m], the output at index
    [i] being the input at index [i * m] passed through [x || 0], and
    returns [floor(inputLength / m)] samples. *)
Theorem integer_ratio_decimates (inputData : list float) (m : Z) :
  1 < m <= 16 -> len inputData <= CHECKED_BLOCK ->
  exists out,
    resampleTo24kHz inputData (m * TARGET_SAMPLE_RATE) = Ok out /\
    len out = len inputData / m /\
    forall i d, 0 <= i < len out ->
      i * m < len inputData /\
      nth (Z.to_nat i) out d = or_zero (nth (Z.to_nat (i * m)) inputData d).
Proof.
  intros Hm Hblock.
  assert (In (m * TARGET_SAMPLE_RATE) checked_rates) as Hin.
  { unfold checked_rates. apply in_or_app. right.
    apply (in_map (fun m => m * TARGET_SAMPLE_RATE)).
    apply In_indices. lia. }
  destruct (resample_spec inputData (m * TARGET_SAMPLE_RATE) Hin Hblock)
    as (out & Ho & Hl & Hn).
  exists out. split; [exact Ho|].
  rewrite Z.div_mul_cancel_r in Hl by (unfold TARGET_SAMPLE_RATE; lia).
  split; [exact Hl|].
  intros i d Hi. destruct (Hn i d Hi) as [Hin' Hv].
  rewrite Z.mul_assoc, Z.div_mul in Hin', Hv by (unfold TARGET_SAMPLE_RATE; lia).
  split; [lia | exact Hv].
Qed.

Lemma integer_ratio_decimates_witness :
  1 < 4 <= 16 /\
  len [0.5; 0.25; -0.5; -0.25; 0.125; 1; -1; 0.75; 0.0625]%float
    <= CHECKED_BLOCK /\
  exists out,
    resampleTo24kHz
      [0.5; 0.25; -0.5; -0.25; 0.125; 1; -1; 0.75; 0.0625]%float
      (4 * TARGET_SAMPLE_RATE) = Ok out /\
    out = [0.5; 0.125]%float.
Proof.
  assert (len [0.5; 0.25; -0.5; -0.25; 0.125; 1; -1; 0.75; 0.0625]%float
          <= CHECKED_BLOCK) as Hb by (vm_compute; discriminate).
  split; [lia|]. split; [exact Hb|].
  destruct (integer_ratio_decimates
              [0.5; 0.25; -0.5; -0.25; 0.125; 1; -1; 0.75; 0.0625]%float 4)
    as (out & Ho & _); [lia | exact Hb |].
  exists out. split; [exact Ho|].
  vm_compute in Ho. injection Ho as <-. reflexivity.
Defined.

(** X14. At a checked rate below the target rate, on a block of up to
    [CHECKED_BLOCK] (1024) samples, the resampler repeats samples and
    skips none but, at most, the last of the block: the output is at
    least as long as the input, and every input sample before the last
    one comes out, passed through [x || 0], at some output index. *)
Theorem upsampling_skips_nothing (inputData : list float) (rate : Z) :
  In rate checked_rates -> rate < TARGET_SAMPLE_RATE ->
  len inputData <= CHECKED_BLOCK ->
  exists out,
    resampleTo24kHz inputData rate = Ok out /\
    len inputData <= len out /\
    forall k d, 0 <= k < len inputData - 1 ->
      exists i, 0 <= i < len out /\
                nth (Z.to_nat i) out d = or_zero (nth (Z.to_nat k) inputData d).
Proof.
  intros Hin Hlt Hblock.
  destruct (checked_rate rate Hin) as (Hr & _).
  destruct (resample_spec inputData rate Hin Hblock) as (out & Ho & Hl & Hn).
  exists out. split; [exact Ho|].
  unfold TARGET_SAMPLE_RATE in *.
  pose proof (len_nonneg inputData) as H0.
  remember (len inputData) as n eqn:En.
  assert (rate * len out <= n * 24000 < rate * len out + rate) as HL.
  { rewrite Hl. split.
    - apply Z.mul_div_le. lia.
    - pose proof (Z.mul_succ_div_gt (n * 24000) rate Hr). lia. }
  split; [nia|].
  intros k d Hk.
  remember ((k * 24000 + rate - 1) / rate) as i eqn:Ei.
  assert (rate * i <= k * 24000 + rate - 1 < rate * i + rate) as Hi.
  { rewrite Ei. split.
    - apply Z.mul_div_le. lia.
    - pose proof (Z.mul_succ_div_gt (k * 24000 + rate - 1) rate Hr). lia. }
  assert (0 <= i < len out) as Hrange by nia.
  exists i. split; [exact Hrange|].
  destruct (Hn i d Hrange) as [_ Hv]. rewrite Hv.
  replace (i * rate / 24000) with k; [reflexivity|].
  apply (Z.div_unique_pos _ _ _ (i * rate - 24000 * k)); nia.
Qed.

Lemma upsampling_skips_nothing_witness :
  In 22050 checked_rates /\ 22050 < TARGET_SAMPLE_RATE /\
  len [0.5; 0.25]%float <= CHECKED_BLOCK /\
  exists out,
    resampleTo24kHz [0.5; 0.25]%float 22050 = Ok out /\
    out = [0.5; 0.5]%float.
Proof.
  assert (In 22050 checked_rates) as Hin by (vm_compute; auto 20).
  assert (len [0.5; 0.25]%float <= CHECKED_BLOCK) as Hb
    by (vm_compute; discriminate).
  split; [exact Hin|]. split; [reflexivity|]. split; [exact Hb|].
  destruct (upsampling_skips_nothing [0.5; 0.25]%float 22050)
    as (out & Ho & _); [exact Hin | reflexivity | exact Hb |].
  exists out. split; [exact Ho|].
  vm_compute in Ho. injection Ho as <-. reflexivity.
Defined.

End MicExtra.


(* ================================================================== *)
(** ** The audio client: properties *)

Module ClientExtra.

Import Client JSFacts MicFacts.

(** The check of [level_ok] on the 65536 sample values, by evaluation. *)
Lemma levels_ok : forallb level_ok all_int16 = true.
Proof. vm_compute. reflexivity. Qed.

Lemma level_ok_int16 s : int16 s -> level_ok s = true.
Proof.
  intros Hs. pose proof levels_ok as H. rewrite forallb_forall in H.
  apply H. unfold all_int16. apply In_indices. unfold int16 in Hs. lia.
Qed.

Lemma ToInt16_range x : int16 (ToInt16 x).
Proof.
  unfold ToInt16, int16. cbv zeta.
  pose proof (Z.mod_pos_bound (trunc x) 65536 ltac:(lia)).
  destruct (Z.leb_spec 32768 (trunc x mod 65536)); lia.
Qed.

Lemma int16_of_bytes_inverse s :
  int16 s -> int16_of_bytes (s mod 256) ((s / 256) mod 256) = s.
Proof.
  unfold int16, int16_of_bytes. intros Hs. cbv zeta.
  destruct (Z.leb_spec 32768 (s mod 256 + 256 * ((s / 256) mod 256)));
    Z.div_mod_to_equations; lia.
Qed.

Lemma int16_pairs_inverse a :
  Forall int16 a -> int16_pairs (Uint8Array_of_buffer a) = a.
Proof.
  induction 1 as [|s a Hs _ IH]; [reflexivity|].
  cbn [Uint8Array_of_buffer flat_map app int16_pairs].
  fold (Uint8Array_of_buffer a). rewrite IH, int16_of_bytes_inverse by exact Hs.
  reflexivity.
Qed.

Lemma Uint8Array_length a : len (Uint8Array_of_buffer a) = 2 * len a.
Proof.
  induction a as [|s a IH]; [reflexivity|].
  cbn [Uint8Array_of_buffer flat_map]. fold (Uint8Array_of_buffer a).
  rewrite len_app. unfold len in *. cbn [length]. lia.
Qed.

Lemma Uint8Array_bytes a :
  Forall (fun b => 0 <= b < 256) (Uint8Array_of_buffer a).
Proof.
  induction a as [|s a IH]; [constructor|].
  cbn [Uint8Array_of_buffer flat_map app]. fold (Uint8Array_of_buffer a).
  constructor; [apply Z.mod_pos_bound; lia|].
  constructor; [apply Z.mod_pos_bound; lia | exact IH].
Qed.

Lemma int16_pairs_length : forall n bytes,
  (length bytes <= n)%nat -> 
  len (int16_pairs bytes) = len bytes / 2.
Proof.
  induction n as [|n IH]; intros bytes Hn.
  - destruct bytes; [reflexivity | simpl in Hn; lia].
  - destruct bytes as [|lo [|hi r]]; [reflexivity | reflexivity |].
    cbn [int16_pairs]. unfold len in *. cbn [length].
    rewrite !Nat2Z.inj_succ, IH by (simpl in Hn; lia).
    Z.div_mod_to_equations. lia.
Qed.

Lemma pcm16_samples_int16 (data : list float) :
  Forall int16 (map pcm16_of_float data).
Proof.
  induction data; constructor; [apply ToInt16_range | assumption].
Qed.

(** X15. Every chunk the microphone processor posts from a start command
    on, along any sequence of callbacks on which the resampler returns, is
    sent, when the socket is connected, as 3840 bytes (two per sample,
    each below 256) with the sample rate 24000, the chunk duration and
    the sample count 1920 in its metadata; nothing is sent without a
    connected socket; a callback on which the resampler throws throws
    the same error. *)
Theorem chunk_sent_as_3840_bytes (sampleRate : Z) p0 calls :
  match Mic.resampled_all sampleRate calls with
  | Ok _ =>
      exists p chunks,
        Mic.run sampleRate (Mic.onmessage p0 Mic.Start) calls = Ok p /\
        Mic.port p = Mic.port p0 ++ chunks /\
        Forall (fun c =>
                  handleAudioChunk false c = None /\
                  exists m,
                    handleAudioChunk true c = Some m /\
                    len (m_data m) = 3840 /\
                    Forall (fun b => 0 <= b < 256) (m_data m) /\
                    m_sample_rate m = 24000 /\
                    m_duration m = Mic.CHUNK_DURATION /\
                    m_samples m = 1920) chunks
  | Err e => Mic.run sampleRate (Mic.onmessage p0 Mic.Start) calls = Err e
  end.
Proof.
  pose proof (run_spec sampleRate calls (Mic.onmessage p0 Mic.Start)) as H.
  destruct (Mic.resampled_all sampleRate calls) as [all|e];
    [|apply H; [reflexivity | vm_compute; reflexivity]].
  destruct H as (p & chunks & Hrun & Hport & Hok & _ & _).
  - reflexivity.
  - vm_compute. reflexivity.
  - destruct samples_per_chunk_exact as [_ Hn].
    exists p, chunks. split; [exact Hrun|]. split; [exact Hport|].
    eapply Forall_impl; [|exact Hok].
    intros c (Hd & Hs & Hrate & Hdur). split; [reflexivity|].
    cbn [handleAudioChunk negb]. eexists. split; [reflexivity|].
    cbn [m_data m_sample_rate m_duration m_samples].
    split.
    { rewrite Uint8Array_length. unfold len in *. rewrite length_map.
      rewrite Hn in Hd. lia. }
    split; [apply Uint8Array_bytes|].
    split; [exact Hrate|]. split; [exact Hdur|].
    rewrite Hs. exact Hn.
Qed.

Lemma chunk_sent_as_3840_bytes_witness :
  exists p chunks,
    Mic.run 48000 (Mic.onmessage Mic.constructor Mic.Start)
            (repeat [[repeat 0.5%float 128]] 31) = Ok p /\
    Mic.port p = chunks /\
    length chunks = 1%nat /\
    Forall (fun c => exists m, handleAudioChunk true c = Some m /\
                               len (m_data m) = 3840) chunks.
Proof.
  assert (exists all,
             Mic.resampled_all 48000 (repeat [[repeat 0.5%float 128]] 31)
             = Ok all) as [all E] by (eexists; vm_compute; reflexivity).
  pose proof (chunk_sent_as_3840_bytes 48000 Mic.constructor
                (repeat [[repeat 0.5%float 128]] 31)) as H.
  rewrite E in H. destruct H as (p & chunks & Hrun & Hport & Hall).
  exists p, chunks. split; [exact Hrun|]. split; [exact Hport|].
  split.
  - vm_compute in Hrun. injection Hrun as <-. simpl in Hport. subst chunks.
    reflexivity.
  - eapply Forall_impl; [|exact Hall].
    intros c (_ & m & Hm & Hl & _). exists m. auto.
Defined.

(** X16. A response is turned into a frame of half as many samples as it
    has bytes; a response of odd length makes the Int16Array constructor
    throw, the handler catches it and posts nothing, as it does when the
    audio output is not initialised. *)
Theorem response_frame_shape (bytes : list Z) :
  handleAudioResponse false bytes = None /\
  if Z.even (len bytes)
  then exists frame,
         handleAudioResponse true bytes = Some (Playout.MsgAudio frame) /\
         2 * len frame = len bytes
  else handleAudioResponse true bytes = None.
Proof.
  split; [reflexivity|].
  unfold handleAudioResponse, Int16Array_of_buffer. cbn [negb].
  destruct (Z.even (len bytes)) eqn:E; [|reflexivity].
  eexists. split; [reflexivity|].
  unfold len at 1. rewrite length_map. fold (len (int16_pairs bytes)).
  rewrite (int16_pairs_length (length bytes)) by lia.
  apply Z.even_spec in E. destruct E as [k Hk]. rewrite Hk.
  rewrite (Z.mul_comm 2 k), Z.div_mul by lia. lia.
Qed.

(** X17. The bytes sent for a chunk, read back as a response, give a
    frame with one sample for each sample of the chunk: the sample
    converted to 16 bits and back.  The two handlers agree on the byte
    order and on the 16-bit range. *)
Theorem sent_bytes_read_back (c : Mic.audioChunk) :
  exists m,
    handleAudioChunk true c = Some m /\
    handleAudioResponse true (m_data m)
    = Some (Playout.MsgAudio
              (map (fun x => float_of_pcm16 (pcm16_of_float x)) (Mic.data c))).
Proof.
  eexists. split; [reflexivity|].
  cbn [m_data]. unfold handleAudioResponse, Int16Array_of_buffer. cbn [negb].
  rewrite Uint8Array_length.
  replace (Z.even (2 * len (map pcm16_of_float (Mic.data c)))) with true
    by (symmetry; apply Z.even_spec; eexists; reflexivity).
  rewrite int16_pairs_inverse by apply pcm16_samples_int16.
  rewrite map_map. reflexivity.
Qed.

(** X18. The playout processor hears a decoded sample exactly when its
    16-bit value is above 3 in magnitude: the samples from -3 to 3 are
    silence for the underrun test, and a frame decoded from 16-bit
    samples is audible exactly when it holds a sample outside that
    range. *)
Theorem quiet_levels_are_silence (a : list Z) :
  Forall int16 a ->
  existsb Playout.audible (map float_of_pcm16 a)
  = existsb (fun s => 3 <? Z.abs s) a /\
  Forall (fun s => Playout.audible (float_of_pcm16 s) = (3 <? Z.abs s)) a.
Proof.
  induction 1 as [|s a Hs _ [IH1 IH2]]; [split; [reflexivity | constructor]|].
  assert (Playout.audible (float_of_pcm16 s) = (3 <? Z.abs s)) as Ha.
  { pose proof (level_ok_int16 s Hs) as H. unfold level_ok in H. cbv zeta in H.
    do 5 (apply andb_true_iff in H; destruct H as [H _]).
    apply eqb_prop. exact H. }
  split.
  - cbn [map existsb]. rewrite Ha, IH1. reflexivity.
  - constructor; assumption.
Qed.

Lemma quiet_levels_are_silence_witness :
  Forall int16 [0; 3; -3; 2; -1] /\
  existsb Playout.audible (map float_of_pcm16 [0; 3; -3; 2; -1]) = false /\
  Forall int16 [0; 3; -4] /\
  existsb Playout.audible (map float_of_pcm16 [0; 3; -4]) = true.
Proof.
  assert (Forall int16 [0; 3; -3; 2; -1]) as H1
    by (repeat constructor; unfold int16; lia).
  assert (Forall int16 [0; 3; -4]) as H2
    by (repeat constructor; unfold int16; lia).
  split; [exact H1|]. split.
  - destruct (quiet_levels_are_silence [0; 3; -3; 2; -1] H1) as [-> _].
    reflexivity.
  - split; [exact H2|].
    destruct (quiet_levels_are_silence [0; 3; -4] H2) as [-> _]. reflexivity.
Defined.

(** X19. Decoding a 16-bit sample and encoding it again never changes its
    sign and never raises its magnitude, and lowers it by at most one:
    the product by 32767 is cut towards zero, not rounded, so that 1
    comes back as 0 and 100 as 99. *)
Theorem pcm16_round_trip_within_one (s : Z) :
  int16 s ->
  let r := pcm16_of_float (float_of_pcm16 s) in
  Z.abs s - 1 <= Z.abs r <= Z.abs s /\
  (0 < s -> 0 <= r) /\ (s < 0 -> r <= 0) /\
  pcm16_of_float (float_of_pcm16 1) = 0 /\
  pcm16_of_float (float_of_pcm16 100) = 99.
Proof.
  intros Hs r. pose proof (level_ok_int16 s Hs) as H.
  unfold level_ok in H. cbv zeta in H. fold r in H.
  apply andb_true_iff in H as [H _].
  apply andb_true_iff in H as [H Hneg].
  apply andb_true_iff in H as [H Hpos].
  apply andb_true_iff in H as [H Hlow].
  apply andb_true_iff in H as [_ Hhigh].
  apply Z.leb_le in Hlow, Hhigh.
  split; [lia|]. split.
  { intros Hp. apply orb_true_iff in Hpos as [E|E];
      [apply Z.leb_le in E; exact E | apply Z.ltb_lt in E; lia]. }
  split.
  { intros Hp. apply orb_true_iff in Hneg as [E|E];
      [apply Z.leb_le in E; exact E | apply Z.ltb_lt in E; lia]. }
  split; vm_compute; reflexivity.
Qed.

Lemma pcm16_round_trip_within_one_witness :
  int16 (-1000) /\
  Z.abs (-1000) - 1 <= Z.abs (pcm16_of_float (float_of_pcm16 (-1000)))
    <= Z.abs (-1000) /\
  pcm16_of_float (float_of_pcm16 (-1000)) = -999.
Proof.
  assert (int16 (-1000)) as Hs by (unfold int16; lia).
  split; [exact Hs|]. split.
  - exact (proj1 (pcm16_round_trip_within_one (-1000) Hs)).
  - vm_compute. reflexivity.
Defined.

(** X20. A decoded sample lies between -1 and 1, but for the sample
    -32768, which is decoded below -1: the divisor is 32767 on both
    sides of zero. *)
Theorem decoded_sample_range (s : Z) :
  int16 s ->
  if s =? -32768
  then (float_of_pcm16 s <? -1)%float = true
  else (-1 <=? float_of_pcm16 s)%float = true /\
       (float_of_pcm16 s <=? 1)%float = true.
Proof.
  intros Hs. pose proof (level_ok_int16 s Hs) as H.
  unfold level_ok in H. cbv zeta in H.
  apply andb_true_iff in H. destruct H as [_ H].
  destruct (s =? -32768); [exact H|].
  apply andb_true_iff in H. exact H.
Qed.

Lemma decoded_sample_range_witness :
  int16 (-32768) /\ (float_of_pcm16 (-32768) <? -1)%float = true /\
  int16 32767 /\ float_of_pcm16 32767 = 1%float.
Proof.
  assert (int16 (-32768)) as H1 by (unfold int16; lia).
  split; [exact H1|]. split; [exact (decoded_sample_range (-32768) H1)|].
  split; [unfold int16; lia|]. vm_compute. reflexivity.
Defined.

End ClientExtra.
